(** * Goodwills studio: glue synchroniser, audio graph, recording session
      and provenance codec

    A shallow embedding of the engine of the [Studio] component (one React
    function component, file [part_000]) and the properties its design
    document states about it.

    Conventions of the embedding.
    - A React state variable and a [useRef] cell are both fields of one
      record, [studio].  A handler is a function on that record.  A state
      variable read inside a handler is the value of the render the handler
      was created in, so handlers read state variables from the record they
      are given and never from the record they are building; ref cells are
      read from the record being built.
    - JavaScript numbers are IEEE doubles in the source.  Here a number is an
      exact rational or one of [NaN], [+Infinity], [-Infinity]; rounding and
      the sign of zero are not modelled.
    - An exception that nothing catches ends the handler where it is thrown;
      the record the handler gives back is then the state it had reached.
      Where a caller goes on after the call, the handler gives back an
      [outcome], which tells a throw from a return.
    - What the browser does (media elements that play and loop, timers, the
      recorder's [stop] event) is kept apart from the handlers, in the
      definitions whose names start with [env_].
    - The two dialogs (My rituals and the mint flow) meet the engine only
      in [isRecording], [stopRecording] and [activeMenu]; their state
      variables, with the object URLs the browser keeps for them, are the
      fields of a second record, [library].
    - [JSON.parse], [JSON.stringify] and the formatting of numbers are
      parameters of the definitions that use them. *)

From Stdlib Require Import QArith Qcanon Qround Ascii Lqa.
From stdpp Require Import base numbers option list strings gmap pretty.

Set Default Proof Using "Type".
#[local] Set Warnings "-register-all".

(** ** JavaScript numbers *)

Module JsNum.

Inductive num : Type :=
| Fin (q : Qc)
| NaN
| PInf
| NInf.

Definition ratio (n : Z) (d : positive) : num := Fin (Q2Qc (Qmake n d)).
Definition zero : num := ratio 0 1.
Definition one : num := ratio 1 1.

(** [Number.isFinite] *)
Definition isFinite (a : num) : bool :=
  match a with Fin _ => true | _ => false end.

(** ToBoolean on a number: [0] and [NaN] are falsy. *)
Definition truthy (a : num) : bool :=
  match a with
  | Fin q => negb (Qc_eq_bool q 0)
  | NaN => false
  | PInf | NInf => true
  end.

(** [a || 0] *)
Definition or0 (a : num) : num := if truthy a then a else zero.

Definition neg (a : num) : num :=
  match a with
  | Fin q => Fin (- q)
  | NaN => NaN
  | PInf => NInf
  | NInf => PInf
  end.

Definition add (a b : num) : num :=
  match a, b with
  | NaN, _ | _, NaN => NaN
  | Fin x, Fin y => Fin (x + y)
  | PInf, NInf | NInf, PInf => NaN
  | PInf, _ | _, PInf => PInf
  | NInf, _ | _, NInf => NInf
  end.

Definition sub (a b : num) : num := add a (neg b).

(** The sign of an infinity times (or over) a finite factor. *)
Definition signed (positive_inf : bool) (q : Qc) : num :=
  match (q ?= 0)%Qc with
  | Eq => NaN
  | Gt => if positive_inf then PInf else NInf
  | Lt => if positive_inf then NInf else PInf
  end.

Definition mul (a b : num) : num :=
  match a, b with
  | NaN, _ | _, NaN => NaN
  | Fin x, Fin y => Fin (x * y)
  | PInf, Fin q | Fin q, PInf => signed true q
  | NInf, Fin q | Fin q, NInf => signed false q
  | PInf, PInf | NInf, NInf => PInf
  | PInf, NInf | NInf, PInf => NInf
  end.

Definition div (a b : num) : num :=
  match a, b with
  | NaN, _ | _, NaN => NaN
  | Fin x, Fin y =>
      if Qc_eq_bool y 0 then signed true x else Fin (x / y)
  | Fin _, (PInf | NInf) => zero
  | (PInf | NInf), (PInf | NInf) => NaN
  | PInf, Fin q => if Qc_eq_bool q 0 then PInf else signed true q
  | NInf, Fin q => if Qc_eq_bool q 0 then NInf else signed false q
  end.

(** Rounding towards zero, as the remainder operator needs it. *)
Definition trunc (q : Qc) : Z :=
  if Qle_bool 0 q then Qfloor q else Qceiling q.

(** The remainder operator [a % b]: the result has the sign of [a]. *)
Definition rem (a b : num) : num :=
  match a, b with
  | Fin x, Fin y =>
      if Qc_eq_bool y 0 then NaN
      else Fin (x - y * Q2Qc (inject_Z (trunc (x / y))))
  | Fin x, (PInf | NInf) => Fin x
  | _, _ => NaN
  end.

Definition ltb (a b : num) : bool :=
  match a, b with
  | Fin x, Fin y => match (x ?= y)%Qc with Lt => true | _ => false end
  | NInf, (Fin _ | PInf) => true
  | Fin _, PInf => true
  | _, _ => false
  end.

Definition leb (a b : num) : bool :=
  match a, b with
  | NaN, _ | _, NaN => false
  | _, _ => negb (ltb b a)
  end.

Definition eqb (a b : num) : bool :=
  match a, b with
  | Fin x, Fin y => Qc_eq_bool x y
  | PInf, PInf | NInf, NInf => true
  | _, _ => false
  end.

#[global] Instance num_eq_dec : EqDecision num.
Proof. solve_decision. Defined.

End JsNum.
Export JsNum.

Declare Scope js_scope.
Delimit Scope js_scope with js.
Bind Scope js_scope with num.
Infix "+" := add : js_scope.
Infix "-" := sub : js_scope.
Infix "*" := mul : js_scope.
Infix "/" := div : js_scope.
Infix "%%" := rem (at level 40, left associativity) : js_scope.
Infix "<?" := ltb : js_scope.
Infix "<=?" := leb : js_scope.
Notation "n # d" := (ratio n d) (at level 55, no associativity) : js_scope.

(** ** The component's state *)

(** What the handlers read and write of an [HTMLVideoElement]. *)
Record media : Type := mkMedia {
  currentTime : num;
  duration : num;
  volume : num;
  paused : bool;
}.

Definition media_eta (m : media) : media :=
  mkMedia (currentTime m) (duration m) (volume m) (paused m).

(** [field_update eta proj] builds the function that replaces the field
    [proj] of a record, from the eta expansion [eta] of the record. *)
Ltac field_update eta proj :=
  let e := eval cbv beta delta [eta] in eta in
  lazymatch eval pattern proj in e with
  | ?F _ =>
      let t := eval cbv beta in (fun v x => F (fun _ => v) x) in
      exact t
  end.

Definition set_currentTime : num -> media -> media :=
  ltac:(field_update media_eta currentTime).
Definition set_volume : num -> media -> media :=
  ltac:(field_update media_eta volume).
Definition set_paused : bool -> media -> media :=
  ltac:(field_update media_eta paused).
Definition set_duration : num -> media -> media :=
  ltac:(field_update media_eta duration).

#[global] Instance media_eq_dec : EqDecision media.
Proof. solve_decision. Defined.

Inductive ActiveMenu : Type :=
| menu_none | menu_presets | menu_share | menu_contest | menu_nature | menu_music.

(** The nodes of the Web Audio graph the component ever creates. *)
Inductive node : Type :=
| bgSource | muSource | bgGain | muGain | masterGain
| destination | recordDest.

#[global] Instance node_eq_dec : EqDecision node.
Proof. solve_decision. Defined.

(** An [AudioContext]: the connections made so far, newest first. *)
Record AudioContext : Type := mkCtx { connections : list (node * node) }.

Inductive RecordingState : Type := rs_inactive | rs_recording | rs_paused.

#[global] Instance RecordingState_eq_dec : EqDecision RecordingState.
Proof. solve_decision. Defined.

(** A [MediaRecorder]: its [state] attribute, the media time it has gathered
    so far, and whether its [stop] event is queued. *)
Record MediaRecorder : Type := mkRec {
  rstate : RecordingState;
  gathered : Z;
  stopQueued : bool;
}.

(** An encoded chunk ([BlobEvent.data]): its byte size and the media time
    it spans, in milliseconds. *)
Record chunk : Type := mkChunk { byteSize : Z; span : Z }.

Record Blob : Type := mkBlob { parts : list chunk; mimeType : string }.

(** The media time a blob holds. *)
Definition blob_ms (b : Blob) : Z := foldr (fun c acc => (span c + acc)%Z) 0%Z (parts b).

(** The payload that is drawn as a QR code into every recorded frame. *)
Module QrPayload.
Record volumes : Type := mkVolumes { big : num; small : num; master : num }.
Record t : Type := mk {
  v : string;
  id : string;
  createdAt : string;
  title : string;
  vols : volumes;
}.
End QrPayload.
Abbreviation QrPayload := QrPayload.t.

(** The two closures that [startRecording] hands to the timer functions. *)
Inductive callback : Type :=
| cb_tick       (* the [setInterval] callback *)
| cb_deadline.  (* the [setTimeout] callback *)

#[global] Instance callback_eq_dec : EqDecision callback.
Proof. solve_decision. Defined.

Record timer : Type := mkTimer {
  due : Z;                  (* clock value, in ms, at which it fires next *)
  period : option Z;        (* [Some p] for an interval *)
  handler : callback;
}.

(** The calls the handlers make into the browser that release or cancel
    something; each is appended to [calls] when it is made. *)
Inductive call : Type :=
| ClearInterval (id : Z)
| ClearTimeout (id : Z)
| CancelAnimationFrame (id : Z)
| RecorderStop
| DisconnectTap
| StopStreamTracks
| PauseBg
| PauseMu.

#[global] Instance call_eq_dec : EqDecision call.
Proof. solve_decision. Defined.

(** The browser's side of the state. *)
Record browser : Type := mkBrowser {
  clock : Z;                          (* [Date.now()], ms *)
  timers : list (Z * timer);          (* active timers by id, oldest first *)
  nextTimerId : Z;
  nextFrameId : Z;
  frameRequested : option Z;          (* pending [requestAnimationFrame] *)
  nextUrl : N;                        (* [URL.createObjectURL] counter *)
  canvas2d : bool;                    (* [getContext("2d")] succeeds *)
  calls : list call;                  (* newest first *)
}.

Definition browser_eta (b : browser) : browser :=
  mkBrowser (clock b) (timers b) (nextTimerId b) (nextFrameId b)
    (frameRequested b) (nextUrl b) (canvas2d b) (calls b).

Definition set_clock := ltac:(field_update browser_eta clock).
Definition set_timers := ltac:(field_update browser_eta timers).
Definition set_nextTimerId := ltac:(field_update browser_eta nextTimerId).
Definition set_nextFrameId := ltac:(field_update browser_eta nextFrameId).
Definition set_frameRequested := ltac:(field_update browser_eta frameRequested).
Definition set_nextUrl := ltac:(field_update browser_eta nextUrl).
Definition set_calls := ltac:(field_update browser_eta calls).

Record studio : Type := mkStudio {
  (* UI *)
  activeMenu : ActiveMenu;
  (* video refs and sources *)
  bgRef : option media;
  muRef : option media;
  bgSrc : option string;
  muSrc : option string;
  isPlaying : bool;
  (* glue *)
  isGlued : bool;
  glueOffsetSecRef : num;
  prevBgTimeRef : option num;
  prevMuTimeRef : option num;
  glueSyncGuardRef : bool;
  bgProgress : num;
  muProgress : num;
  (* faders *)
  bgVol : num;
  muVol : num;
  masterVol : num;
  (* WebAudio graph *)
  audioCtxRef : option AudioContext;
  bgSourceRef : option node;
  muSourceRef : option node;
  bgGainRef : option num;      (* the node's [gain.value] *)
  muGainRef : option num;
  masterGainRef : option num;
  (* recording *)
  recorderRef : option MediaRecorder;
  recordedChunksRef : list chunk;
  recordTimerRef : option Z;
  recIntervalRef : option Z;
  isRecording : bool;
  recTime : Z;
  canvasRef : bool;            (* the off-screen canvas exists *)
  drawRafRef : option Z;
  recordAudioDestRef : option node;
  recordOutStreamRef : option bool;   (* the stream; [true] while its tracks are live *)
  qrCanvasRef : bool;
  qrPayloadRef : option QrPayload;
  (* save panel *)
  showSavePanel : bool;
  pendingRecordedBlob : option Blob;
  pendingRecordedUrl : option string;
  pendingQrPayload : option QrPayload;
  (* the browser *)
  env : browser;
}.

Definition studio_eta (s : studio) : studio :=
  mkStudio (activeMenu s) (bgRef s) (muRef s) (bgSrc s) (muSrc s) (isPlaying s)
    (isGlued s) (glueOffsetSecRef s) (prevBgTimeRef s) (prevMuTimeRef s)
    (glueSyncGuardRef s) (bgProgress s) (muProgress s)
    (bgVol s) (muVol s) (masterVol s)
    (audioCtxRef s) (bgSourceRef s) (muSourceRef s) (bgGainRef s) (muGainRef s)
    (masterGainRef s)
    (recorderRef s) (recordedChunksRef s) (recordTimerRef s) (recIntervalRef s)
    (isRecording s) (recTime s) (canvasRef s) (drawRafRef s)
    (recordAudioDestRef s) (recordOutStreamRef s) (qrCanvasRef s) (qrPayloadRef s)
    (showSavePanel s) (pendingRecordedBlob s) (pendingRecordedUrl s)
    (pendingQrPayload s) (env s).

Definition setActiveMenu := ltac:(field_update studio_eta activeMenu).
Definition set_bgRef := ltac:(field_update studio_eta bgRef).
Definition set_muRef := ltac:(field_update studio_eta muRef).
Definition setBgSrc := ltac:(field_update studio_eta bgSrc).
Definition setMuSrc := ltac:(field_update studio_eta muSrc).
Definition setIsPlaying := ltac:(field_update studio_eta isPlaying).
Definition setIsGlued := ltac:(field_update studio_eta isGlued).
Definition set_glueOffsetSecRef := ltac:(field_update studio_eta glueOffsetSecRef).
Definition set_prevBgTimeRef := ltac:(field_update studio_eta prevBgTimeRef).
Definition set_prevMuTimeRef := ltac:(field_update studio_eta prevMuTimeRef).
Definition set_glueSyncGuardRef := ltac:(field_update studio_eta glueSyncGuardRef).
Definition setBgProgress := ltac:(field_update studio_eta bgProgress).
Definition setMuProgress := ltac:(field_update studio_eta muProgress).
Definition set_bgVol := ltac:(field_update studio_eta bgVol).
Definition set_muVol := ltac:(field_update studio_eta muVol).
Definition set_masterVol := ltac:(field_update studio_eta masterVol).
Definition set_audioCtxRef := ltac:(field_update studio_eta audioCtxRef).
Definition set_bgSourceRef := ltac:(field_update studio_eta bgSourceRef).
Definition set_muSourceRef := ltac:(field_update studio_eta muSourceRef).
Definition set_bgGainRef := ltac:(field_update studio_eta bgGainRef).
Definition set_muGainRef := ltac:(field_update studio_eta muGainRef).
Definition set_masterGainRef := ltac:(field_update studio_eta masterGainRef).
Definition set_recorderRef := ltac:(field_update studio_eta recorderRef).
Definition set_recordedChunksRef := ltac:(field_update studio_eta recordedChunksRef).
Definition set_recordTimerRef := ltac:(field_update studio_eta recordTimerRef).
Definition set_recIntervalRef := ltac:(field_update studio_eta recIntervalRef).
Definition setIsRecording := ltac:(field_update studio_eta isRecording).
Definition setRecTime := ltac:(field_update studio_eta recTime).
Definition set_canvasRef := ltac:(field_update studio_eta canvasRef).
Definition set_drawRafRef := ltac:(field_update studio_eta drawRafRef).
Definition set_recordAudioDestRef := ltac:(field_update studio_eta recordAudioDestRef).
Definition set_recordOutStreamRef := ltac:(field_update studio_eta recordOutStreamRef).
Definition set_qrCanvasRef := ltac:(field_update studio_eta qrCanvasRef).
Definition set_qrPayloadRef := ltac:(field_update studio_eta qrPayloadRef).
Definition setShowSavePanel := ltac:(field_update studio_eta showSavePanel).
Definition setPendingRecordedBlob := ltac:(field_update studio_eta pendingRecordedBlob).
Definition setPendingRecordedUrl := ltac:(field_update studio_eta pendingRecordedUrl).
Definition setPendingQrPayload := ltac:(field_update studio_eta pendingQrPayload).
Definition set_env := ltac:(field_update studio_eta env).

(** A browser call that is recorded in [calls]. *)
Definition emit (c : call) (s : studio) : studio :=
  set_env (set_calls (c :: calls (env s)) (env s)) s.

(** ** Glue synchroniser *)

Open Scope js_scope.

Definition wrapTime (t dur : num) : num :=
  if negb (isFinite dur) || (dur <=? zero) then zero
  else
    let m := t %% dur in
    if m <? zero then m + dur else m.

(** The backward jump that is read as a loop wraparound, in seconds. *)
Definition wrapThreshold : num := 1 # 2.

(** [element.currentTime = t]: the attribute is a WebIDL [double], so the
    setter throws a [TypeError] when [t] is [NaN] or an infinity and stores
    [t] otherwise. *)
Definition assign_currentTime (t : num) (m : media) : option media :=
  if isFinite t then Some (set_currentTime t m) else None.

Definition handleBgTimeUpdate (s : studio) : studio :=
  match bgRef s with
  | None => s
  | Some bg =>
      if negb (truthy (duration bg)) then s
      else
        (* normal progress *)
        let s1 := setBgProgress (currentTime bg / duration bg) s in
        if negb (isGlued s) || negb (isPlaying s) || isRecording s then
          set_prevBgTimeRef (Some (currentTime bg)) s1
        else if glueSyncGuardRef s1 then
          set_prevBgTimeRef (Some (currentTime bg)) s1
        else
          let prev := prevBgTimeRef s1 in
          let s2 := set_prevBgTimeRef (Some (currentTime bg)) s1 in
          match prev with
          | None => s2
          | Some prev =>
              (* detect a loop (a sudden jump backwards) *)
              if currentTime bg <? prev - wrapThreshold then
                let delta := (duration bg - prev) + currentTime bg in
                match muRef s2 with
                | Some mu =>
                    if truthy (duration mu) then
                      let s3 := set_glueSyncGuardRef true s2 in
                      let next := wrapTime (or0 (currentTime mu) + delta) (duration mu) in
                      match assign_currentTime next mu with
                      | Some mu' =>
                          let s4 := set_muRef (Some mu') s3 in
                          let s5 := setMuProgress (next / duration mu) s4 in
                          set_glueSyncGuardRef false s5
                      | None => s3   (* TypeError: the guard stays set *)
                      end
                    else s2
                | None => s2
                end
              else s2
          end
  end.

Definition handleMuTimeUpdate (s : studio) : studio :=
  match muRef s with
  | None => s
  | Some mu =>
      if negb (truthy (duration mu)) then s
      else
        let s1 := setMuProgress (currentTime mu / duration mu) s in
        if negb (isGlued s) || negb (isPlaying s) || isRecording s then
          set_prevMuTimeRef (Some (currentTime mu)) s1
        else if glueSyncGuardRef s1 then
          set_prevMuTimeRef (Some (currentTime mu)) s1
        else
          let prev := prevMuTimeRef s1 in
          let s2 := set_prevMuTimeRef (Some (currentTime mu)) s1 in
          match prev with
          | None => s2
          | Some prev =>
              if currentTime mu <? prev - wrapThreshold then
                let delta := (duration mu - prev) + currentTime mu in
                match bgRef s2 with
                | Some bg =>
                    if truthy (duration bg) then
                      let s3 := set_glueSyncGuardRef true s2 in
                      let next := wrapTime (or0 (currentTime bg) + delta) (duration bg) in
                      match assign_currentTime next bg with
                      | Some bg' =>
                          let s4 := set_bgRef (Some bg') s3 in
                          let s5 := setBgProgress (next / duration bg) s4 in
                          set_glueSyncGuardRef false s5
                      | None => s3   (* TypeError: the guard stays set *)
                      end
                    else s2
                | None => s2
                end
              else s2
          end
  end.

Definition handleBgTimelineChange (value : num) (s : studio) : studio :=
  match bgRef s with
  | None => s
  | Some v =>
      if negb (truthy (duration v)) then s
      else
        let tBg := value * duration v in
        match assign_currentTime tBg v with
        | None => s   (* TypeError *)
        | Some v' =>
            let s1 := set_bgRef (Some v') s in
            let s2 := setBgProgress value s1 in
            (* When glued, keep the offset that was set at glue time. *)
            if isGlued s then
              match muRef s2 with
              | Some m =>
                  if truthy (duration m) then
                    let tMu := tBg + glueOffsetSecRef s2 in
                    let wrapped := wrapTime tMu (duration m) in
                    match assign_currentTime wrapped m with
                    | Some m' =>
                        let s3 := set_muRef (Some m') s2 in
                        setMuProgress (wrapped / duration m) s3
                    | None => s2   (* TypeError *)
                    end
                  else s2
              | None => s2
              end
            else s2
        end
  end.

Definition handleMuTimelineChange (value : num) (s : studio) : studio :=
  match muRef s with
  | None => s
  | Some v =>
      if negb (truthy (duration v)) then s
      else
        let tMu := value * duration v in
        match assign_currentTime tMu v with
        | None => s   (* TypeError *)
        | Some v' =>
            let s1 := set_muRef (Some v') s in
            let s2 := setMuProgress value s1 in
            if isGlued s then
              match bgRef s2 with
              | Some b =>
                  if truthy (duration b) then
                    let tBg := tMu - glueOffsetSecRef s2 in
                    let wrapped := wrapTime tBg (duration b) in
                    match assign_currentTime wrapped b with
                    | Some b' =>
                        let s3 := set_bgRef (Some b') s2 in
                        setBgProgress (wrapped / duration b) s3
                    | None => s2   (* TypeError *)
                    end
                  else s2
              | None => s2
              end
            else s2
        end
  end.

(** ToBoolean on [string | null]: [null] and the empty string are falsy. *)
Definition src_truthy (src : option string) : bool :=
  match src with
  | None => false
  | Some u => negb (String.eqb u "")
  end.

Definition toggleGlue (s : studio) : studio :=
  (* Glue makes sense only when SMALL track exists *)
  if negb (src_truthy (muSrc s)) then s
  else
    let next := negb (isGlued s) in
    let s1 :=
      if next then
        match bgRef s, muRef s with
        | Some bg, Some mu =>
            set_glueOffsetSecRef (or0 (currentTime mu) - or0 (currentTime bg)) s
        | _, _ => s
        end
      else s in
    setIsGlued next s1.

(** *** File loaders and presets *)

(** A [File] as the loaders use it: only its identity matters. *)
Record File : Type := mkFile { name : string }.

(** [URL.createObjectURL]: a fresh [blob:] URL on every call. *)
Definition createObjectURL (s : studio) : string * studio :=
  ("blob:" +:+ pretty (nextUrl (env s)),
   set_env (set_nextUrl (N.succ (nextUrl (env s))) (env s)) s).

Definition handleUploadNature (file : option File) (s : studio) : studio :=
  match file with
  | None => s
  | Some _ =>
      let '(url, s1) := createObjectURL s in
      let s2 := setBgSrc (Some url) s1 in
      let s3 := setBgProgress zero s2 in
      let s4 := setIsPlaying false s3 in
      let s5 := setActiveMenu menu_none s4 in
      setIsGlued false s5
  end.

Definition handleUploadMusic (file : option File) (s : studio) : studio :=
  match file with
  | None => s
  | Some _ =>
      let '(url, s1) := createObjectURL s in
      let s2 := setMuSrc (Some url) s1 in
      let s3 := setMuProgress zero s2 in
      let s4 := setIsPlaying false s3 in
      let s5 := setActiveMenu menu_none s4 in
      setIsGlued false s5
  end.

(** [import.meta.env.BASE_URL]; on Pages it is ["/goodwills/"]. *)
Definition BASE : string := "/goodwills/".

Definition applyPreset (name : string) (s : studio) : studio :=
  let s1 := setIsGlued false s in
  let s2 := setActiveMenu menu_none s1 in
  let load (nature music : string) : studio :=
    let s3 := setBgSrc (Some (BASE +:+ nature)) s2 in
    let s4 := setMuSrc (Some (BASE +:+ music)) s3 in
    let s5 := setBgProgress zero s4 in
    let s6 := setMuProgress zero s5 in
    setIsPlaying false s6 in
  if String.eqb name "Stormbound" then
    load "presets/storm_nature.mp4" "presets/storm_music.mp4"
  else if String.eqb name "SunsetBurn" then
    load "presets/sunset_nature.mp4" "presets/sunset_music.mp4"
  else if String.eqb name "VoidStare" then
    load "presets/void_nature.mp4" "presets/void_music.mp4"
  else s2.

(** ** Audio mixing graph *)

(** How a handler ends: it returns, or it throws after the changes it has
    already made to ref cells and to the browser. *)
Inductive outcome : Type :=
| Returned (s : studio)
| Threw (error : string) (s : studio).

Definition state_of (o : outcome) : studio :=
  match o with Returned s | Threw _ s => s end.


(** Sequencing: what follows a throw is skipped. *)
Definition andThen (o : outcome) (k : studio -> outcome) : outcome :=
  match o with
  | Returned s => k s
  | Threw e s => Threw e s
  end.

(** [node.connect(target)] inside the context of [audioCtxRef]. *)
Definition connect (a b : node) (s : studio) : studio :=
  match audioCtxRef s with
  | Some ctx => set_audioCtxRef (Some (mkCtx ((a, b) :: connections ctx))) s
  | None => s
  end.

(** [node.disconnect(target)] *)
Definition disconnect (a b : node) (s : studio) : studio :=
  match audioCtxRef s with
  | Some ctx =>
      set_audioCtxRef
        (Some (mkCtx (filter (fun e => e ≠ (a, b)) (connections ctx)))) s
  | None => s
  end.

Definition on_media (f : media -> media) (m : option media) : option media :=
  match m with Some x => Some (f x) | None => None end.

Definition ensureAudioContext (s : studio) : outcome :=
  match audioCtxRef s with
  | Some _ => Returned s
  | None =>
      let s1 := set_audioCtxRef (Some (mkCtx [])) s in
      (* when using WebAudio, keep media elements at full volume *)
      let s2 := set_bgRef (on_media (set_volume one) (bgRef s1)) s1 in
      let s3 := set_muRef (on_media (set_volume one) (muRef s2)) s2 in
      (* BIG *)
      match bgRef s3 with
      | None =>
          (* [createMediaElementSource(null)] *)
          Threw "TypeError" s3
      | Some _ =>
          let s4 := set_bgSourceRef (Some bgSource) s3 in
          let s5 := set_bgGainRef (Some (bgVol s)) s4 in
          (* MASTER *)
          let s6 := set_masterGainRef (Some (masterVol s)) s5 in
          let s7 := connect bgGain masterGain (connect bgSource bgGain s6) in
          Returned (connect masterGain destination s7)
      end
  end.

Definition ensureMiniConnected (s : studio) : outcome :=
  match audioCtxRef s with
  | None => Returned s
  | Some _ =>
      match muRef s with
      | None => Returned s
      | Some _ =>
          match muSourceRef s with
          | Some _ => Returned s
          | None =>
              let s1 := set_muSourceRef (Some muSource) s in
              let s2 := set_muGainRef (Some (muVol s)) s1 in
              let s3 := connect muSource muGain s2 in
              match masterGainRef s3 with
              | Some _ => Returned (connect muGain masterGain s3)
              | None =>
                  (* [connect(null)] *)
                  Threw "TypeError" s3
              end
          end
      end
  end.

(** The effect that depends on [bgVol], [muVol] and [masterVol]. *)
Definition volumeEffect (s : studio) : studio :=
  match audioCtxRef s with
  | None =>
      let s1 := set_bgRef (on_media (set_volume (bgVol s * masterVol s)) (bgRef s)) s in
      set_muRef (on_media (set_volume (muVol s * masterVol s)) (muRef s1)) s1
  | Some _ =>
      let s1 := match bgGainRef s with
                | Some _ => set_bgGainRef (Some (bgVol s)) s
                | None => s
                end in
      let s2 := match muGainRef s1 with
                | Some _ => set_muGainRef (Some (muVol s)) s1
                | None => s1
                end in
      match masterGainRef s2 with
      | Some _ => set_masterGainRef (Some (masterVol s)) s2
      | None => s2
      end
  end.

(** The three gain stages. *)
Inductive stage : Type := stage_big | stage_small | stage_master.

Definition stageGain (g : stage) (s : studio) : num :=
  match g with
  | stage_big => bgVol s
  | stage_small => muVol s
  | stage_master => masterVol s
  end.

(** A fader is moved: the state variable is set and, when its value has
    changed, the component renders again and [volumeEffect] runs with the
    new values. *)
Definition setGain (g : stage) (value : num) (s : studio) : studio :=
  if decide (stageGain g s = value) then s
  else
    volumeEffect
      match g with
      | stage_big => set_bgVol value s
      | stage_small => set_muVol value s
      | stage_master => set_masterVol value s
      end.

(** ** Recording session *)

Close Scope js_scope.
Open Scope Z_scope.

Definition RECORD_LIMIT_SEC : Z := 100.

(** ToBoolean on [number | null], for timer and frame ids. *)
Definition id_truthy (r : option Z) : option Z :=
  match r with
  | Some i => if i =? 0 then None else Some i
  | None => None
  end.

(** *** The browser's timer and frame functions *)

Definition remove_timer (i : Z) (s : studio) : studio :=
  set_env
    (set_timers (List.filter (fun e => negb (e.1 =? i)) (timers (env s)))
       (env s)) s.

Definition clearInterval (i : Z) (s : studio) : studio :=
  emit (ClearInterval i) (remove_timer i s).

Definition clearTimeout (i : Z) (s : studio) : studio :=
  emit (ClearTimeout i) (remove_timer i s).

Definition add_timer (t : timer) (s : studio) : Z * studio :=
  (nextTimerId (env s),
   set_env
     (set_nextTimerId (nextTimerId (env s) + 1)
        (set_timers (timers (env s) ++ [(nextTimerId (env s), t)]) (env s))) s).

Definition setInterval (cb : callback) (ms : Z) (s : studio) : Z * studio :=
  add_timer (mkTimer (clock (env s) + ms) (Some ms) cb) s.

Definition setTimeout (cb : callback) (ms : Z) (s : studio) : Z * studio :=
  add_timer (mkTimer (clock (env s) + ms) None cb) s.

Definition requestAnimationFrame (s : studio) : Z * studio :=
  (nextFrameId (env s),
   set_env
     (set_nextFrameId (nextFrameId (env s) + 1)
        (set_frameRequested (Some (nextFrameId (env s))) (env s))) s).

Definition cancelAnimationFrame (i : Z) (s : studio) : studio :=
  emit (CancelAnimationFrame i)
    (set_env
       match frameRequested (env s) with
       | Some j => if j =? i then set_frameRequested None (env s) else env s
       | None => env s
       end s).

(** [element?.pause()] *)
Definition pauseBg (s : studio) : studio :=
  match bgRef s with
  | Some m => emit PauseBg (set_bgRef (Some (set_paused true m)) s)
  | None => s
  end.

Definition pauseMu (s : studio) : studio :=
  match muRef s with
  | Some m => emit PauseMu (set_muRef (Some (set_paused true m)) s)
  | None => s
  end.

(** [element?.play()] *)
Definition playBg (s : studio) : studio :=
  set_bgRef (on_media (set_paused false) (bgRef s)) s.

Definition playMu (s : studio) : studio :=
  set_muRef (on_media (set_paused false) (muRef s)) s.

(** [rec.stop()]: the recorder becomes inactive at once and its [stop]
    event is queued. *)
Definition recorder_stop (r : MediaRecorder) (s : studio) : studio :=
  emit RecorderStop
    (set_recorderRef (Some (mkRec rs_inactive (gathered r) true)) s).

(** *** global transport *)

Definition stopRecording (s : studio) : studio :=
  let s1 := match id_truthy (recIntervalRef s) with
            | Some i => set_recIntervalRef None (clearInterval i s)
            | None => s
            end in
  let s2 := match id_truthy (recordTimerRef s1) with
            | Some i => set_recordTimerRef None (clearTimeout i s1)
            | None => s1
            end in
  let s3 := pauseMu (pauseBg s2) in
  let s4 := setIsPlaying false s3 in
  match recorderRef s4 with
  | Some rec =>
      match rstate rec with
      | rs_recording => recorder_stop rec s4
      | _ => setIsRecording false s4
      end
  | None => setIsRecording false s4
  end.

(** [rec.ondataavailable] *)
Definition ondataavailable (data : option chunk) (s : studio) : studio :=
  match data with
  | Some d =>
      if 0 <? byteSize d
      then set_recordedChunksRef (recordedChunksRef s ++ [d]) s
      else s
  | None => s
  end.

(** [rec.onstop] *)
Definition onstop (s : studio) : studio :=
  let s1 := match id_truthy (drawRafRef s) with
            | Some i => set_drawRafRef None (cancelAnimationFrame i s)
            | None => s
            end in
  let blob := mkBlob (recordedChunksRef s1) "video/webm" in
  let '(url, s2) := createObjectURL s1 in
  let s3 := setPendingRecordedBlob (Some blob) s2 in
  let s4 := setPendingRecordedUrl (Some url) s3 in
  let s5 := setPendingQrPayload (qrPayloadRef s4) s4 in
  let s6 := setShowSavePanel true s5 in
  let s7 := setIsRecording false s6 in
  let s8 := setRecTime 0 s7 in
  let s9 := set_recorderRef None s8 in
  let s10 := set_recordedChunksRef [] s9 in
  let s11 := match id_truthy (recIntervalRef s10) with
             | Some i => set_recIntervalRef None (clearInterval i s10)
             | None => s10
             end in
  let s12 := match id_truthy (recordTimerRef s11) with
             | Some i => set_recordTimerRef None (clearTimeout i s11)
             | None => s11
             end in
  let s13 := match recordAudioDestRef s12, masterGainRef s12 with
             | Some d, Some _ => emit DisconnectTap (disconnect masterGain d s12)
             | _, _ => s12
             end in
  let s14 := set_recordAudioDestRef None s13 in
  let s15 := match recordOutStreamRef s14 with
             | Some _ => emit StopStreamTracks (set_recordOutStreamRef (Some false) s14)
             | None => s14
             end in
  set_recordOutStreamRef None s15.

(** One turn of the render loop: the frame is drawn and the next one is
    requested. *)
Definition draw (s : studio) : studio :=
  let '(i, s1) := requestAnimationFrame s in
  set_drawRafRef (Some i) s1.

(** The [setInterval] callback of [startRecording]. *)
Definition recTick (s : studio) : studio :=
  let t := recTime s in
  if RECORD_LIMIT_SEC <=? t + 1 then setRecTime 0 (stopRecording s)
  else setRecTime (t + 1) s.

(** The [setTimeout] callback of [startRecording]. *)
Definition recDeadline (s : studio) : studio := stopRecording s.

(** [s.replace(/[:.]/g, "-")] *)
Fixpoint dashed (s : string) : string :=
  match s with
  | EmptyString => EmptyString
  | String c r =>
      String (if Ascii.eqb c ":" || Ascii.eqb c "." then "-"%char else c) (dashed r)
  end.

(** [startRecording] as it runs when BIG already shows a frame:
    [waitForVideoReady] then answers at once, neither await waits for the
    browser, and the function is one step.  [iso] is
    [new Date().toISOString()] and [qrOk] tells whether the QR code could be
    rasterised.  On a BIG element without a frame the source first waits,
    for up to 2.5 s and on a timer of its own, before it goes on from the
    size of the canvas; that wait is [waitForVideoReady] below, and a start
    that has to wait is not part of this definition. *)
Definition startRecording (iso : string) (qrOk : bool) (s : studio) : studio :=
  match audioCtxRef s, masterGainRef s, bgRef s with
  | Some _, Some _, Some _ =>
      let s1 := set_canvasRef true s in
      if negb (canvas2d (env s1)) then s1
      else
        (* prepare QR payload *)
        let payload :=
          QrPayload.mk "0.1" ("gw-" +:+ pretty (clock (env s1))) iso
            ("GOODWILLS_" +:+ dashed iso)
            (QrPayload.mkVolumes (bgVol s) (muVol s) (masterVol s)) in
        let s2 := if qrOk
                  then set_qrCanvasRef true (set_qrPayloadRef (Some payload) s1)
                  else set_qrPayloadRef None (set_qrCanvasRef false s1) in
        let s3 := set_recordAudioDestRef (Some recordDest) s2 in
        let s4 := connect masterGain recordDest s3 in
        let s5 := set_recordOutStreamRef (Some true) s4 in
        let s6 := set_recordedChunksRef [] s5 in
        let s7 := set_recorderRef (Some (mkRec rs_inactive 0 false)) s6 in
        let s8 := draw s7 in
        (* rec.start() *)
        let s9 := set_recorderRef (Some (mkRec rs_recording 0 false)) s8 in
        let s10 := setIsRecording true s9 in
        let s11 := setRecTime 0 s10 in
        let s12 := match id_truthy (recIntervalRef s11) with
                   | Some i => clearInterval i s11
                   | None => s11
                   end in
        let '(i1, s13) := setInterval cb_tick 1000 s12 in
        let s14 := set_recIntervalRef (Some i1) s13 in
        let s15 := match id_truthy (recordTimerRef s14) with
                   | Some i => clearTimeout i s14
                   | None => s14
                   end in
        let '(i2, s16) := setTimeout cb_deadline (RECORD_LIMIT_SEC * 1000) s15 in
        set_recordTimerRef (Some i2) s16
  | _, _, _ => s
  end.

Definition handleGlobalPlayPause (s : studio) : outcome :=
  if isRecording s then Returned (stopRecording s)
  else
    andThen (ensureAudioContext s) (fun s1 =>
    andThen (ensureMiniConnected s1) (fun s2 =>
      let shouldPlay := negb (isPlaying s) in
      if shouldPlay then Returned (setIsPlaying true (playMu (playBg s2)))
      else Returned (setIsPlaying false (pauseMu (pauseBg s2))))).

Definition handleGlobalStop (s : studio) : studio :=
  if isRecording s then stopRecording s
  else
    let s1 := match bgRef s with
              | Some _ =>
                  let s' := pauseBg s in
                  set_bgRef (on_media (set_currentTime zero) (bgRef s')) s'
              | None => s
              end in
    let s2 := match muRef s1 with
              | Some _ =>
                  let s' := pauseMu s1 in
                  set_muRef (on_media (set_currentTime zero) (muRef s')) s'
              | None => s1
              end in
    setRecTime 0 (setMuProgress zero (setBgProgress zero (setIsPlaying false s2))).

Definition handleGlobalRec (iso : string) (qrOk : bool) (s : studio) : outcome :=
  if isRecording s then Returned (stopRecording s)
  else
    andThen (ensureAudioContext s) (fun s1 =>
    andThen (ensureMiniConnected s1) (fun s2 =>
      let s3 := if isPlaying s
                then setIsPlaying false (pauseMu (pauseBg s2))
                else s2 in
      let s4 := startRecording iso qrOk s3 in
      Returned (setIsPlaying true (playMu (playBg s4))))).

(** ** The browser: time, timers, frames and the recorder's stop event *)

(** A media element that plays under the [loop] attribute for [dt]
    seconds. *)
Definition env_advance (dt : num) (m : media) : media :=
  if paused m then m
  else if isFinite (duration m) && truthy (duration m)
       then set_currentTime (rem (add (currentTime m) dt) (duration m)) m
       else m.

(** [ms] milliseconds pass: the clock moves, a recorder that is recording
    gathers that much media, and unpaused elements play on. *)
Definition env_elapse (ms : Z) (s : studio) : studio :=
  let s1 := set_env (set_clock (clock (env s) + ms) (env s)) s in
  let s2 := match recorderRef s1 with
            | Some r =>
                match rstate r with
                | rs_recording =>
                    set_recorderRef
                      (Some (mkRec rs_recording (gathered r + ms) (stopQueued r))) s1
                | _ => s1
                end
            | None => s1
            end in
  let dt := ratio ms 1000 in
  let s3 := set_bgRef (on_media (env_advance dt) (bgRef s2)) s2 in
  set_muRef (on_media (env_advance dt) (muRef s3)) s3.

Definition run_callback (cb : callback) (s : studio) : studio :=
  match cb with
  | cb_tick => recTick s
  | cb_deadline => recDeadline s
  end.

(** The timer that fires next among those whose callback the browser still
    runs ([alive]): the earliest due, the oldest among equals. *)
Fixpoint earliest (alive : callback -> bool) (l : list (Z * timer))
  : option (Z * timer) :=
  match l with
  | [] => None
  | (i, t) :: r =>
      if alive (handler t) then
        match earliest alive r with
        | Some (j, u) => if due u <? due t then Some (j, u) else Some (i, t)
        | None => Some (i, t)
        end
      else earliest alive r
  end.

Definition rearm (i : Z) (p : Z) (e : Z * timer) : Z * timer :=
  if e.1 =? i
  then (e.1, mkTimer (due e.2 + p) (period e.2) (handler e.2))
  else e.

(** Timer [i] fires: time passes until it is due, an interval is armed
    again and a timeout is forgotten, then the callback runs. *)
Definition env_fire (i : Z) (t : timer) (s : studio) : studio :=
  let s1 := env_elapse (Z.max 0 (due t - clock (env s))) s in
  let s2 := match period t with
            | Some p =>
                set_env (set_timers (rearm i p <$> timers (env s1)) (env s1)) s1
            | None => remove_timer i s1
            end in
  run_callback (handler t) s2.

(** The queued [stop] event of the recorder is dispatched: first
    [dataavailable] with what was gathered ([sz] bytes), then [stop]. *)
Definition env_stop_event (sz : Z) (s : studio) : studio :=
  match recorderRef s with
  | Some r =>
      if stopQueued r then
        let s1 := set_recorderRef (Some (mkRec (rstate r) (gathered r) false)) s in
        onstop (ondataavailable (Some (mkChunk sz (gathered r))) s1)
      else s
  | None => s
  end.

(** The display refreshes: a requested frame callback runs. *)
Definition env_frame (s : studio) : studio :=
  match frameRequested (env s) with
  | Some _ => draw (set_env (set_frameRequested None (env s)) s)
  | None => s
  end.

(** React commits a render: the mini player's [<video>] exists exactly
    while [muSrc] is set; a new element starts at position 0, without a
    duration, at full volume and paused. *)
Definition env_commit (s : studio) : studio :=
  if src_truthy (muSrc s) then
    match muRef s with
    | Some _ => s
    | None => set_muRef (Some (mkMedia zero NaN one true)) s
    end
  else set_muRef None s.

(** An element has loaded the metadata of its source: its duration is
    known and it stands at the start. *)
Definition env_loadedmetadata (dur : num) (m : media) : media :=
  set_duration dur (set_currentTime zero m).

(** The browser left alone for [fuel] turns of its event loop: a queued
    stop event is dispatched, otherwise the next timer fires. *)
Fixpoint env_run (alive : callback -> bool) (sz : Z) (fuel : nat) (s : studio)
  : studio :=
  match fuel with
  | O => s
  | S n =>
      match recorderRef s with
      | Some (mkRec _ _ true) => env_run alive sz n (env_stop_event sz s)
      | _ =>
          match earliest alive (timers (env s)) with
          | Some (i, t) => env_run alive sz n (env_fire i t s)
          | None => s
          end
      end
  end.

(** ** Events of the component *)

Inductive event : Type :=
| BgTimeUpdate
| MuTimeUpdate
| BgTimelineChange (value : num)
| MuTimelineChange (value : num)
| ToggleGlue
| UploadNature (file : option File)
| UploadMusic (file : option File)
| ApplyPreset (name : string)
| SetGain (g : stage) (value : num)
| GlobalPlayPause
| GlobalStop
| GlobalRec (iso : string) (qrOk : bool)
| StopRecording
| TimerFires (i : Z)
| StopEvent (sz : Z)
| Frame
| Elapse (ms : Z)
| Commit
| BgLoadedMetadata (dur : num)
| MuLoadedMetadata (dur : num).

(** One event; a handler that throws leaves the state it had reached. *)
Definition step (s : studio) (e : event) : studio :=
  match e with
  | BgTimeUpdate => handleBgTimeUpdate s
  | MuTimeUpdate => handleMuTimeUpdate s
  | BgTimelineChange x => handleBgTimelineChange x s
  | MuTimelineChange x => handleMuTimelineChange x s
  | ToggleGlue => toggleGlue s
  | UploadNature f => handleUploadNature f s
  | UploadMusic f => handleUploadMusic f s
  | ApplyPreset n => applyPreset n s
  | SetGain g x => setGain g x s
  | GlobalPlayPause => state_of (handleGlobalPlayPause s)
  | GlobalStop => handleGlobalStop s
  | GlobalRec iso ok => state_of (handleGlobalRec iso ok s)
  | StopRecording => stopRecording s
  | TimerFires i =>
      match List.find (fun e => e.1 =? i) (timers (env s)) with
      | Some (_, t) => env_fire i t s
      | None => s
      end
  | StopEvent sz => env_stop_event sz s
  | Frame => env_frame s
  | Elapse ms => if 0 <=? ms then env_elapse ms s else s
  | Commit => env_commit s
  | BgLoadedMetadata d => set_bgRef (on_media (env_loadedmetadata d) (bgRef s)) s
  | MuLoadedMetadata d => set_muRef (on_media (env_loadedmetadata d) (muRef s)) s
  end.

Definition run_events (s : studio) (l : list event) : studio := foldl step s l.

(** ** Concrete states *)

Definition fresh_media : media := mkMedia zero NaN one true.

Definition fresh_browser : browser :=
  mkBrowser 0 [] 1 1 None 0 true [].

(** The component after its first render and its mount effects. *)
Definition initial : studio :=
  volumeEffect
    (mkStudio menu_none (Some fresh_media) None None None false
       false zero None None false zero zero
       (ratio 7 10) (ratio 3 10) (ratio 4 10)
       None None None None None None
       None [] None None false 0 false None None None false None
       false None None None fresh_browser).


(** Both tracks loaded and playing from their start: BIG lasts [bigDuration]
    seconds and SMALL [smallDuration] seconds. *)
Definition both_playing (bigDuration smallDuration : num) : studio :=
  let s1 := set_bgRef (Some (mkMedia zero bigDuration one false)) initial in
  let s2 := set_muRef (Some (mkMedia zero smallDuration one false)) s1 in
  let s3 := setBgSrc (Some "blob:0") (setMuSrc (Some "blob:1") s2) in
  setIsPlaying true s3.

(** Glue enabled with both tracks at their start (offset 0), nine seconds
    and three quarters later: BIG (10 s) has just wrapped from 9.75 to 0 and
    SMALL (7 s), which wrapped earlier, stands at 2.75.  The last positions
    reported were 9.75 and 2.5. *)
Definition at_big_wrap : studio :=
  let s1 := setIsGlued true (both_playing (ratio 10 1) (ratio 7 1)) in
  let s2 := set_bgRef (Some (mkMedia zero (ratio 10 1) one false)) s1 in
  let s3 := set_muRef (Some (mkMedia (ratio 11 4) (ratio 7 1) one false)) s2 in
  set_prevMuTimeRef (Some (ratio 5 2)) (set_prevBgTimeRef (Some (ratio 39 4)) s3).


(** The browser reports the positions of both tracks every quarter of a
    second. *)
Definition quarter : list event := [Elapse 250; BgTimeUpdate; MuTimeUpdate].

Fixpoint quarters (n : nat) : list event :=
  match n with
  | O => []
  | S k => quarter ++ quarters k
  end.

(** The distance on the circle of circumference [dur] between two
    positions. *)
Definition circular_distance (a b dur : num) : num :=
  let d := if ltb a b then sub b a else sub a b in
  if ltb (sub dur d) d then sub dur d else d.

(** How far SMALL is from where the captured offset puts it:
    the distance between [wrap(BIG.currentTime + offsetSeconds,
    SMALL.duration)] and [SMALL.currentTime]. *)
Definition glue_error (s : studio) : option num :=
  match bgRef s, muRef s with
  | Some bg, Some mu =>
      Some (circular_distance
              (wrapTime (add (currentTime bg) (glueOffsetSecRef s)) (duration mu))
              (currentTime mu) (duration mu))
  | _, _ => None
  end.

(** ** Vocabulary of the properties *)

(** The audio context has been created. *)
Definition constructed (s : studio) : bool :=
  match audioCtxRef s with Some _ => true | None => false end.

(** Every mounted element plays at full native volume. *)
Definition full_volume (s : studio) : Prop :=
  (forall x, volume <$> bgRef s = Some x -> x = one)
  /\ (forall x, volume <$> muRef s = Some x -> x = one).

(** Every gain node that exists carries the value of its stage. *)
Definition gains_follow (s : studio) : Prop :=
  (forall g, bgGainRef s = Some g -> g = bgVol s)
  /\ (forall g, muGainRef s = Some g -> g = muVol s)
  /\ (forall g, masterGainRef s = Some g -> g = masterVol s).

(** The graph mechanism: the context exists, the elements are at full
    volume and the gains are applied by the nodes. *)
Definition routed (s : studio) : Prop :=
  constructed s = true /\ full_volume s /\ gains_follow s.

(** The direct mechanism: no context, and every mounted element carries
    the product of its stage gain and the master gain. *)
Definition direct (s : studio) : Prop :=
  constructed s = false
  /\ (forall x, volume <$> bgRef s = Some x -> x = mul (bgVol s) (masterVol s))
  /\ (forall x, volume <$> muRef s = Some x -> x = mul (muVol s) (masterVol s)).

(** No gain node has been created. *)
Definition no_nodes (s : studio) : Prop :=
  bgGainRef s = None /\ muGainRef s = None /\ masterGainRef s = None.

(** The two mechanisms exclude each other: without a context there is no
    gain node, with a context the graph mechanism is in place. *)
Definition audio_ok (s : studio) : Prop :=
  if constructed s then routed s else no_nodes s.


(** What the audio properties read of a state. *)
Definition audio_view (s : studio) :=
  (constructed s, volume <$> bgRef s, volume <$> muRef s,
   bgGainRef s, muGainRef s, masterGainRef s, bgVol s, muVol s, masterVol s).

(** What a recording session holds and must give back exactly once. *)
Inductive resource : Type := render_loop | audio_tap | stream_tracks | encoder.

#[global] Instance resource_eq_dec : EqDecision resource.
Proof. solve_decision. Defined.

(** Whether a browser call releases [r] (for the encoder: whether it
    requests to finalize). *)
Definition releases (r : resource) (c : call) : bool :=
  match c, r with
  | CancelAnimationFrame _, render_loop => true
  | DisconnectTap, audio_tap => true
  | StopStreamTracks, stream_tracks => true
  | RecorderStop, encoder => true
  | _, _ => false
  end.

(** How often [r] has been released so far. *)
Definition released (r : resource) (s : studio) : nat :=
  length (List.filter (releases r) (calls (env s))).

Definition recording (s : studio) : bool :=
  match recorderRef s with
  | Some r => match rstate r with rs_recording => true | _ => false end
  | None => false
  end.

Definition some {A} (o : option A) : bool :=
  match o with Some _ => true | None => false end.

(** Whether the component still holds [r]. *)
Definition held (r : resource) (s : studio) : bool :=
  match r with
  | render_loop => some (drawRafRef s)
  | audio_tap => some (recordAudioDestRef s)
  | stream_tracks => some (recordOutStreamRef s)
  | encoder => recording s
  end.

(** The frame the browser has pending is the one the component knows. *)
Definition frames_ok (s : studio) : Prop :=
  frameRequested (env s) = None \/ frameRequested (env s) = drawRafRef s.

(** What the release properties read of a state. *)
Definition rec_view (s : studio) :=
  (released render_loop s, released audio_tap s, released stream_tracks s,
   released encoder s, drawRafRef s, recordAudioDestRef s,
   recordOutStreamRef s, recording s, frameRequested (env s)).

(** Events that do not start a recording session. *)
Definition no_start (e : event) : bool :=
  match e with GlobalRec _ _ => false | _ => true end.

(** The three parts of [stopRecording]: the stop triggers, the tracks, the
    encoder. *)
Definition cancel_triggers (s : studio) : studio :=
  let s1 := match id_truthy (recIntervalRef s) with
            | Some i => set_recIntervalRef None (clearInterval i s)
            | None => s
            end in
  match id_truthy (recordTimerRef s1) with
  | Some i => set_recordTimerRef None (clearTimeout i s1)
  | None => s1
  end.

Definition pause_tracks (s : studio) : studio :=
  setIsPlaying false (pauseMu (pauseBg s)).

Definition finalize_or_clear (s : studio) : studio :=
  match recorderRef s with
  | Some rec =>
      match rstate rec with
      | rs_recording => recorder_stop rec s
      | _ => setIsRecording false s
      end
  | None => setIsRecording false s
  end.

(** The ids of the timers the browser still runs. *)
Definition timer_ids (s : studio) : list Z := (timers (env s)).*1.

(** Both stop triggers are cancelled: the refs are cleared and the timers
    they named are gone. *)
Definition triggers_cancelled (s s' : studio) : Prop :=
  id_truthy (recIntervalRef s') = None
  /\ id_truthy (recordTimerRef s') = None
  /\ forall i,
       id_truthy (recIntervalRef s) = Some i
       \/ id_truthy (recordTimerRef s) = Some i ->
       i ∉ timer_ids s'.

(** Both tracks are paused. *)
Definition tracks_paused (s : studio) : Prop :=
  (forall m, bgRef s = Some m -> paused m = true)
  /\ (forall m, muRef s = Some m -> paused m = true)
  /\ isPlaying s = false.

(** A state with its log of browser calls emptied. *)
Definition forget_calls (s : studio) : studio :=
  set_env (set_calls [] (env s)) s.

(** Releases made so far plus releases still to come. *)
Definition potential (r : resource) (s : studio) : nat :=
  released r s + (if held r s then 1 else 0).

(** From [s] to [s'] nothing is released that was not held. *)
Definition winds_down (s s' : studio) : Prop :=
  frames_ok s ->
  frames_ok s' /\ forall r, (potential r s' <= potential r s)%nat.

(** A recording session right after its start: record pressed on the
    freshly mounted component. *)
Definition just_started : studio :=
  run_events initial [GlobalRec "2024-01-01T00:00:00.000Z" true].

(** A session that has been running for [k] whole seconds since the clock
    showed [c], armed with the interval [n] and the deadline [n + 1] and
    touched by nothing else. *)
Definition ticking (n c k : Z) (s : studio) : Prop :=
  clock (env s) = c + 1000 * k
  /\ timers (env s)
     = [(n, mkTimer (c + 1000 * (k + 1)) (Some 1000) cb_tick);
        (n + 1, mkTimer (c + RECORD_LIMIT_SEC * 1000) None cb_deadline)]
  /\ recTime s = k
  /\ recorderRef s = Some (mkRec rs_recording (1000 * k) false)
  /\ recIntervalRef s = Some n
  /\ recordTimerRef s = Some (n + 1)
  /\ recordedChunksRef s = [].

(** The session is over and its result is published: the component is not
    recording, no timer is left, and the pending blob holds at most the
    ceiling of media. *)
Definition delivered (s : studio) : Prop :=
  isRecording s = false
  /\ recorderRef s = None
  /\ timers (env s) = []
  /\ showSavePanel s = true
  /\ exists b, pendingRecordedBlob s = Some b
       /\ 0 <= blob_ms b <= RECORD_LIMIT_SEC * 1000.

(** The encoder has been asked to finalize [g] milliseconds of media and
    its stop event is queued; both triggers are cancelled. *)
Definition stopping (g : Z) (s : studio) : Prop :=
  recorderRef s = Some (mkRec rs_inactive g true)
  /\ timers (env s) = []
  /\ recIntervalRef s = None
  /\ recordTimerRef s = None
  /\ recordedChunksRef s = [].

(** ** A recording session from start to delivery *)

(** What the session properties read of a running session. *)
Definition session_view (s : studio) :=
  (clock (env s), timers (env s), recTime s, recorderRef s, recIntervalRef s,
   recordTimerRef s, recordedChunksRef s).

(** What a finished session leaves behind. *)
Definition outcome_view (s : studio) :=
  (isRecording s, recorderRef s, timers (env s), showSavePanel s,
   pendingRecordedBlob s, recordedChunksRef s, recIntervalRef s,
   recordTimerRef s).

(** The parts of [rec.onstop]: the render loop, the result, the stop
    triggers, the capture. *)
Definition cancel_frame (s : studio) : studio :=
  match id_truthy (drawRafRef s) with
  | Some i => set_drawRafRef None (cancelAnimationFrame i s)
  | None => s
  end.

Definition publish (s1 : studio) : studio :=
  let blob := mkBlob (recordedChunksRef s1) "video/webm" in
  let '(url, s2) := createObjectURL s1 in
  let s3 := setPendingRecordedBlob (Some blob) s2 in
  let s4 := setPendingRecordedUrl (Some url) s3 in
  let s5 := setPendingQrPayload (qrPayloadRef s4) s4 in
  let s6 := setShowSavePanel true s5 in
  let s7 := setIsRecording false s6 in
  let s8 := setRecTime 0 s7 in
  let s9 := set_recorderRef None s8 in
  set_recordedChunksRef [] s9.

Definition release_capture (s12 : studio) : studio :=
  let s13 := match recordAudioDestRef s12, masterGainRef s12 with
             | Some d, Some _ => emit DisconnectTap (disconnect masterGain d s12)
             | _, _ => s12
             end in
  let s14 := set_recordAudioDestRef None s13 in
  let s15 := match recordOutStreamRef s14 with
             | Some _ => emit StopStreamTracks (set_recordOutStreamRef (Some false) s14)
             | None => s14
             end in
  set_recordOutStreamRef None s15.

(** The two parts of [startRecording] once its guards have passed: the
    capture is set up and the encoder started, then the stop triggers are
    armed. *)
Definition begin_capture (iso : string) (qrOk : bool) (s s1 : studio) : studio :=
  let payload :=
    QrPayload.mk "0.1" ("gw-" +:+ pretty (clock (env s1))) iso
      ("GOODWILLS_" +:+ dashed iso)
      (QrPayload.mkVolumes (bgVol s) (muVol s) (masterVol s)) in
  let s2 := if qrOk
            then set_qrCanvasRef true (set_qrPayloadRef (Some payload) s1)
            else set_qrPayloadRef None (set_qrCanvasRef false s1) in
  let s3 := set_recordAudioDestRef (Some recordDest) s2 in
  let s4 := connect masterGain recordDest s3 in
  let s5 := set_recordOutStreamRef (Some true) s4 in
  let s6 := set_recordedChunksRef [] s5 in
  let s7 := set_recorderRef (Some (mkRec rs_inactive 0 false)) s6 in
  let s8 := draw s7 in
  let s9 := set_recorderRef (Some (mkRec rs_recording 0 false)) s8 in
  let s10 := setIsRecording true s9 in
  setRecTime 0 s10.

Definition arm_triggers (s11 : studio) : studio :=
  let s12 := match id_truthy (recIntervalRef s11) with
             | Some i => clearInterval i s11
             | None => s11
             end in
  let '(i1, s13) := setInterval cb_tick 1000 s12 in
  let s14 := set_recIntervalRef (Some i1) s13 in
  let s15 := match id_truthy (recordTimerRef s14) with
             | Some i => clearTimeout i s14
             | None => s14
             end in
  let '(i2, s16) := setTimeout cb_deadline (RECORD_LIMIT_SEC * 1000) s15 in
  set_recordTimerRef (Some i2) s16.

(** [Math.round] *)
Definition round (n : num) : num :=
  match n with
  | Fin q => Fin (Q2Qc (inject_Z (Qfloor (q + Q2Qc (1 # 2))%Qc)))
  | _ => n
  end.

(** ** Where the QR code is drawn and where the scan looks first *)

(** A rectangle of the canvas: its top-left corner and its size. *)
Record rect : Type := mkRect {
  rx : num;
  ry : num;
  rw : num;
  rh : num;
}.

Open Scope js_scope.

(** The square [draw] paints the QR code into, on a canvas [width] wide:
    [c2d.drawImage(qrC, x0, y0, s, s)]. *)
Definition qr_square (width : num) : rect :=
  let fontPx := round (width * (18 # 1000)) in
  let x0 := 24 # 1 in
  let y0 := (20 # 1) + fontPx + (10 # 1) in
  let s := round (width * (15 # 100)) in
  mkRect x0 y0 s s.

(** The crop [scanGoodwillsQrFromFile] decodes first:
    [ctx.getImageData(0, 0, cropW, cropH)]. *)
Definition first_crop (width height : num) : rect :=
  mkRect zero zero (round (width * (32 # 100))) (round (height * (32 # 100))).

(** [inner] lies within [outer]. *)
Definition within (inner outer : rect) : bool :=
  (rx outer <=? rx inner) && (ry outer <=? ry inner)
  && (rx inner + rw inner <=? rx outer + rw outer)
  && (ry inner + rh inner <=? ry outer + rh outer).

(** A frame of [16 k] by [9 k] pixels. *)
Definition widescreen (k : Z) : num * num :=
  (Fin (Q2Qc (inject_Z (16 * k))), Fin (Q2Qc (inject_Z (9 * k)))).

(** On the frame [widescreen k] the lower edge of the QR code lies below
    the lower edge of the first crop. *)
Definition qr_cut_off (k : Z) : bool :=
  let '(w, h) := widescreen k in
  (ry (first_crop w h) + rh (first_crop w h)
   <? ry (qr_square w) + rh (qr_square w))
  && negb (within (qr_square w) (first_crop w h)).

Close Scope js_scope.

(** ** Provenance codec: the QR payload check, the scan, mint packs *)

(** A value [JSON.parse] can return. *)
Inductive json : Type :=
| JNull
| JBool (b : bool)
| JNum (n : num)
| JStr (s : string)
| JArr (l : list json)
| JObj (m : gmap string json).

(** ToBoolean *)
Definition json_truthy (j : json) : bool :=
  match j with
  | JNull => false
  | JBool b => b
  | JNum n => truthy n
  | JStr s => negb (String.eqb s "")
  | JArr _ | JObj _ => true
  end.

Inductive jstype : Type :=
| ty_undefined | ty_object | ty_boolean | ty_number | ty_string | ty_function.

#[global] Instance jstype_eq_dec : EqDecision jstype.
Proof. solve_decision. Defined.

(** What a property access yields: nothing, a JSON value, or a method
    inherited from a prototype. *)
Inductive member : Type :=
| Undefined
| Value (j : json)
| Method.

(** The property names the component reads from parsed JSON. *)
Inductive key : Type :=
| k_id | k_createdAt | k_volumes | k_big | k_small | k_master.

Definition key_name (k : key) : string :=
  match k with
  | k_id => "id"
  | k_createdAt => "createdAt"
  | k_volumes => "volumes"
  | k_big => "big"
  | k_small => "small"
  | k_master => "master"
  end.

(** [x.k] for one of these names, on a value that is not [null]: an object
    answers with its own property; a string inherits the methods
    [String.prototype.big] and [String.prototype.small]; numbers, booleans
    and arrays have no property of these names. *)
Definition get (x : json) (k : key) : member :=
  match x with
  | JObj m =>
      match m !! key_name k with
      | Some j => Value j
      | None => Undefined
      end
  | JStr _ =>
      match k with
      | k_big | k_small => Method
      | _ => Undefined
      end
  | _ => Undefined
  end.

(** [typeof] *)
Definition typeof (x : member) : jstype :=
  match x with
  | Undefined => ty_undefined
  | Method => ty_function
  | Value JNull | Value (JArr _) | Value (JObj _) => ty_object
  | Value (JBool _) => ty_boolean
  | Value (JNum _) => ty_number
  | Value (JStr _) => ty_string
  end.

Definition member_truthy (x : member) : bool :=
  match x with
  | Undefined => false
  | Value j => json_truthy j
  | Method => true
  end.

(** [x.k] where [x] is itself the result of a property access that has been
    found truthy; a method has no property of these names. *)
Definition get_of (x : member) (k : key) : member :=
  match x with
  | Value j => get j k
  | _ => Undefined
  end.

(** The conjunction inside [isGoodwillsQRPayload], on the parsed value.
    [&&] evaluates from the left and stops at the first falsy operand, so
    no property of [null] or [undefined] is ever read. *)
Definition payload_shape (obj : json) : bool :=
  if negb (json_truthy obj) then false
  else if negb (bool_decide (typeof (Value obj) = ty_object)) then false
  else if negb (bool_decide (typeof (get obj k_id) = ty_string)) then false
  else if negb (match get obj k_id with
                | Value (JStr i) => String.prefix "gw-" i
                | _ => false
                end) then false
  else if negb (bool_decide (typeof (get obj k_createdAt) = ty_string)) then false
  else if negb (member_truthy (get obj k_volumes)) then false
  else if negb (bool_decide
                  (typeof (get_of (get obj k_volumes) k_big) = ty_number))
       then false
  else if negb (bool_decide
                  (typeof (get_of (get obj k_volumes) k_small) = ty_number))
       then false
  else bool_decide (typeof (get_of (get obj k_volumes) k_master) = ty_number).

(** How an asynchronous function ends. *)
Inductive result (A : Type) : Type :=
| Ok (a : A)
| Err (message : string).
Arguments Ok {A} a.
Arguments Err {A} message.


(** Calls on [URL] the helpers make. *)
Inductive url_call : Type :=
| CreateObjectURL (url : string)
| RevokeObjectURL (url : string).

(** What the scan finds in a file: whether its metadata loads
    ([loadedmetadata]) or fails to ([error]), whether a 2d context can be
    had, the size of the frame and the duration, whether the seek to a
    position completes ([seeked] is dispatched), and the text [jsQR]
    decodes from the top-left crop and from the full frame at each position
    ([None]: no code). *)
Record probe : Type := mkProbe {
  loads : bool;
  context2d : bool;
  vwidth : N;
  vheight : N;
  vduration : num;
  seeks : num -> bool;
  crop_code : num -> option string;
  full_code : num -> option string;
}.

(** [canvas.width] and [canvas.height] of the scan:
    [v.videoWidth || 1280] and [v.videoHeight || 720]. *)
Definition dimension (n dflt : N) : num :=
  Fin (Q2Qc (inject_Z (Z.of_N (if (n =? 0)%N then dflt else n)))).

Definition scan_canvas (p : probe) : num * num :=
  (dimension (vwidth p) 1280, dimension (vheight p) 720).

(** The crop the scan asks for has no pixel: [getImageData] throws an
    [IndexSizeError] when its width or its height is 0. *)
Definition crop_empty (p : probe) : bool :=
  let c := first_crop (scan_canvas p).1 (scan_canvas p).2 in
  eqb (rw c) zero || eqb (rh c) zero.

Inductive scan_result : Type :=
| scan_found (payloadText : string) (payload : json)
| scan_none.

(** A pack file: its name and, if it can be read and JSZip can load it,
    the text of its entries by name ([None]: [JSZip.loadAsync] rejects,
    with whatever message). *)
Record PackFile : Type := mkPackFile {
  packName : string;
  entries : option (gmap string string);
}.

Record MintPack : Type := mkMintPack {
  fileName : string;
  data : json;
  videoBlob : option string;
}.

Section codec.

(** [JSON.parse]; [None] stands for the [SyntaxError] it throws. *)
Variable JSON_parse : string -> option json.

(** The truth value of what [isGoodwillsQRPayload] returns. *)
Definition isGoodwillsQRPayload (txt : string) : bool :=
  match JSON_parse txt with
  | Some obj => payload_shape obj
  | None => false
  end.

Definition sample_times : list num :=
  [ratio 15 100; ratio 35 100; ratio 6 10; ratio 9 10; ratio 12 10;
   ratio 16 10; ratio 2 1].

(** [times]: the samples before the end of the video. *)
Definition times (d : num) : list num :=
  List.filter (fun t => ltb t (if truthy d then d else ratio 9999 1))
    sample_times.

(** [{ ok: true, payloadText, payload: JSON.parse(text) }] *)
Definition found (text : string) : result scan_result :=
  match JSON_parse text with
  | Some payload => Ok (scan_found text payload)
  | None => Err "SyntaxError"
  end.

(** [code?.data && isGoodwillsQRPayload(code.data)] *)
Definition accepted (code : option string) : bool :=
  match code with
  | Some d => negb (String.eqb d "") && isGoodwillsQRPayload d
  | None => false
  end.

(** [if (code?.data && isGoodwillsQRPayload(code.data)) return ...];
    [otherwise] is how the rest of the function ends, [None] if it never
    does. *)
Definition try_code (code : option string)
    (otherwise : option (result scan_result))
  : option (result scan_result) :=
  match code with
  | Some d =>
      if negb (String.eqb d "") && isGoodwillsQRPayload d then Some (found d)
      else otherwise
  | None => otherwise
  end.

(** The loop over the samples.  At each position the function waits for
    the seek to complete; if it never does, neither does the function.
    Then the crop is read and tried first, then the full frame. *)
Fixpoint scan_frames (p : probe) (ts : list num)
  : option (result scan_result) :=
  match ts with
  | [] => Some (Ok scan_none)
  | t :: rest =>
      if negb (seeks p t) then None
      else if crop_empty p then Some (Err "IndexSizeError")
      else
        try_code (crop_code p t)
          (try_code (full_code p t) (scan_frames p rest))
  end.

(** The decoded texts in the order the loop looks at them. *)
Definition candidates (p : probe) : list (option string) :=
  flat_map (fun t => [crop_code p t; full_code p t]) (times (vduration p)).

(** [scanGoodwillsQrFromFile]: the calls on [URL] it makes and how it
    ends, [None] if it never does.  [url] is the object URL the browser
    hands out.  The [finally] block runs when the body has ended. *)
Definition scanGoodwillsQrFromFile (url : string) (p : probe)
  : list url_call * option (result scan_result) :=
  let body :=
    if negb (loads p) then Some (Err "Video load error")
    else if negb (context2d p) then Some (Ok scan_none)
    else scan_frames p (times (vduration p)) in
  (CreateObjectURL url
   :: match body with
      | Some _ => [RevokeObjectURL url]   (* finally *)
      | None => []
      end,
   body).

Definition readMintPackFile (file : PackFile) : result MintPack :=
  match entries file with
  | None => Err "JSZip.loadAsync"
  | Some zip =>
      match zip !! "mint.json" with
      | None => Err "mint.json not found"
      | Some mintText =>
          match JSON_parse mintText with
          | None => Err "SyntaxError"
          | Some d => Ok (mkMintPack (packName file) d (zip !! "video.webm"))
          end
      end
  end.

End codec.

(** The value [JSON.stringify] writes for a number: a number that is not
    finite is written as [null]. *)
Definition json_of_num (n : num) : json :=
  if isFinite n then JNum n else JNull.

(** The QR payload as [JSON.stringify] writes it. *)
Definition json_of_payload (p : QrPayload) : json :=
  JObj
    (<["v" := JStr (QrPayload.v p)]>
     (<["id" := JStr (QrPayload.id p)]>
      (<["createdAt" := JStr (QrPayload.createdAt p)]>
       (<["title" := JStr (QrPayload.title p)]>
        (<["volumes" :=
             JObj
               (<["big" := json_of_num (QrPayload.big (QrPayload.vols p))]>
                (<["small" := json_of_num (QrPayload.small (QrPayload.vols p))]>
                 (<["master" := json_of_num (QrPayload.master (QrPayload.vols p))]>
                  ∅)))]> ∅))))).

(** ** Digest helper *)

(** The digit of [n] in base 16, as [Number.prototype.toString] writes
    it. *)
Definition hex_digit (n : N) : ascii :=
  match String.get (N.to_nat n) "0123456789abcdef" with
  | Some c => c
  | None => "0"%char
  end.

Fixpoint toString16_from (fuel : nat) (n : N) (acc : string) : string :=
  match fuel with
  | O => acc
  | S f =>
      let acc' := String (hex_digit (n mod 16)) acc in
      if (n / 16 =? 0)%N then acc' else toString16_from f (n / 16) acc'
  end.

(** [n.toString(16)] for a non-negative integer. *)
Definition toString16 (n : N) : string :=
  toString16_from (S (N.to_nat (N.log2 n))) n "".

Fixpoint replicate_char (n : nat) (c : ascii) : string :=
  match n with
  | O => ""
  | S k => String c (replicate_char k c)
  end.

(** [s.padStart(targetLength, c)] with a fill string of one character. *)
Definition padStart (s : string) (targetLength : nat) (c : ascii) : string :=
  replicate_char (targetLength - String.length s) c +:+ s.

(** [hexFromBuffer]: the bytes of the buffer, two digits each. *)
Definition hexFromBuffer (buf : list Byte.byte) : string :=
  String.concat ""
    (List.map (fun b => padStart (toString16 (Byte.to_N b)) 2 "0") buf).

(** Reading hexadecimal text back, two digits a byte. *)
Definition hex_value (c : ascii) : option N :=
  (fix find (i : N) (digits : string) : option N :=
     match digits with
     | EmptyString => None
     | String d rest => if Ascii.eqb c d then Some i else find (N.succ i) rest
     end) 0%N "0123456789abcdef".

Fixpoint unhex (s : string) : option (list Byte.byte) :=
  match s with
  | EmptyString => Some []
  | String a (String b rest) =>
      match hex_value a, hex_value b, unhex rest with
      | Some x, Some y, Some bytes =>
          match Byte.of_N (16 * x + y) with
          | Some byte => Some (byte :: bytes)
          | None => None
          end
      | _, _, _ => None
      end
  | String _ EmptyString => None
  end.

(** ** The buttons of the big and of the mini player *)

Open Scope js_scope.

Definition handleBgPlayPause (s : studio) : outcome :=
  if isRecording s then Returned s
  else
    andThen (ensureAudioContext s) (fun s1 =>
    andThen (ensureMiniConnected s1) (fun s2 =>
      match bgRef s2 with
      | None => Returned s2
      | Some v =>
          if paused v then Returned (setIsPlaying true (playBg s2))
          else Returned (setIsPlaying false (pauseBg s2))
      end)).

Definition handleMuPlayPause (s : studio) : outcome :=
  if isRecording s then Returned s
  else
    andThen (ensureAudioContext s) (fun s1 =>
    andThen (ensureMiniConnected s1) (fun s2 =>
      match muRef s2 with
      | None => Returned s2
      | Some v =>
          if paused v then Returned (setIsPlaying true (playMu s2))
          else Returned (setIsPlaying false (pauseMu s2))
      end)).

(** Where a track stands and whether it plays. *)
Definition transport (m : option media) : option (num * num * bool) :=
  (fun x => (currentTime x, duration x, paused x)) <$> m.

Close Scope js_scope.

(** ** My rituals and the mint flow *)

(** A picked WebM file. *)
Record WebmFile : Type := mkWebm {
  webmName : string;
  webmSize : N;
  webmContent : string;
}.

(** A file the browser has downloaded: its name and, for a pack, what the
    archive holds. *)
Record download : Type := mkDownload {
  downloadName : string;
  downloadEntries : gmap string string;
}.

(** The messages the dialogs show with [alert]. *)
Inductive alert : Type :=
| NotAGoodwillsFile
| SelectAFileFirst
| MintPackCreated
| MintFailed.

(** The state of the two dialogs, with what the browser keeps for them:
    the object URLs that are alive, the counter behind fresh URLs, the
    alerts shown and the files downloaded. *)
Record library : Type := mkLibrary {
  (* My rituals (.mint packs) *)
  showMyRituals : bool;
  packs : list MintPack;
  selectedPack : option MintPack;
  selectedPackVideoUrl : option string;
  (* Mint flow (from saved WebM file) *)
  showMintModal : bool;
  mintFile : option WebmFile;
  mintPreviewUrl : option string;
  mintDuration : num;
  mintQrPayload : option json;
  mintQrText : option string;
  mood : string;
  intention : string;
  (* the browser *)
  liveUrls : gset string;
  urlCounter : N;
  alerts : list alert;
  downloads : list download;
}.

Definition lib_eta (a : library) : library :=
  mkLibrary (showMyRituals a) (packs a) (selectedPack a)
    (selectedPackVideoUrl a) (showMintModal a) (mintFile a)
    (mintPreviewUrl a) (mintDuration a) (mintQrPayload a) (mintQrText a)
    (mood a) (intention a) (liveUrls a) (urlCounter a) (alerts a)
    (downloads a).

Definition setShowMyRituals : bool -> library -> library :=
  ltac:(field_update lib_eta showMyRituals).
Definition setPacks : list MintPack -> library -> library :=
  ltac:(field_update lib_eta packs).
Definition setSelectedPack : option MintPack -> library -> library :=
  ltac:(field_update lib_eta selectedPack).
Definition setSelectedPackVideoUrl : option string -> library -> library :=
  ltac:(field_update lib_eta selectedPackVideoUrl).
Definition setShowMintModal : bool -> library -> library :=
  ltac:(field_update lib_eta showMintModal).
Definition setMintFile : option WebmFile -> library -> library :=
  ltac:(field_update lib_eta mintFile).
Definition setMintPreviewUrl : option string -> library -> library :=
  ltac:(field_update lib_eta mintPreviewUrl).
Definition setMintDuration : num -> library -> library :=
  ltac:(field_update lib_eta mintDuration).
Definition setMintQrPayload : option json -> library -> library :=
  ltac:(field_update lib_eta mintQrPayload).
Definition setMintQrText : option string -> library -> library :=
  ltac:(field_update lib_eta mintQrText).
Definition setMood : string -> library -> library :=
  ltac:(field_update lib_eta mood).
Definition setIntention : string -> library -> library :=
  ltac:(field_update lib_eta intention).
Definition set_liveUrls : gset string -> library -> library :=
  ltac:(field_update lib_eta liveUrls).
Definition set_urlCounter : N -> library -> library :=
  ltac:(field_update lib_eta urlCounter).
Definition set_alerts : list alert -> library -> library :=
  ltac:(field_update lib_eta alerts).
Definition set_downloads : list download -> library -> library :=
  ltac:(field_update lib_eta downloads).

(** [URL.createObjectURL] and [URL.revokeObjectURL] *)
Definition url_of (n : N) : string := "blob:" +:+ pretty n.

Definition newObjectURL (a : library) : string * library :=
  (url_of (urlCounter a),
   set_urlCounter (N.succ (urlCounter a))
     (set_liveUrls ({[url_of (urlCounter a)]} ∪ liveUrls a) a)).

Definition revokeObjectURL (u : string) (a : library) : library :=
  set_liveUrls (liveUrls a ∖ {[u]}) a.

(** [if (url) URL.revokeObjectURL(url)] *)
Definition revoke_if_set (url : option string) (a : library) : library :=
  match url with
  | Some u => if negb (String.eqb u "") then revokeObjectURL u a else a
  | None => a
  end.

Definition show_alert (m : alert) (a : library) : library :=
  set_alerts (m :: alerts a) a.

(** *** My rituals *)

Definition openMyRituals (a : library) : library :=
  setShowMyRituals true (setSelectedPack None a).

Definition closeMyRituals (a : library) : library :=
  let a1 := setSelectedPack None (setShowMyRituals false a) in
  let a2 := revoke_if_set (selectedPackVideoUrl a) a1 in
  setSelectedPackVideoUrl None a2.

Definition openPack (p : MintPack) (a : library) : library :=
  let a1 := setSelectedPack (Some p) a in
  let a2 := if src_truthy (selectedPackVideoUrl a)
            then setSelectedPackVideoUrl None
                   (revoke_if_set (selectedPackVideoUrl a) a1)
            else a1 in
  match videoBlob p with
  | Some _ =>
      let '(u, a3) := newObjectURL a2 in
      setSelectedPackVideoUrl (Some u) a3
  | None => a2
  end.

(** The Back button of an opened pack. *)
Definition backFromPack (a : library) : library :=
  let a1 := setSelectedPack None a in
  let a2 := revoke_if_set (selectedPackVideoUrl a) a1 in
  setSelectedPackVideoUrl None a2.

(** *** Mint flow *)

(** [x ?? dflt] on the result of a property access. *)
Definition member_or (x : member) (dflt : json) : json :=
  match x with
  | Value JNull | Undefined | Method => dflt
  | Value j => j
  end.

(** [onLoadedMetadata] of the preview. *)
Definition mintLoadedMetadata (d : num) (a : library) : library :=
  if isFinite d then setMintDuration (round d) a else a.

Definition closeMintModal (a : library) : library :=
  let a1 := setMintFile None (setShowMintModal false a) in
  let a2 := revoke_if_set (mintPreviewUrl a) a1 in
  setMintQrText None
    (setMintQrPayload None (setMintDuration zero (setMintPreviewUrl None a2))).

(** [closeMintModal] called by a handler that belongs to the render
    [render]: the URL it revokes is the [mintPreviewUrl] of that render,
    which need not be the one the dialog shows by now. *)
Definition closeMintModal_from (render a : library) : library :=
  let a1 := setMintFile None (setShowMintModal false a) in
  let a2 := revoke_if_set (mintPreviewUrl render) a1 in
  setMintQrText None
    (setMintQrPayload None (setMintDuration zero (setMintPreviewUrl None a2))).

Definition handleGlobalMint (s : studio) (a : library) : studio * library :=
  if isRecording s then (stopRecording s, a)
  else
    let a1 := setMintFile None (setMood "calm" (setIntention "" a)) in
    let a2 := revoke_if_set (mintPreviewUrl a) a1 in
    (s, setMintQrText None
          (setMintQrPayload None
             (setMintDuration zero (setMintPreviewUrl None a2)))).

Section mint.

Variable JSON_parse : string -> option json.
(** [JSON.stringify(value, null, 2)] *)
Variable JSON_stringify : json -> string.
(** What a number looks like in a template literal. *)
Variable Number_toString : num -> string.

(** The string a template literal makes of a value. *)
Fixpoint ToString (j : json) : string :=
  match j with
  | JNull => "null"
  | JBool true => "true"
  | JBool false => "false"
  | JNum n => Number_toString n
  | JStr s => s
  | JArr l =>
      String.concat ","
        (List.map (fun x => match x with JNull => "" | _ => ToString x end) l)
  | JObj _ => "[object Object]"
  end.

(** [handleMintFilePicked] when nothing else happens while it waits for
    the scan; the scan runs on what [p] says of the file.  When the scan
    throws, so does the handler, after the scan has revoked its URL; when
    the scan never ends, the handler stays where it called it. *)
Definition handleMintFilePicked (file : option (WebmFile * probe))
    (s : studio) (a : library) : studio * library :=
  match file with
  | None => (s, a)
  | Some (f, p) =>
      let '(u, a1) := newObjectURL a in
      let a2 := revokeObjectURL u a1 in
      match (scanGoodwillsQrFromFile JSON_parse u p).2 with
      | None => (s, a1)
      | Some (Err _) => (s, a2)
      | Some (Ok scan_none) => (s, show_alert NotAGoodwillsFile a2)
      | Some (Ok (scan_found payloadText payload)) =>
          let a3 := revoke_if_set (mintPreviewUrl a) a2 in
          let '(url, a4) := newObjectURL a3 in
          let a5 := setMintFile (Some f) a4 in
          let a6 := setMintPreviewUrl (Some url) a5 in
          let a7 := setMintDuration zero a6 in
          let a8 := setShowMintModal true a7 in
          (setActiveMenu menu_none s,
           setMintQrPayload (Some payload) (setMintQrText (Some payloadText) a8))
      end
  end.

(** [mintObj] as [JSON.stringify] sees it.  [now] is [Date.now()], [iso]
    is [new Date().toISOString()] and [sha] the digest in hexadecimal, or
    the empty string when it could not be computed. *)
Definition sourceId (now : Z) (a : library) : json :=
  match mintQrPayload a with
  | Some payload => member_or (get payload k_id) (JStr ("gw-" +:+ pretty now))
  | None => JStr ("gw-" +:+ pretty now)
  end.

Definition mintObj (now : Z) (iso sha : string) (f : WebmFile) (a : library)
  : json :=
  let createdAt :=
    match mintQrPayload a with
    | Some payload => member_or (get payload k_createdAt) (JStr iso)
    | None => JStr iso
    end in
  let duration := json_of_num (or0 (mintDuration a)) in
  JObj
    (<["signature" := JStr "GOODWILLS.MINT"]>
     (<["v" := JStr "0.2"]>
      (<["id" := sourceId now a]>
       (<["createdAt" := createdAt]>
        (<["mood" := JStr (mood a)]>
         (<["intention" :=
              if negb (String.eqb (intention a) "") then JStr (intention a)
              else JNull]>
          (<["duration" := duration]>
           (<["volumes" :=
                match mintQrPayload a with
                | Some payload => member_or (get payload k_volumes) JNull
                | None => JNull
                end]>
            (<["qr" :=
                 match mintQrText a with
                 | Some t => JStr t
                 | None => JNull
                 end]>
             (<["source" :=
                  JObj
                    (<["webmFileName" := JStr (webmName f)]>
                     (<["webmSize" :=
                          JNum (Fin (Q2Qc (inject_Z (Z.of_N (webmSize f)))))]>
                      (<["webmDuration" := duration]>
                       (<["sha256" := JStr sha]> ∅))))]> ∅)))))))))).

(** [handleMintConfirm] when nothing else happens while it waits for the
    digest and for the archive; [zipOk] tells whether JSZip could build
    the archive. *)
Definition handleMintConfirm (now : Z) (iso sha : string) (zipOk : bool)
    (a : library) : library :=
  match mintFile a with
  | None => show_alert SelectAFileFirst a
  | Some f =>
      if zipOk then
        let zip :=
          <["video.webm" := webmContent f]>
            (<["mint.json" := JSON_stringify (mintObj now iso sha f a)]> ∅) in
        let '(url, a1) := newObjectURL a in
        let a2 :=
          set_downloads
            (mkDownload (ToString (sourceId now a) +:+ ".mint") zip
             :: downloads a1) a1 in
        let a3 := revokeObjectURL url a2 in
        show_alert MintPackCreated (closeMintModal a3)
      else show_alert MintFailed a
  end.

(** What happens in the two dialogs. *)
Inductive lib_event : Type :=
| OpenMyRituals
| CloseMyRituals
| OpenPack (p : MintPack)
| BackFromPack
| GlobalMint
| MintFilePicked (file : option (WebmFile * probe))
| MintLoadedMetadata (d : num)
| CloseMintModal
| MintConfirm (now : Z) (iso sha : string) (zipOk : bool).

Definition lib_step (sa : studio * library) (e : lib_event)
  : studio * library :=
  let '(s, a) := sa in
  match e with
  | OpenMyRituals => (s, openMyRituals a)
  | CloseMyRituals => (s, closeMyRituals a)
  | OpenPack p => (s, openPack p a)
  | BackFromPack => (s, backFromPack a)
  | GlobalMint => handleGlobalMint s a
  | MintFilePicked file => handleMintFilePicked file s a
  | MintLoadedMetadata d => (s, mintLoadedMetadata d a)
  | CloseMintModal => (s, closeMintModal a)
  | MintConfirm now iso sha zipOk => (s, handleMintConfirm now iso sha zipOk a)
  end.

(** *** Handlers that wait

    [handleMintFilePicked] and [handleMintConfirm] are asynchronous.  Each
    runs up to its first [await] when its event comes and goes on later,
    when what it waits for is there, with the state variables of the render
    it was created in.  In between, the user can act and other handlers
    can run. *)

(** A handler that waits, with what it holds: the file, and the state
    variables of its render.  [handleMintFilePicked] waits for the scan,
    which has made the object URL [u] for itself; [handleMintConfirm] has
    read the clock and waits for the digest and for the archive, which will
    come out as [sha] and [zipOk]. *)
Inductive suspended : Type :=
| PickWaits (f : WebmFile) (p : probe) (u : string) (render : library)
| ConfirmWaits (now : Z) (iso sha : string) (zipOk : bool) (f : WebmFile)
    (render : library).

(** An event arrives: a handler without an [await] runs as a whole, the
    two others up to their first [await]. *)
Definition begin_handler (e : lib_event) (sa : studio * library)
  : (studio * library) * list suspended :=
  let '(s, a) := sa in
  match e with
  | MintFilePicked None => (sa, [])
  | MintFilePicked (Some (f, p)) =>
      let '(u, a1) := newObjectURL a in
      ((s, a1), [PickWaits f p u a])
  | MintConfirm now iso sha zipOk =>
      match mintFile a with
      | None => ((s, show_alert SelectAFileFirst a), [])
      | Some f => (sa, [ConfirmWaits now iso sha zipOk f a])
      end
  | _ => (lib_step sa e, [])
  end.

(** A waiting handler goes on; [None] when what it waits for never
    comes. *)
Definition resume_handler (k : suspended) (sa : studio * library)
  : option (studio * library) :=
  let '(s, a) := sa in
  match k with
  | PickWaits f p u render =>
      match (scanGoodwillsQrFromFile JSON_parse u p).2 with
      | None => None
      | Some r =>
          (* the scan's [finally] *)
          let a2 := revokeObjectURL u a in
          Some
            match r with
            | Err _ => (s, a2)
            | Ok scan_none => (s, show_alert NotAGoodwillsFile a2)
            | Ok (scan_found payloadText payload) =>
                let a3 := revoke_if_set (mintPreviewUrl render) a2 in
                let '(url, a4) := newObjectURL a3 in
                let a5 := setMintFile (Some f) a4 in
                let a6 := setMintPreviewUrl (Some url) a5 in
                let a7 := setMintDuration zero a6 in
                let a8 := setShowMintModal true a7 in
                (setActiveMenu menu_none s,
                 setMintQrPayload (Some payload)
                   (setMintQrText (Some payloadText) a8))
            end
      end
  | ConfirmWaits now iso sha zipOk f render =>
      Some
        (s,
         if zipOk then
           let zip :=
             <["video.webm" := webmContent f]>
               (<["mint.json" :=
                    JSON_stringify (mintObj now iso sha f render)]> ∅) in
           let '(url, a1) := newObjectURL a in
           let a2 :=
             set_downloads
               (mkDownload (ToString (sourceId now render) +:+ ".mint") zip
                :: downloads a1) a1 in
           let a3 := revokeObjectURL url a2 in
           show_alert MintPackCreated (closeMintModal_from render a3)
         else show_alert MintFailed a)
  end.

(** What can happen next: an event, or the [i]-th waiting handler goes
    on. *)
Inductive action : Type :=
| Act (e : lib_event)
| Resume (i : nat).

(** The dialogs with the handlers that wait, oldest first. *)
Definition dialogs : Type := (studio * library) * list suspended.

Definition act (d : dialogs) (x : action) : dialogs :=
  let '(sa, waiting) := d in
  match x with
  | Act e =>
      let '(sa', new) := begin_handler e sa in
      (sa', waiting ++ new)
  | Resume i =>
      match waiting !! i with
      | Some k =>
          match resume_handler k sa with
          | Some sa' => (sa', delete i waiting)
          | None => d
          end
      | None => d
      end
  end.

(** Every handler is left to finish before the next event comes. *)
Definition one_at_a_time (events : list lib_event) : list action :=
  flat_map (fun e => [Act e; Resume 0]) events.

(** The scan of a file ends. *)
Definition settles (p : probe) : bool :=
  match (scanGoodwillsQrFromFile JSON_parse "" p).2 with
  | Some _ => true
  | None => false
  end.

(** The scans of all the files picked in [events] end. *)
Definition scans_settle (events : list lib_event) : Prop :=
  forall f p, MintFilePicked (Some (f, p)) ∈ events -> settles p = true.

End mint.

(** The dialogs of the freshly mounted component. *)
Definition empty_library : library :=
  mkLibrary false [] None None false None None zero None None "calm" ""
    ∅ 0%N [] [].

(** The object URLs the dialogs still show. *)
Definition shown_urls (a : library) : gset string :=
  match selectedPackVideoUrl a with Some u => {[u]} | None => ∅ end
  ∪ match mintPreviewUrl a with Some u => {[u]} | None => ∅ end.

(** Every live object URL is one a dialog shows and every URL a dialog
    shows is alive; besides, all of them came from the counter and the two
    dialogs never show the same one. *)
Definition urls_accounted (a : library) : Prop :=
  liveUrls a = shown_urls a
  /\ (forall u, u ∈ liveUrls a ->
        exists n, (n < urlCounter a)%N /\ u = url_of n)
  /\ (forall u, selectedPackVideoUrl a = Some u ->
        mintPreviewUrl a = Some u -> False).

(** What the accounting reads of a library. *)
Definition url_view (a : library) :=
  (selectedPackVideoUrl a, mintPreviewUrl a, liveUrls a, urlCounter a).

(** What holds of the object URLs whatever the handlers that wait do: every
    URL a dialog shows is alive, every live URL came from the counter, and
    the two dialogs never show the same one. *)
Definition urls_safe (a : library) : Prop :=
  shown_urls a ⊆ liveUrls a
  /\ (forall u, u ∈ liveUrls a ->
        exists n, (n < urlCounter a)%N /\ u = url_of n)
  /\ (forall u, selectedPackVideoUrl a = Some u ->
        mintPreviewUrl a = Some u -> False).

(** The render a waiting handler belongs to. *)
Definition render_of (k : suspended) : library :=
  match k with
  | PickWaits _ _ _ render | ConfirmWaits _ _ _ _ _ render => render
  end.

(** The object URL a waiting handler has made for itself. *)
Definition scan_url (k : suspended) : option string :=
  match k with
  | PickWaits _ _ u _ => Some u
  | ConfirmWaits _ _ _ _ _ _ => None
  end.

(** The URLs the waiting handlers will revoke when they go on (the mint
    preview of their render, and the URL of their scan) came from the
    counter and are not the pack preview; the URL of a scan is not the mint
    preview either. *)
Definition harmless (a : library) (waiting : list suspended) : Prop :=
  forall k, k ∈ waiting ->
    (forall u, mintPreviewUrl (render_of k) = Some u \/ scan_url k = Some u ->
       (exists n, (n < urlCounter a)%N /\ u = url_of n)
       /\ selectedPackVideoUrl a <> Some u)
    /\ (forall u, scan_url k = Some u -> mintPreviewUrl a <> Some u).

(** The books as they are kept while handlers wait. *)
Definition kept (a : library) (waiting : list suspended) : Prop :=
  urls_safe a /\ harmless a waiting.

(** ** Waiting for the first frame *)

(** The promise of [waitForVideoReady] and what it has set up: whether its
    three listeners are on the element, whether its timeout is pending, the
    [done] flag, and the value the promise has settled with. *)
Record waiting : Type := mkWaiting {
  listening : bool;
  timeoutPending : bool;
  finished : bool;
  settled : option bool;
}.

(** What can happen while the promise is pending: one of the events
    [loadedmetadata], [loadeddata], [canplay] on the element, which then
    has the given width and height, or the timeout. *)
Inductive wait_event : Type :=
| MediaEvent (videoWidth videoHeight : N)
| TimeoutFires.

Definition has_frame (videoWidth videoHeight : N) : bool :=
  (0 <? videoWidth)%N && (0 <? videoHeight)%N.

(** [resolve(ok)]: a promise that has settled stays as it is. *)
Definition resolve (ok : bool) (w : waiting) : waiting :=
  match settled w with
  | Some _ => w
  | None => mkWaiting (listening w) (timeoutPending w) (finished w) (Some ok)
  end.

Definition finish (ok : bool) (w : waiting) : waiting :=
  if finished w then w
  else
    let w1 := mkWaiting (listening w) (timeoutPending w) true (settled w) in
    (* cleanup *)
    let w2 := mkWaiting false (timeoutPending w1) (finished w1) (settled w1) in
    resolve ok w2.

(** The executor of the promise. *)
Definition waitForVideoReady (videoWidth videoHeight : N) : waiting :=
  let w := mkWaiting false false false None in
  if has_frame videoWidth videoHeight then resolve true w
  else mkWaiting true true (finished w) (settled w).

Definition wait_step (w : waiting) (e : wait_event) : waiting :=
  match e with
  | MediaEvent vw vh => if listening w then finish (has_frame vw vh) w else w
  | TimeoutFires =>
      if timeoutPending w
      then finish false (mkWaiting (listening w) false (finished w) (settled w))
      else w
  end.

(** Whatever is entered in the mint dialog has passed the scan. *)
Definition verified (JSON_parse : string -> option json) (a : library)
  : Prop :=
  (forall j, mintQrPayload a = Some j ->
     payload_shape j = true
     /\ exists t, mintQrText a = Some t /\ JSON_parse t = Some j)
  /\ (is_Some (mintFile a) -> is_Some (mintQrPayload a)).

(** What [verified] reads of a library. *)
Definition mint_view (a : library) :=
  (mintFile a, mintQrPayload a, mintQrText a).



(** * Properties *)

(** ** Numbers *)

Open Scope js_scope.

(** [a || 0] is [a] for every number but [NaN]. *)
Lemma or0_id (a : num) : a ≠ NaN -> or0 a = a.
Proof.
  destruct a as [q| | |]; try done. intros _.
  unfold or0, truthy, zero, ratio.
  destruct (Qc_eq_bool q 0) eqn:E; [|done].
  apply Qc_eq_bool_correct in E. by subst q.
Qed.

(** ** Glue synchroniser *)

Section glue.

Implicit Types (s : studio) (bg mu : media) (prev : num).



Lemma handleBgTimeUpdate_wrap s bg mu prev :
  bgRef s = Some bg -> muRef s = Some mu ->
  truthy (duration bg) = true -> truthy (duration mu) = true ->
  isGlued s = true -> isPlaying s = true -> isRecording s = false ->
  glueSyncGuardRef s = false -> prevBgTimeRef s = Some prev ->
  (currentTime bg <? prev - wrapThreshold) = true ->
  let next := wrapTime (or0 (currentTime mu)
                        + ((duration bg - prev) + currentTime bg))
                (duration mu) in
  isFinite next = true ->
  muRef (handleBgTimeUpdate s) = Some (set_currentTime next mu).
Proof.
  intros Hbg Hmu Db Dm G P R Gd Pv J next F.
  unfold handleBgTimeUpdate.
  rewrite Hbg, Db, G, P, R. cbn. rewrite Gd, Pv, J, Hmu, Dm.
  unfold assign_currentTime. fold next. by rewrite F.
Qed.


(** [wrapTime] of a finite position is a finite position, whatever the
    duration. *)
Lemma wrapTime_isFinite (t d : num) :
  isFinite t = true -> isFinite (wrapTime t d) = true.
Proof.
  intros Ht. unfold wrapTime.
  destruct (negb (isFinite d) || (d <=? zero)) eqn:E; [done|].
  destruct t as [x| | |]; try done.
  destruct d as [y| | |]; try done. cbn in E.
  unfold rem. destruct (Qc_eq_bool y 0) eqn:Ey.
  - apply Qc_eq_bool_correct in Ey. subst y. by vm_compute in E.
  - by destruct (_ <? _).
Qed.


End glue.


(** Deciding a closed equation by evaluation. *)
Ltac by_evaluation :=
  lazymatch goal with
  | |- ?P => apply (bool_decide_unpack P); vm_compute; exact I
  end.



(** C3.  [toggleGlue] does nothing while SMALL has no source; otherwise it
    flips the flag, and when it turns Glue on (both elements mounted, their
    positions numbers) the offset becomes [SMALL.currentTime -
    BIG.currentTime] whatever offset was stored before; so toggling off and
    on again recaptures the difference of the positions at that moment. *)
Theorem toggleGlue_recaptures (s : studio) :
  (src_truthy (muSrc s) = false -> toggleGlue s = s)
  /\ (src_truthy (muSrc s) = true ->
      isGlued (toggleGlue s) = negb (isGlued s)
      /\ (isGlued s = true ->
          glueOffsetSecRef (toggleGlue s) = glueOffsetSecRef s)
      /\ forall bg mu,
          bgRef s = Some bg -> muRef s = Some mu ->
          currentTime bg ≠ NaN -> currentTime mu ≠ NaN ->
          (isGlued s = false ->
           glueOffsetSecRef (toggleGlue s) = currentTime mu - currentTime bg)
          /\ (isGlued s = true ->
              isGlued (toggleGlue (toggleGlue s)) = true
              /\ glueOffsetSecRef (toggleGlue (toggleGlue s))
                 = currentTime mu - currentTime bg)).
Proof.
  split; [| split; [| split ]].
  - intros H. unfold toggleGlue. by rewrite H.
  - unfold toggleGlue. rewrite H. cbn. by repeat case_match.
  - intros G. unfold toggleGlue. rewrite H, G. by cbn.
  - intros bg mu Hbg Hmu Nb Nm.
    assert (Hon : forall s', muSrc s' = muSrc s -> bgRef s' = Some bg ->
                   muRef s' = Some mu -> isGlued s' = false ->
                   isGlued (toggleGlue s') = true
                   /\ glueOffsetSecRef (toggleGlue s')
                      = currentTime mu - currentTime bg).
    { intros s' E Hb Hm G. unfold toggleGlue. rewrite E, H, G, Hb, Hm. cbn.
      by rewrite !or0_id. }
    split.
    + intros G. by apply Hon.
    + intros G. apply Hon; unfold toggleGlue; rewrite H, G; by cbn.
Qed.

Lemma toggleGlue_recaptures_witness :
  glueOffsetSecRef (toggleGlue (setIsGlued false at_big_wrap)) = (11 # 4).
Proof.
  destruct (toggleGlue_recaptures (setIsGlued false at_big_wrap)) as [_ Hsrc].
  destruct (Hsrc eq_refl) as (_ & _ & Hcap).
  destruct (Hcap (mkMedia zero (10 # 1) one false)
                 (mkMedia (11 # 4) (7 # 1) one false)
                 eq_refl eq_refl ltac:(discriminate) ltac:(discriminate))
    as [Hon _].
  rewrite (Hon eq_refl). by_evaluation.
Defined.

(** C10.  Loading a new source into either track (a picked nature file, a
    picked music file, any preset) leaves Glue disabled, and with Glue
    disabled a scrub of one track does not move the other: the offset
    captured before the load is not applied to the new source. *)
Theorem loading_disables_glue (s : studio) (f : File) (preset : string) :
  let loaded := [handleUploadNature (Some f) s;
                 handleUploadMusic (Some f) s;
                 applyPreset preset s] in
  Forall (fun s' =>
            isGlued s' = false
            /\ forall value,
                 muRef (handleBgTimelineChange value s') = muRef s'
                 /\ bgRef (handleMuTimelineChange value s') = bgRef s')
         loaded.
Proof.
  assert (Hoff : forall s', isGlued s' = false ->
             isGlued s' = false
             /\ forall value,
                  muRef (handleBgTimelineChange value s') = muRef s'
                  /\ bgRef (handleMuTimelineChange value s') = bgRef s').
  { intros s' G. split; [done|]. intros value.
    unfold handleBgTimelineChange, handleMuTimelineChange.
    rewrite G. split; by repeat case_match. }
  cbn zeta.
  apply List.Forall_cons; [by apply Hoff |].
  apply List.Forall_cons; [by apply Hoff |].
  apply List.Forall_cons; [| apply List.Forall_nil].
  apply Hoff. unfold applyPreset; by repeat case_match.
Qed.

(** ** Audio mixing graph *)

(** *** What a handler leaves of the audio state

    Most handlers do not touch what the audio properties read.  The
    tactic [view_of] proves it for one handler: it follows the handler
    statement by statement and forgets the state at each [let]; handlers
    whose statements depend on an earlier test are done by cases. *)

Lemma assign_currentTime_Some t m m' :
  assign_currentTime t m = Some m' -> m' = set_currentTime t m.
Proof. unfold assign_currentTime. destruct (isFinite t); congruence. Qed.

Ltac assigned :=
  repeat match goal with
         | H : assign_currentTime _ _ = Some _ |- _ =>
             apply assign_currentTime_Some in H; subst
         end.

Lemma routed_view s s' : audio_view s' = audio_view s -> routed s -> routed s'.
Proof.
  unfold audio_view, routed, full_volume, gains_follow.
  by intros [= -> -> -> -> -> -> -> -> ->].
Qed.

Lemma volume_env_advance dt m : volume (env_advance dt m) = volume m.
Proof. unfold env_advance. by repeat case_match. Qed.

Create Rewrite HintDb view.

Ltac view_leaf :=
  first
    [ reflexivity
    | repeat lazymatch goal with
             | |- audio_view (?f ?v ?x) = ?r =>
                 lazymatch type of x with
                 | studio => change (audio_view x = r)
                 end
             end;
      progress autorewrite with view; reflexivity
    | unfold pauseBg, pauseMu, playBg, playMu, recorder_stop, connect,
        disconnect, cancelAnimationFrame, clearInterval, clearTimeout,
        remove_timer, emit, on_media;
      repeat (case_match; cbn in * |-);
      unfold audio_view, constructed; cbn;
      repeat match goal with H : _ = _ |- _ => rewrite H end;
      cbn; rewrite ?volume_env_advance; congruence ].

Ltac view_exec :=
  lazymatch goal with
  | |- audio_view (match ?x with _ => _ end) = _ =>
      lazymatch x with
      | context [createObjectURL] => cbv beta iota delta [createObjectURL]
      | context [setInterval] => cbv beta iota delta [setInterval add_timer]
      | context [setTimeout] => cbv beta iota delta [setTimeout add_timer]
      | context [requestAnimationFrame] =>
          cbv beta iota delta [requestAnimationFrame]
      | _ => destruct x eqn:?
      end; view_exec
  | |- audio_view (if ?x then _ else _) = _ => destruct x eqn:?; view_exec
  | |- audio_view (let x := ?X in @?B x) = audio_view ?s =>
      lazymatch type of X with
      | studio =>
          let H := fresh "H" in
          let y := fresh x in
          assert (H : audio_view X = audio_view s);
          [ view_exec
          | generalize dependent X; intros y H;
            change (audio_view (B y) = audio_view s); cbv beta;
            rewrite <- H; clear H; view_exec ]
      | _ => change (audio_view (B X) = audio_view s); cbv beta; view_exec
      end
  | |- _ => view_leaf
  end.

Ltac view_cases :=
  repeat case_match; unfold audio_view, constructed; cbn in *;
  repeat match goal with H : _ = _ |- _ => rewrite H end; cbn; congruence.

Ltac view_of h :=
  intros; first [ cbv beta delta [h]; view_exec | unfold h; view_cases ].

Lemma audio_view_stopRecording s : audio_view (stopRecording s) = audio_view s.
Proof. view_of stopRecording. Qed.
#[local] Hint Rewrite audio_view_stopRecording : view.

Lemma audio_view_onstop s : audio_view (onstop s) = audio_view s.
Proof. view_of onstop. Qed.

Lemma audio_view_handleBgTimeUpdate s :
  audio_view (handleBgTimeUpdate s) = audio_view s.
Proof.
  intros. unfold handleBgTimeUpdate. repeat case_match; assigned; view_cases.
Qed.

Lemma audio_view_handleMuTimeUpdate s :
  audio_view (handleMuTimeUpdate s) = audio_view s.
Proof.
  intros. unfold handleMuTimeUpdate. repeat case_match; assigned; view_cases.
Qed.

Lemma audio_view_handleBgTimelineChange x s :
  audio_view (handleBgTimelineChange x s) = audio_view s.
Proof.
  intros. unfold handleBgTimelineChange. repeat case_match; assigned; view_cases.
Qed.

Lemma audio_view_handleMuTimelineChange x s :
  audio_view (handleMuTimelineChange x s) = audio_view s.
Proof.
  intros. unfold handleMuTimelineChange. repeat case_match; assigned; view_cases.
Qed.

Lemma audio_view_toggleGlue s : audio_view (toggleGlue s) = audio_view s.
Proof. view_of toggleGlue. Qed.

Lemma audio_view_handleUploadNature f s :
  audio_view (handleUploadNature f s) = audio_view s.
Proof. view_of handleUploadNature. Qed.

Lemma audio_view_handleUploadMusic f s :
  audio_view (handleUploadMusic f s) = audio_view s.
Proof. view_of handleUploadMusic. Qed.

Lemma audio_view_applyPreset n s : audio_view (applyPreset n s) = audio_view s.
Proof. view_of applyPreset. Qed.

Lemma audio_view_handleGlobalStop s :
  audio_view (handleGlobalStop s) = audio_view s.
Proof. view_of handleGlobalStop. Qed.

Lemma audio_view_startRecording iso ok s :
  audio_view (startRecording iso ok s) = audio_view s.
Proof. view_of startRecording. Qed.

Lemma audio_view_ondataavailable d s :
  audio_view (ondataavailable d s) = audio_view s.
Proof. view_of ondataavailable. Qed.
#[local] Hint Rewrite audio_view_onstop audio_view_startRecording
  audio_view_ondataavailable : view.

Lemma audio_view_env_stop_event z s :
  audio_view (env_stop_event z s) = audio_view s.
Proof. view_of env_stop_event. Qed.

Lemma audio_view_draw s : audio_view (draw s) = audio_view s.
Proof. view_of draw. Qed.
#[local] Hint Rewrite audio_view_draw : view.

Lemma audio_view_env_frame s : audio_view (env_frame s) = audio_view s.
Proof. view_of env_frame. Qed.

Lemma audio_view_recTick s : audio_view (recTick s) = audio_view s.
Proof. view_of recTick. Qed.

Lemma audio_view_env_elapse ms s : audio_view (env_elapse ms s) = audio_view s.
Proof. view_of env_elapse. Qed.
#[local] Hint Rewrite audio_view_env_elapse audio_view_recTick : view.

Lemma audio_view_env_fire i t s : audio_view (env_fire i t s) = audio_view s.
Proof.
  unfold env_fire, run_callback, recDeadline, remove_timer.
  repeat case_match; autorewrite with view; unfold audio_view, constructed; cbn;
    by change (audio_view (env_elapse (0 `max` (due t - clock (env s))) s)
               = audio_view s); autorewrite with view.
Qed.

Lemma full_volume_commit s : full_volume s -> full_volume (env_commit s).
Proof.
  intros [H1 H2]. unfold env_commit, full_volume.
  destruct (src_truthy (muSrc s)); [destruct (muRef s) eqn:E|]; cbn;
    split; try done; intros x Hx; simplify_eq; try done.
  rewrite E in Hx. by apply H2.
Qed.

Lemma audio_view_loadedmetadata s :
  (forall d, audio_view (set_bgRef (on_media (env_loadedmetadata d) (bgRef s)) s)
             = audio_view s)
  /\ (forall d, audio_view (set_muRef (on_media (env_loadedmetadata d) (muRef s)) s)
                = audio_view s).
Proof.
  unfold audio_view, constructed, on_media.
  split; intros d; cbn; destruct (bgRef s), (muRef s); by cbn.
Qed.

(** *** The two mechanisms *)

Lemma setGain_stage g value s : stageGain g (setGain g value s) = value.
Proof.
  unfold setGain. case_decide as E; [done|].
  unfold volumeEffect. destruct g; repeat case_match; by cbn.
Qed.

Lemma setGain_direct g value s :
  stageGain g s ≠ value -> constructed s = false ->
  direct (setGain g value s).
Proof.
  intros Hne Hc. unfold setGain. rewrite decide_False by done.
  unfold constructed in Hc. destruct (audioCtxRef s) eqn:E; [done|].
  unfold direct, constructed, volumeEffect.
  destruct g; cbn; rewrite E; cbn; rewrite E;
    (split; [done|]); destruct (bgRef s), (muRef s); cbn; split;
    intros; congruence.
Qed.

Lemma volumeEffect_routed g value s :
  routed s ->
  routed (volumeEffect
            match g with
            | stage_big => set_bgVol value s
            | stage_small => set_muVol value s
            | stage_master => set_masterVol value s
            end).
Proof.
  intros (Hc & [Hv1 Hv2] & Hb & Hm & Hma). unfold constructed in Hc.
  destruct (audioCtxRef s) eqn:E; [|done].
  unfold routed, constructed, full_volume, gains_follow, volumeEffect.
  destruct (bgGainRef s) eqn:E1, (muGainRef s) eqn:E2, (masterGainRef s) eqn:E3;
    destruct g; repeat (progress (cbn; rewrite ?E, ?E1, ?E2, ?E3));
    repeat split; try done; intros; simplify_eq; auto.
Qed.

Lemma setGain_routed g value s : routed s -> routed (setGain g value s).
Proof.
  intros H. unfold setGain. case_decide; [done|]. by apply volumeEffect_routed.
Qed.

Lemma ensureAudioContext_routed s :
  constructed s = false -> no_nodes s ->
  routed (state_of (ensureAudioContext s)).
Proof.
  unfold constructed, ensureAudioContext. destruct (audioCtxRef s) eqn:E; [done|].
  intros _ (N1 & N2 & N3).
  unfold routed, full_volume, gains_follow, constructed, connect, on_media.
  destruct (bgRef s) eqn:Hb, (muRef s) eqn:Hm; cbn; rewrite ?Hb, ?Hm; cbn;
    repeat split; intros; simplify_eq; done.
Qed.

Lemma ensureAudioContext_constructed s :
  constructed s = true -> ensureAudioContext s = Returned s.
Proof.
  unfold constructed, ensureAudioContext. by destruct (audioCtxRef s).
Qed.

Lemma ensureMiniConnected_routed s :
  routed s -> routed (state_of (ensureMiniConnected s)).
Proof.
  intros H. pose proof H as (Hc & [Hv1 Hv2] & Hb & Hm & Hma).
  unfold ensureMiniConnected, connect. repeat case_match; try done; cbn.
  all: unfold routed, constructed, full_volume, gains_follow in *; cbn;
    repeat match goal with H : _ = _ |- _ => rewrite H end; cbn;
    repeat split; try done; intros; simplify_eq; auto.
Qed.

Lemma playBoth_routed s : routed s -> routed (setIsPlaying true (playMu (playBg s))).
Proof.
  apply routed_view.
  change (audio_view (playMu (playBg s)) = audio_view s).
  transitivity (audio_view (playBg s)); [view_of playMu | view_of playBg].
Qed.

Lemma pauseBoth_routed s : routed s -> routed (setIsPlaying false (pauseMu (pauseBg s))).
Proof.
  apply routed_view.
  change (audio_view (pauseMu (pauseBg s)) = audio_view s).
  transitivity (audio_view (pauseBg s)); [view_of pauseMu | view_of pauseBg].
Qed.

Lemma handleGlobalPlayPause_routed s :
  routed s -> routed (state_of (handleGlobalPlayPause s)).
Proof.
  intros H. unfold handleGlobalPlayPause.
  destruct (isRecording s); cbn.
  { eapply routed_view; [apply audio_view_stopRecording | done]. }
  rewrite ensureAudioContext_constructed by apply H. cbn.
  pose proof (ensureMiniConnected_routed s H) as H1.
  destruct (ensureMiniConnected s) as [s1|e s1]; cbn in *; [|done].
  destruct (negb (isPlaying s)); cbn;
    [by apply playBoth_routed | by apply pauseBoth_routed].
Qed.

Lemma handleGlobalRec_routed iso ok s :
  routed s -> routed (state_of (handleGlobalRec iso ok s)).
Proof.
  intros H. unfold handleGlobalRec.
  destruct (isRecording s); cbn.
  { eapply routed_view; [apply audio_view_stopRecording | done]. }
  rewrite ensureAudioContext_constructed by apply H. cbn.
  pose proof (ensureMiniConnected_routed s H) as H1.
  destruct (ensureMiniConnected s) as [s1|e s1]; cbn in *; [|done].
  apply playBoth_routed.
  eapply routed_view; [apply audio_view_startRecording|].
  destruct (isPlaying s); [by apply pauseBoth_routed | done].
Qed.

(** Once the graph mechanism is in place, no event undoes it. *)
Lemma step_routed s e : routed s -> routed (step s e).
Proof.
  intros H. destruct e; cbn [step].
  - eapply routed_view; [apply audio_view_handleBgTimeUpdate | done].
  - eapply routed_view; [apply audio_view_handleMuTimeUpdate | done].
  - eapply routed_view; [apply audio_view_handleBgTimelineChange | done].
  - eapply routed_view; [apply audio_view_handleMuTimelineChange | done].
  - eapply routed_view; [apply audio_view_toggleGlue | done].
  - eapply routed_view; [apply audio_view_handleUploadNature | done].
  - eapply routed_view; [apply audio_view_handleUploadMusic | done].
  - eapply routed_view; [apply audio_view_applyPreset | done].
  - by apply setGain_routed.
  - by apply handleGlobalPlayPause_routed.
  - eapply routed_view; [apply audio_view_handleGlobalStop | done].
  - by apply handleGlobalRec_routed.
  - eapply routed_view; [apply audio_view_stopRecording | done].
  - case_match; [|done]. repeat case_match.
    eapply routed_view; [apply audio_view_env_fire | done].
  - eapply routed_view; [apply audio_view_env_stop_event | done].
  - eapply routed_view; [apply audio_view_env_frame | done].
  - case_match; [|done].
    eapply routed_view; [apply audio_view_env_elapse | done].
  - destruct H as (Hc & Hv & Hg). split; [| split].
    + unfold env_commit, constructed in *.
      by destruct (src_truthy (muSrc s)); [destruct (muRef s)|].
    + by apply full_volume_commit.
    + unfold env_commit, gains_follow in *.
      by destruct (src_truthy (muSrc s)); [destruct (muRef s)|].
  - eapply routed_view; [apply audio_view_loadedmetadata | done].
  - eapply routed_view; [apply audio_view_loadedmetadata | done].
Qed.

Lemma run_events_routed l s : routed s -> routed (run_events s l).
Proof.
  revert s. induction l as [|e l IH]; intros s H; [done|].
  cbn. apply IH. by apply step_routed.
Qed.

Lemma audio_ok_view s s' : audio_view s' = audio_view s -> audio_ok s -> audio_ok s'.
Proof.
  intros E. unfold audio_ok.
  assert (constructed s' = constructed s) as -> by (by injection E).
  destruct (constructed s); [by apply routed_view|].
  unfold no_nodes. unfold audio_view in E.
  injection E as _ _ _ -> -> -> _ _ _. done.
Qed.

Lemma audio_ok_routed s : routed s -> audio_ok s.
Proof. intros H. unfold audio_ok. by rewrite (proj1 H). Qed.

Lemma setGain_audio_ok g value s : audio_ok s -> audio_ok (setGain g value s).
Proof.
  unfold audio_ok. destruct (constructed s) eqn:Hc.
  - intros H. apply (setGain_routed g value) in H. by rewrite (proj1 H).
  - intros (N1 & N2 & N3). unfold setGain. case_decide; [by rewrite Hc|].
    unfold constructed in Hc. destruct (audioCtxRef s) eqn:E; [done|].
    unfold constructed, no_nodes, volumeEffect.
    destruct g; cbn; rewrite E; cbn; by rewrite E.
Qed.

Lemma ensure_both_audio_ok s :
  audio_ok s ->
  routed (state_of (ensureAudioContext s))
  /\ forall s1, ensureAudioContext s = Returned s1 ->
       routed (state_of (ensureMiniConnected s1)).
Proof.
  unfold audio_ok. destruct (constructed s) eqn:Hc; intros H.
  - rewrite ensureAudioContext_constructed by done. cbn. split; [done|].
    intros s1 [= <-]. by apply ensureMiniConnected_routed.
  - pose proof (ensureAudioContext_routed s Hc H) as H1. split; [done|].
    intros s1 E. rewrite E in H1. by apply ensureMiniConnected_routed.
Qed.

Lemma handleGlobalPlayPause_audio_ok s :
  audio_ok s -> audio_ok (state_of (handleGlobalPlayPause s)).
Proof.
  intros H. unfold handleGlobalPlayPause.
  destruct (isRecording s); cbn.
  { eapply audio_ok_view; [apply audio_view_stopRecording | done]. }
  destruct (ensure_both_audio_ok s H) as [H1 H2]. apply audio_ok_routed.
  destruct (ensureAudioContext s) as [s1|e1 s1]; cbn in *; [|done].
  specialize (H2 s1 eq_refl).
  destruct (ensureMiniConnected s1) as [s2|e2 s2]; cbn in *; [|done].
  destruct (negb (isPlaying s)); cbn;
    [by apply playBoth_routed | by apply pauseBoth_routed].
Qed.

Lemma handleGlobalRec_audio_ok iso ok s :
  audio_ok s -> audio_ok (state_of (handleGlobalRec iso ok s)).
Proof.
  intros H. unfold handleGlobalRec.
  destruct (isRecording s); cbn.
  { eapply audio_ok_view; [apply audio_view_stopRecording | done]. }
  destruct (ensure_both_audio_ok s H) as [H1 H2]. apply audio_ok_routed.
  destruct (ensureAudioContext s) as [s1|e1 s1]; cbn in *; [|done].
  specialize (H2 s1 eq_refl).
  destruct (ensureMiniConnected s1) as [s2|e2 s2]; cbn in *; [|done].
  apply playBoth_routed.
  eapply routed_view; [apply audio_view_startRecording|].
  destruct (isPlaying s); [by apply pauseBoth_routed | done].
Qed.

Lemma step_audio_ok s e : audio_ok s -> audio_ok (step s e).
Proof.
  intros H. destruct e; cbn [step].
  - eapply audio_ok_view; [apply audio_view_handleBgTimeUpdate | done].
  - eapply audio_ok_view; [apply audio_view_handleMuTimeUpdate | done].
  - eapply audio_ok_view; [apply audio_view_handleBgTimelineChange | done].
  - eapply audio_ok_view; [apply audio_view_handleMuTimelineChange | done].
  - eapply audio_ok_view; [apply audio_view_toggleGlue | done].
  - eapply audio_ok_view; [apply audio_view_handleUploadNature | done].
  - eapply audio_ok_view; [apply audio_view_handleUploadMusic | done].
  - eapply audio_ok_view; [apply audio_view_applyPreset | done].
  - by apply setGain_audio_ok.
  - by apply handleGlobalPlayPause_audio_ok.
  - eapply audio_ok_view; [apply audio_view_handleGlobalStop | done].
  - by apply handleGlobalRec_audio_ok.
  - eapply audio_ok_view; [apply audio_view_stopRecording | done].
  - case_match; [|done]. repeat case_match.
    eapply audio_ok_view; [apply audio_view_env_fire | done].
  - eapply audio_ok_view; [apply audio_view_env_stop_event | done].
  - eapply audio_ok_view; [apply audio_view_env_frame | done].
  - case_match; [|done].
    eapply audio_ok_view; [apply audio_view_env_elapse | done].
  - unfold audio_ok in *. destruct (constructed s) eqn:Hc.
    + pose proof (step_routed s Commit H) as H'. cbn in H'.
      by rewrite (proj1 H').
    + unfold env_commit, constructed, no_nodes in *.
      destruct (src_truthy (muSrc s)); [destruct (muRef s)|]; cbn;
        by rewrite Hc.
  - eapply audio_ok_view; [apply audio_view_loadedmetadata | done].
  - eapply audio_ok_view; [apply audio_view_loadedmetadata | done].
Qed.

Lemma run_events_audio_ok l s : audio_ok s -> audio_ok (run_events s l).
Proof.
  revert s. induction l as [|e l IH]; intros s H; [done|].
  cbn. apply IH. by apply step_audio_ok.
Qed.

Lemma initial_audio_ok : audio_ok initial.
Proof. unfold audio_ok. cbn. by repeat split. Qed.

(** C4.  A gain change made before the audio context exists leaves every
    mounted element with the volume [stage gain * master gain]; creating the
    context puts the elements at full volume and the gains on the nodes; from
    then on, through every event, the context stays, the elements stay at
    full volume and every gain node carries the value of its stage, a gain
    change included.  In every state the component reaches exactly one of
    the two mechanisms is in place. *)
Theorem gain_mechanisms (s : studio) :
  (forall g value,
      stageGain g s ≠ value -> constructed s = false ->
      stageGain g (setGain g value s) = value /\ direct (setGain g value s))
  /\ (constructed s = false -> no_nodes s ->
      routed (state_of (ensureAudioContext s)))
  /\ (forall g value,
         routed s ->
         stageGain g (setGain g value s) = value /\ routed (setGain g value s))
  /\ (forall l, routed s -> routed (run_events s l))
  /\ (forall l, audio_ok (run_events initial l)).
Proof.
  split; [| split; [| split; [| split ]]].
  - intros g value Hne Hc. split; [apply setGain_stage | by apply setGain_direct].
  - apply ensureAudioContext_routed.
  - intros g value H. split; [apply setGain_stage | by apply setGain_routed].
  - intros l. apply run_events_routed.
  - intros l. apply run_events_audio_ok, initial_audio_ok.
Qed.

Lemma gain_mechanisms_witness :
  volume <$> bgRef (setGain stage_big (1 # 2) initial) = Some (1 # 5)
  /\ bgGainRef (setGain stage_big (1 # 2) (state_of (ensureAudioContext initial)))
     = Some (1 # 2).
Proof.
  destruct (gain_mechanisms initial) as (Hdirect & Hmake & _).
  destruct (Hdirect stage_big (1 # 2) ltac:(by_evaluation) eq_refl)
    as (_ & _ & Hbg & _).
  destruct (gain_mechanisms (state_of (ensureAudioContext initial)))
    as (_ & _ & Hrouted & _).
  destruct (Hrouted stage_big (1 # 2) (Hmake eq_refl ltac:(by repeat split)))
    as (_ & _ & _ & Hgain & _).
  split.
  - destruct (volume <$> bgRef (setGain stage_big (1 # 2) initial))
      as [x|] eqn:E; [| vm_compute in E; discriminate E].
    rewrite (Hbg x eq_refl). by_evaluation.
  - destruct (bgGainRef (setGain stage_big (1 # 2)
                           (state_of (ensureAudioContext initial))))
      as [x|] eqn:E; [| vm_compute in E; discriminate E].
    by rewrite (Hgain x eq_refl).
Defined.







(** ** Glue across loop wraps *)

(** C1.  BIG lasts 10 s and SMALL 7 s; Glue is enabled with both at their
    start, so the captured offset is 0, and both play, their positions
    reported every quarter of a second.  Until the first wrap SMALL is
    exactly where the offset puts it.  After 9.75 s BIG has wrapped to 0 and
    its handler has moved SMALL to 3: [wrap(0 + 0, 7) = 0] is 3 s away from
    SMALL's position, far beyond the half second the handlers use as their
    threshold.  The error does not go away: after 100 s it is 1.25 s. *)
Theorem glue_offset_lost_at_big_wrap :
  let start := both_playing (10 # 1) (7 # 1) in
  let s := run_events start (ToggleGlue :: quarters 39) in
  glue_error (run_events start (ToggleGlue :: quarters 27)) = Some zero
  /\ isGlued s = true /\ isPlaying s = true /\ isRecording s = false
  /\ glueOffsetSecRef s = zero
  /\ currentTime <$> bgRef s = Some zero
  /\ currentTime <$> muRef s = Some (3 # 1)
  /\ glue_error s = Some (3 # 1)
  /\ ((3 # 1) <=? (1 # 2)) = false
  /\ glue_error (run_events start (ToggleGlue :: quarters 400)) = Some (5 # 4).
Proof. cbv zeta. repeat apply conj; by_evaluation. Qed.

(** ** Recording session *)

(** *** Nothing is released twice

    [winds_down] is a preorder; every handler but the one that starts a
    session is shown to respect it, one statement after the other. *)

Lemma wd_refl s : winds_down s s.
Proof. by intros H. Qed.

Lemma wd_trans s1 s2 s3 : winds_down s1 s2 -> winds_down s2 s3 -> winds_down s1 s3.
Proof.
  intros H12 H23 F1. destruct (H12 F1) as [F2 P12].
  destruct (H23 F2) as [F3 P23]. split; [done|].
  intros r. specialize (P12 r). specialize (P23 r). lia.
Qed.

Lemma wd_view s s' : rec_view s' = rec_view s -> winds_down s s'.
Proof.
  unfold rec_view. intros [= E1 E2 E3 E4 E5 E6 E7 E8 E9] F. split.
  - unfold frames_ok in *. by rewrite E9, E5.
  - intros []; unfold potential, held; by rewrite ?E1, ?E2, ?E3, ?E4, ?E5, ?E6, ?E7, ?E8.
Qed.

Create HintDb wd discriminated.

(* a leaf by cases on the fields of the state it starts from *)
Ltac eqb_facts :=
  repeat match goal with
         | H : (_ =? _) = true |- _ => apply Z.eqb_eq in H
         | H : (_ =? _) = false |- _ => apply Z.eqb_neq in H
         end.

Ltac wd_brute :=
  lazymatch goal with
  | |- winds_down ?y _ =>
      unfold winds_down, frames_ok, potential, released, held, recording,
        recorder_stop, cancelAnimationFrame, disconnect, emit, some,
        id_truthy in *;
      destruct y; cbn in *;
      intros ?; (split; [| intros []]);
      repeat (progress (cbn in *; repeat (case_match || case_decide);
                        eqb_facts; simplify_eq));
      solve [ lia | intuition congruence ]
  end.

Ltac wd_leaf :=
  first
    [ apply wd_refl
    | apply wd_view; reflexivity
    | solve [ eauto 3 with wd nocore ]
    | lazymatch goal with
      | |- winds_down ?s (?f ?x) =>
          lazymatch type of x with
          | studio =>
              tryif constr_eq s x then fail
              else (apply (wd_trans s x); [ wd_leaf | wd_leaf ])
          end
      end
    | wd_brute ].

Ltac wd_exec :=
  lazymatch goal with
  | |- winds_down _ (match ?x with _ => _ end) =>
      lazymatch x with
      | context [createObjectURL] => cbv beta iota delta [createObjectURL]
      | context [requestAnimationFrame] =>
          cbv beta iota delta [requestAnimationFrame]
      | _ => destruct x eqn:?
      end; wd_exec
  | |- winds_down _ (if ?x then _ else _) => destruct x eqn:?; wd_exec
  | |- winds_down ?s (let x := ?X in @?B x) =>
      lazymatch type of X with
      | studio =>
          let H := fresh "H" in
          let y := fresh x in
          tryif assert (H : winds_down s X) by wd_exec
          then (generalize dependent X; intros y H;
                change (winds_down s (B y)); cbv beta;
                apply (wd_trans s y); [ exact H | clear H; wd_exec ])
          else (change (winds_down s (B X)); cbv beta; wd_exec)
      | _ => change (winds_down s (B X)); cbv beta; wd_exec
      end
  | |- _ => wd_leaf
  end.

Ltac wd_of h := intros; cbv beta delta [h]; wd_exec.

Lemma wd_pauseBg s : winds_down s (pauseBg s).
Proof. wd_of pauseBg. Qed.
Lemma wd_pauseMu s : winds_down s (pauseMu s).
Proof. wd_of pauseMu. Qed.
#[local] Hint Resolve wd_pauseBg wd_pauseMu : wd.

Lemma wd_stopRecording s : winds_down s (stopRecording s).
Proof. wd_of stopRecording. Qed.
#[local] Hint Resolve wd_stopRecording : wd.

Lemma wd_tap s :
  winds_down s
    (set_recordAudioDestRef None
       match recordAudioDestRef s, masterGainRef s with
       | Some d, Some _ => emit DisconnectTap (disconnect masterGain d s)
       | _, _ => s
       end).
Proof. wd_brute. Qed.
Lemma wd_onstop s : winds_down s (onstop s).
Proof. wd_of onstop. Qed.
#[local] Hint Resolve wd_onstop : wd.
Lemma wd_ondataavailable d s : winds_down s (ondataavailable d s).
Proof. wd_of ondataavailable. Qed.
#[local] Hint Resolve wd_ondataavailable : wd.
Lemma wd_env_stop_event z s : winds_down s (env_stop_event z s).
Proof. wd_of env_stop_event. Qed.
Lemma wd_env_frame s : winds_down s (env_frame s).
Proof. wd_of env_frame. Qed.
Lemma wd_recTick s : winds_down s (recTick s).
Proof. wd_of recTick. Qed.
Lemma wd_env_elapse ms s : winds_down s (env_elapse ms s).
Proof. wd_of env_elapse. Qed.
#[local] Hint Resolve wd_recTick wd_env_elapse : wd.
Lemma wd_env_fire i t s : winds_down s (env_fire i t s).
Proof. intros; cbv beta delta [env_fire run_callback recDeadline]. wd_exec. Qed.

Lemma wd_handleBgTimeUpdate s : winds_down s (handleBgTimeUpdate s).
Proof. wd_of handleBgTimeUpdate. Qed.
Lemma wd_handleMuTimeUpdate s : winds_down s (handleMuTimeUpdate s).
Proof. wd_of handleMuTimeUpdate. Qed.
Lemma wd_handleBgTimelineChange x s : winds_down s (handleBgTimelineChange x s).
Proof. wd_of handleBgTimelineChange. Qed.
Lemma wd_handleMuTimelineChange x s : winds_down s (handleMuTimelineChange x s).
Proof. wd_of handleMuTimelineChange. Qed.
Lemma wd_toggleGlue s : winds_down s (toggleGlue s).
Proof. wd_of toggleGlue. Qed.
Lemma wd_handleUploadNature f s : winds_down s (handleUploadNature f s).
Proof. wd_of handleUploadNature. Qed.
Lemma wd_handleUploadMusic f s : winds_down s (handleUploadMusic f s).
Proof. wd_of handleUploadMusic. Qed.
Lemma wd_applyPreset n s : winds_down s (applyPreset n s).
Proof. wd_of applyPreset. Qed.
Lemma wd_volumeEffect s : winds_down s (volumeEffect s).
Proof. wd_of volumeEffect. Qed.
#[local] Hint Resolve wd_volumeEffect : wd.
Lemma wd_setGain g x s : winds_down s (setGain g x s).
Proof. wd_of setGain. Qed.
Lemma wd_handleGlobalStop s : winds_down s (handleGlobalStop s).
Proof. wd_of handleGlobalStop. Qed.
Lemma wd_ensureAudioContext s : winds_down s (state_of (ensureAudioContext s)).
Proof.
  apply wd_view.
  destruct (audioCtxRef s) eqn:E1, (bgRef s) eqn:E2, (muRef s) eqn:E3;
    destruct s; cbn in E1, E2, E3; subst; vm_compute; reflexivity.
Qed.
Lemma wd_ensureMiniConnected s : winds_down s (state_of (ensureMiniConnected s)).
Proof.
  apply wd_view.
  destruct (audioCtxRef s) eqn:E1, (muRef s) eqn:E2, (muSourceRef s) eqn:E3,
    (masterGainRef s) eqn:E4;
    destruct s; cbn in E1, E2, E3, E4; subst; vm_compute; reflexivity.
Qed.
Lemma wd_playBoth s : winds_down s (setIsPlaying true (playMu (playBg s))).
Proof. apply wd_view. destruct (bgRef s) eqn:E1, (muRef s) eqn:E2;
    destruct s; cbn in E1, E2; subst; vm_compute; reflexivity. Qed.
Lemma wd_pauseBoth s : winds_down s (setIsPlaying false (pauseMu (pauseBg s))).
Proof. apply wd_view. destruct (bgRef s) eqn:E1, (muRef s) eqn:E2;
    destruct s; cbn in E1, E2; subst; vm_compute; reflexivity. Qed.
Lemma wd_handleGlobalPlayPause s : winds_down s (state_of (handleGlobalPlayPause s)).
Proof.
  unfold handleGlobalPlayPause. destruct (isRecording s); [apply wd_stopRecording|].
  pose proof (wd_ensureAudioContext s) as H1.
  destruct (ensureAudioContext s) as [s1|e s1]; cbn [andThen state_of] in *; [|done].
  pose proof (wd_ensureMiniConnected s1) as H2.
  destruct (ensureMiniConnected s1) as [s2|e s2]; cbn [andThen state_of] in *;
    [| by eapply wd_trans].
  destruct (negb (isPlaying s)); cbn [state_of];
    (eapply wd_trans; [exact H1|]); (eapply wd_trans; [exact H2|]);
    [apply wd_playBoth | apply wd_pauseBoth].
Qed.
Lemma wd_env_commit s : winds_down s (env_commit s).
Proof. wd_of env_commit. Qed.
Lemma wd_loadedmetadata s d :
  winds_down s (set_bgRef (on_media (env_loadedmetadata d) (bgRef s)) s)
  /\ winds_down s (set_muRef (on_media (env_loadedmetadata d) (muRef s)) s).
Proof. split; apply wd_view; reflexivity. Qed.

Lemma wd_step s e : no_start e = true -> winds_down s (step s e).
Proof.
  intros H. destruct e; cbn [step]; try discriminate H;
    repeat case_match;
    first
      [ apply wd_handleBgTimeUpdate | apply wd_handleMuTimeUpdate
      | apply wd_handleBgTimelineChange | apply wd_handleMuTimelineChange
      | apply wd_toggleGlue | apply wd_handleUploadNature
      | apply wd_handleUploadMusic | apply wd_applyPreset | apply wd_setGain
      | apply wd_handleGlobalPlayPause | apply wd_handleGlobalStop
      | apply wd_stopRecording | apply wd_env_fire | apply wd_env_stop_event
      | apply wd_env_frame | apply wd_env_elapse | apply wd_env_commit
      | apply wd_loadedmetadata | apply wd_refl ].
Qed.

Lemma wd_run_events l s :
  forallb no_start l = true -> winds_down s (run_events s l).
Proof.
  revert s. induction l as [|e l IH]; intros s H; [apply wd_refl|].
  cbn in H. apply andb_prop in H as [He Hl]. cbn.
  eapply wd_trans; [by apply wd_step | by apply IH].
Qed.


(** *** What one call of [stopRecording] does *)

Lemma stopRecording_phases s :
  stopRecording s = finalize_or_clear (pause_tracks (cancel_triggers s)).
Proof. reflexivity. Qed.

Lemma id_truthy_cases r :
  (id_truthy r = None /\ (r = None \/ r = Some 0))
  \/ (exists i, i ≠ 0 /\ r = Some i /\ id_truthy r = Some i).
Proof.
  destruct r as [i|]; cbn; [|by left; auto].
  destruct (Z.eqb_spec i 0); subst; [left; auto | right; eauto].
Qed.

Lemma not_in_filtered (i : Z) (l : list (Z * timer)) :
  i ∉ (List.filter (fun e => negb (e.1 =? i)) l).*1.
Proof.
  intros H. apply list_elem_of_fmap in H as ([j t] & -> & H).
  apply list_elem_of_In, filter_In in H as [_ H]. cbn in H.
  by rewrite Z.eqb_refl in H.
Qed.

Lemma not_in_filtered_twice (i j : Z) (l : list (Z * timer)) :
  i ∉ (List.filter (fun e => negb (e.1 =? j))
         (List.filter (fun e => negb (e.1 =? i)) l)).*1.
Proof.
  intros H. apply list_elem_of_fmap in H as ([k t] & -> & H).
  apply list_elem_of_In, filter_In in H as [H _].
  apply filter_In in H as [_ H]. cbn in H.
  by rewrite Z.eqb_refl in H.
Qed.

Lemma cancel_triggers_spec s :
  let s' := cancel_triggers s in
  triggers_cancelled s s'
  /\ bgRef s' = bgRef s /\ muRef s' = muRef s /\ recorderRef s' = recorderRef s
  /\ released encoder s' = released encoder s.
Proof.
  unfold cancel_triggers, triggers_cancelled, timer_ids, released.
  destruct (id_truthy_cases (recIntervalRef s)) as [[E1 _]|(i1 & N1 & _ & E1)];
    rewrite E1; cbn;
    destruct (id_truthy_cases (recordTimerRef s)) as [[E2 _]|(i2 & N2 & _ & E2)];
    rewrite E2; cbn; rewrite ?E1, ?E2; repeat apply conj; try reflexivity.
  all: intros i [[= <-]|[= <-]];
    first [ apply not_in_filtered | apply not_in_filtered_twice ].
Qed.

Lemma pause_tracks_spec s :
  let s' := pause_tracks s in
  tracks_paused s'
  /\ recIntervalRef s' = recIntervalRef s /\ recordTimerRef s' = recordTimerRef s
  /\ timer_ids s' = timer_ids s /\ recorderRef s' = recorderRef s
  /\ released encoder s' = released encoder s.
Proof.
  unfold pause_tracks, tracks_paused, timer_ids, pauseMu, pauseBg, released.
  destruct (bgRef s) eqn:Eb, (muRef s) eqn:Em; cbn; rewrite ?Eb, ?Em; cbn;
    rewrite ?Eb, ?Em; repeat apply conj; try reflexivity; intros; by simplify_eq.
Qed.

Lemma finalize_or_clear_spec s :
  let s' := finalize_or_clear s in
  recIntervalRef s' = recIntervalRef s /\ recordTimerRef s' = recordTimerRef s
  /\ timer_ids s' = timer_ids s /\ bgRef s' = bgRef s /\ muRef s' = muRef s
  /\ isPlaying s' = isPlaying s
  /\ recording s' = false
  /\ (recording s = true ->
      released encoder s' = S (released encoder s)
      /\ exists g, recorderRef s' = Some (mkRec rs_inactive g true))
  /\ (recording s = false ->
      isRecording s' = false /\ released encoder s' = released encoder s
      /\ s' = setIsRecording false s).
Proof.
  unfold finalize_or_clear, recording, timer_ids, released.
  destruct (recorderRef s) as [[[] g q]|] eqn:Er; cbn; rewrite ?Er; cbn;
    repeat apply conj; try reflexivity; try (intros; discriminate); eauto.
Qed.

Lemma stopRecording_spec s :
  let s' := stopRecording s in
  triggers_cancelled s s' /\ tracks_paused s'
  /\ recording s' = false
  /\ (recording s = true ->
      released encoder s' = S (released encoder s)
      /\ exists g, recorderRef s' = Some (mkRec rs_inactive g true))
  /\ (recording s = false ->
      isRecording s' = false /\ released encoder s' = released encoder s).
Proof.
  cbv zeta. rewrite stopRecording_phases.
  destruct (cancel_triggers_spec s) as ((C1 & C2 & C3) & C4 & C5 & C6 & C7).
  destruct (pause_tracks_spec (cancel_triggers s))
    as ((P1 & P2 & P3) & P4 & P5 & P6 & P7 & P8).
  destruct (finalize_or_clear_spec (pause_tracks (cancel_triggers s)))
    as (F1 & F2 & F3 & F4 & F5 & F6 & F7 & F8 & F9).
  assert (Hrec : recording (pause_tracks (cancel_triggers s)) = recording s).
  { unfold recording. by rewrite P7, C6. }
  assert (Hrel : released encoder (pause_tracks (cancel_triggers s))
                 = released encoder s).
  { by rewrite P8, C7. }
  repeat apply conj.
  - by rewrite F1, P4.
  - by rewrite F2, P5.
  - intros i Hi. rewrite F3, P6. by apply C3.
  - intros m. rewrite F4. apply P1.
  - intros m. rewrite F5. apply P2.
  - by rewrite F6.
  - done.
  - rewrite <- Hrec, <- Hrel. apply F8.
  - rewrite <- Hrec, <- Hrel. intros H. by destruct (F9 H) as (? & ? & _).
Qed.

Lemma cancel_triggers_id s :
  id_truthy (recIntervalRef s) = None -> id_truthy (recordTimerRef s) = None ->
  cancel_triggers s = s.
Proof. intros E1 E2. unfold cancel_triggers. by rewrite E1, E2. Qed.

Lemma pause_tracks_fix s :
  tracks_paused s -> forget_calls (pause_tracks s) = forget_calls s.
Proof.
  intros (Hb & Hm & Hp). unfold pause_tracks, pauseMu, pauseBg.
  destruct (bgRef s) as [[]|] eqn:Eb; [specialize (Hb _ eq_refl)|];
    (destruct (muRef s) as [[]|] eqn:Em; [specialize (Hm _ eq_refl)|]);
    destruct s; cbn in *; subst; reflexivity.
Qed.

Lemma stopRecording_again s :
  forget_calls (stopRecording (stopRecording s))
  = forget_calls (setIsRecording false (stopRecording s)).
Proof.
  destruct (stopRecording_spec s) as ((T1 & T2 & _) & P & R & _).
  set (s' := stopRecording s) in *.
  rewrite stopRecording_phases, cancel_triggers_id by done.
  destruct (pause_tracks_spec s') as (_ & _ & _ & _ & P7 & _).
  destruct (finalize_or_clear_spec (pause_tracks s')) as (_ & _ & _ & _ & _ & _ & _ & _ & F9).
  destruct F9 as (_ & _ & ->). { unfold recording in *. by rewrite P7. }
  change (setIsRecording false (forget_calls (pause_tracks s'))
          = setIsRecording false (forget_calls s')).
  by rewrite pause_tracks_fix.
Qed.



(** C7.  Every call of [stopRecording] cancels both stop triggers and
    pauses both tracks.  While an encoding is active the call requests its
    finalize, once; otherwise it clears the recording flag.  A repeated call
    changes nothing but that flag (and the log of browser calls).  Whatever
    events follow, stop calls from any trigger included, as long as no new
    session is started: no resource (render loop, audio tap, stream tracks,
    encoder) is released more often than it was held. *)
Theorem stopRecording_safe (s : studio) :
  triggers_cancelled s (stopRecording s)
  /\ tracks_paused (stopRecording s)
  /\ (recording s = true ->
      released encoder (stopRecording s) = S (released encoder s)
      /\ recording (stopRecording s) = false)
  /\ (recording s = false ->
      isRecording (stopRecording s) = false
      /\ released encoder (stopRecording s) = released encoder s)
  /\ forget_calls (stopRecording (stopRecording s))
     = forget_calls (setIsRecording false (stopRecording s))
  /\ (forall l r,
        forallb no_start l = true -> frames_ok s ->
        (potential r (run_events s l) <= potential r s)%nat)
  /\ (forall l r,
        forallb no_start l = true -> frames_ok s -> released r s = O ->
        (released r (run_events s l) <= 1)%nat).
Proof.
  destruct (stopRecording_spec s) as (T & P & R & Hon & Hoff).
  assert (Hpot : forall l r, forallb no_start l = true -> frames_ok s ->
            (potential r (run_events s l) <= potential r s)%nat).
  { intros l r Hl F. by apply (wd_run_events l s Hl F). }
  split; [exact T|]. split; [exact P|].
  split; [intros H; split; [by apply Hon | exact R]|].
  split; [exact Hoff|]. split; [apply stopRecording_again|].
  split; [exact Hpot|].
  intros l r Hl F H0. specialize (Hpot l r Hl F).
  unfold potential in Hpot. rewrite H0 in Hpot.
  destruct (held r s), (held r (run_events s l)); lia.
Qed.

Lemma stopRecording_safe_witness :
  (released encoder
     (run_events just_started
        [StopRecording; StopRecording; TimerFires 1; StopEvent 5;
         StopRecording; Frame]) <= 1)%nat
  /\ isRecording (stopRecording initial) = false.
Proof.
  destruct (stopRecording_safe just_started) as (_ & _ & _ & _ & _ & _ & Honce).
  destruct (stopRecording_safe initial) as (_ & _ & _ & Hoff & _).
  split.
  - apply Honce; [reflexivity | right | ]; vm_compute; reflexivity.
  - apply Hoff. vm_compute. reflexivity.
Defined.

Close Scope js_scope.
Open Scope Z_scope.

(** ** A recording session from start to delivery *)

Lemma eqb_succ n : (n + 1 =? n) = false.
Proof. apply Z.eqb_neq. lia. Qed.
Lemma eqb_succ' n : (n =? n + 1) = false.
Proof. apply Z.eqb_neq. lia. Qed.

Lemma session_view_inv s c T k r i j l :
  session_view s = (c, T, k, r, i, j, l) ->
  clock (env s) = c /\ timers (env s) = T /\ recTime s = k /\ recorderRef s = r
  /\ recIntervalRef s = i /\ recordTimerRef s = j /\ recordedChunksRef s = l.
Proof. unfold session_view. intros [= <- <- <- <- <- <- <-]. done. Qed.

Lemma env_elapse_session ms s g q :
  recorderRef s = Some (mkRec rs_recording g q) ->
  session_view (env_elapse ms s)
  = (clock (env s) + ms, timers (env s), recTime s,
     Some (mkRec rs_recording (g + ms) q), recIntervalRef s, recordTimerRef s,
     recordedChunksRef s).
Proof.
  intros E. unfold env_elapse, session_view. cbn. rewrite E. reflexivity.
Qed.

Lemma cancel_triggers_session n m s :
  recIntervalRef s = Some n -> recordTimerRef s = Some m -> n ≠ 0 -> m ≠ 0 ->
  session_view (cancel_triggers s)
  = (clock (env s),
     List.filter (fun e => negb (e.1 =? m))
       (List.filter (fun e => negb (e.1 =? n)) (timers (env s))),
     recTime s, recorderRef s, None, None, recordedChunksRef s).
Proof.
  intros E1 E2 N1 N2. apply Z.eqb_neq in N1, N2.
  unfold cancel_triggers, session_view, id_truthy. rewrite E1, N1. cbn.
  rewrite E2, N2. reflexivity.
Qed.

Lemma pause_tracks_session s :
  session_view (pause_tracks s) = session_view s.
Proof.
  unfold pause_tracks, pauseMu, pauseBg, session_view.
  destruct (bgRef s) eqn:Eb, (muRef s) eqn:Em; cbn; rewrite ?Eb, ?Em; cbn;
    rewrite ?Eb, ?Em; reflexivity.
Qed.

Lemma finalize_session s g q :
  recorderRef s = Some (mkRec rs_recording g q) ->
  session_view (finalize_or_clear s)
  = (clock (env s), timers (env s), recTime s,
     Some (mkRec rs_inactive g true), recIntervalRef s, recordTimerRef s,
     recordedChunksRef s).
Proof.
  intros E. unfold finalize_or_clear, session_view. rewrite E. reflexivity.
Qed.

Lemma stopRecording_session n m s g q :
  recIntervalRef s = Some n -> recordTimerRef s = Some m -> n ≠ 0 -> m ≠ 0 ->
  recorderRef s = Some (mkRec rs_recording g q) ->
  session_view (stopRecording s)
  = (clock (env s),
     List.filter (fun e => negb (e.1 =? m))
       (List.filter (fun e => negb (e.1 =? n)) (timers (env s))),
     recTime s, Some (mkRec rs_inactive g true), None, None,
     recordedChunksRef s).
Proof.
  intros E1 E2 N1 N2 E3. rewrite stopRecording_phases.
  pose proof (cancel_triggers_session n m s E1 E2 N1 N2) as Hc.
  pose proof (pause_tracks_session (cancel_triggers s)) as Hp.
  rewrite Hc in Hp.
  apply session_view_inv in Hp as (P1 & P2 & P3 & P4 & P5 & P6 & P7).
  rewrite (finalize_session _ g q (eq_trans P4 E3)).
  by rewrite P1, P2, P3, P5, P6, P7.
Qed.

Lemma tick_fires n c k s :
  ticking n c k s -> k + 1 < RECORD_LIMIT_SEC -> 0 <= k ->
  ticking n c (k + 1)
    (env_fire n (mkTimer (c + 1000 * (k + 1)) (Some 1000) cb_tick) s).
Proof.
  intros (H1 & H2 & H3 & H4 & H5 & H6 & H7) Hk H0.
  unfold env_fire. cbn [period handler due].
  pose proof (env_elapse_session (Z.max 0 (c + 1000 * (k + 1) - clock (env s))) s _ _ H4) as He.
  rewrite H1 in *. replace (Z.max 0 (c + 1000 * (k + 1) - (c + 1000 * k))) with 1000 in * by lia.
  revert He. generalize (env_elapse 1000 s). intros s1 He.
  apply session_view_inv in He as (E1 & E2 & E3 & E4 & E5 & E6 & E7).
  cbn [run_callback]. unfold recTick. cbn [recTime set_env].
  rewrite E3, H3. unfold RECORD_LIMIT_SEC in *.
  destruct (Z.leb_spec 100 (k + 1)); [lia|].
  unfold ticking. cbn. rewrite E1, E2, E4, E5, E6, E7, H2, H5, H6, H7. cbn.
  unfold rearm. cbn. rewrite Z.eqb_refl, eqb_succ. cbn. unfold RECORD_LIMIT_SEC.
  repeat apply conj; try reflexivity; repeat (first [lia | f_equal]).
Qed.

Lemma both_cancelled n (a b : timer) :
  List.filter (fun e : Z * timer => negb (e.1 =? n + 1))
    (List.filter (fun e : Z * timer => negb (e.1 =? n)) [(n, a); (n + 1, b)])
  = [].
Proof.
  cbn. rewrite Z.eqb_refl, eqb_succ. cbn. by rewrite Z.eqb_refl.
Qed.

Lemma deadline_cancelled n (a : timer) :
  List.filter (fun e : Z * timer => negb (e.1 =? n + 1))
    (List.filter (fun e : Z * timer => negb (e.1 =? n)) [(n, a)])
  = [].
Proof. cbn. by rewrite Z.eqb_refl. Qed.

Lemma rearm_tick n p (a b : timer) :
  rearm n p <$> [(n, a); (n + 1, b)]
  = [(n, mkTimer (due a + p) (period a) (handler a)); (n + 1, b)].
Proof.
  unfold rearm. cbn. by rewrite Z.eqb_refl, eqb_succ.
Qed.

Lemma last_tick_fires n c s :
  ticking n c (RECORD_LIMIT_SEC - 1) s -> n ≠ 0 -> n + 1 ≠ 0 ->
  stopping (RECORD_LIMIT_SEC * 1000)
    (env_fire n (mkTimer (c + 1000 * RECORD_LIMIT_SEC) (Some 1000) cb_tick) s).
Proof.
  unfold RECORD_LIMIT_SEC.
  intros (H1 & H2 & H3 & H4 & H5 & H6 & H7) Hn Hn'.
  unfold env_fire. cbn [period handler due].
  pose proof (env_elapse_session (Z.max 0 (c + 1000 * 100 - clock (env s))) s _ _ H4) as He.
  rewrite H1 in *. replace (Z.max 0 (c + 1000 * 100 - (c + 1000 * (100 - 1)))) with 1000 in * by lia.
  revert He. generalize (env_elapse 1000 s). intros s1 He.
  apply session_view_inv in He as (E1 & E2 & E3 & E4 & E5 & E6 & E7).
  cbn [run_callback]. unfold recTick. cbn [recTime set_env].
  rewrite E3, H3. unfold RECORD_LIMIT_SEC. change (100 <=? 100 - 1 + 1) with true. cbv iota.
  match goal with |- context [stopRecording ?x] =>
    pose proof (stopRecording_session n (n + 1) x (1000 * (100 - 1) + 1000) false) as Hs;
    revert Hs; generalize (stopRecording x); intros s3 Hs end.
  cbn in Hs. rewrite ?E2, ?E4, ?E5, ?E6, ?E7, ?H2, ?H5, ?H6, ?H7 in Hs.
  specialize (Hs eq_refl eq_refl Hn Hn' eq_refl).
  apply session_view_inv in Hs as (S1 & S2 & S3 & S4 & S5 & S6 & S7).
  rewrite rearm_tick, both_cancelled in S2.
  unfold stopping. cbn [recorderRef timers env recIntervalRef recordTimerRef
    recordedChunksRef setRecTime].
  rewrite S2, S4, S5, S6, S7. repeat apply conj; reflexivity.
Qed.

Lemma deadline_fires n c k s :
  ticking n c k s -> n ≠ 0 -> n + 1 ≠ 0 -> 0 <= k < RECORD_LIMIT_SEC ->
  stopping (RECORD_LIMIT_SEC * 1000)
    (env_fire (n + 1) (mkTimer (c + RECORD_LIMIT_SEC * 1000) None cb_deadline) s).
Proof.
  unfold RECORD_LIMIT_SEC.
  intros (H1 & H2 & H3 & H4 & H5 & H6 & H7) Hn Hn' Hk.
  unfold env_fire. cbn [period handler due].
  pose proof (env_elapse_session (Z.max 0 (c + 100 * 1000 - clock (env s))) s _ _ H4) as He.
  rewrite H1 in *.
  replace (Z.max 0 (c + 100 * 1000 - (c + 1000 * k))) with (100 * 1000 - 1000 * k) in * by lia.
  revert He. generalize (env_elapse (100 * 1000 - 1000 * k) s). intros s1 He.
  apply session_view_inv in He as (E1 & E2 & E3 & E4 & E5 & E6 & E7).
  cbn [run_callback]. unfold recDeadline.
  match goal with |- context [stopRecording ?x] =>
    pose proof (stopRecording_session n (n + 1) x (100 * 1000) false) as Hs;
    revert Hs; generalize (stopRecording x); intros s3 Hs end.
  unfold remove_timer in Hs. cbn in Hs.
  rewrite ?E2, ?E4, ?E5, ?E6, ?E7, ?H2, ?H5, ?H6, ?H7 in Hs.
  replace (1000 * k + (100 * 1000 - 1000 * k)) with (100 * 1000) in Hs by lia.
  specialize (Hs eq_refl eq_refl Hn Hn' eq_refl).
  apply session_view_inv in Hs as (S1 & S2 & S3 & S4 & S5 & S6 & S7).
  unfold stopping. rewrite S2, S4, S5, S6, S7. cbn.
  rewrite !Z.eqb_refl, ?eqb_succ, ?eqb_succ'. cbn. rewrite ?Z.eqb_refl. cbn.
  repeat apply conj; try reflexivity.
Qed.


Lemma onstop_phases s :
  onstop s = release_capture (cancel_triggers (publish (cancel_frame s))).
Proof.
  cbv beta iota zeta delta [onstop release_capture cancel_triggers publish
    cancel_frame createObjectURL].
  reflexivity.
Qed.

Lemma outcome_view_inv s a b c d e f g h :
  outcome_view s = (a, b, c, d, e, f, g, h) ->
  isRecording s = a /\ recorderRef s = b /\ timers (env s) = c
  /\ showSavePanel s = d /\ pendingRecordedBlob s = e
  /\ recordedChunksRef s = f /\ recIntervalRef s = g /\ recordTimerRef s = h.
Proof. unfold outcome_view. intros [= <- <- <- <- <- <- <- <-]. done. Qed.

Lemma cancel_frame_view s :
  outcome_view (cancel_frame s) = outcome_view s.
Proof.
  unfold cancel_frame, id_truthy.
  destruct (drawRafRef s) as [i|] eqn:E1; [|reflexivity].
  destruct (i =? 0); [reflexivity|].
  unfold cancelAnimationFrame, outcome_view.
  destruct (frameRequested (env s)) as [j|]; [destruct (j =? i)|]; reflexivity.
Qed.

Lemma publish_view s :
  outcome_view (publish s)
  = (false, None, timers (env s), true,
     Some (mkBlob (recordedChunksRef s) "video/webm"), [],
     recIntervalRef s, recordTimerRef s).
Proof. reflexivity. Qed.

Lemma release_capture_view s :
  outcome_view (release_capture s) = outcome_view s.
Proof.
  unfold release_capture, outcome_view, disconnect.
  destruct (recordAudioDestRef s) eqn:E2, (masterGainRef s) eqn:E3,
           (recordOutStreamRef s) eqn:E4, (audioCtxRef s) eqn:E5;
    cbn; rewrite ?E2, ?E3, ?E4, ?E5; cbn; rewrite ?E2, ?E3, ?E4, ?E5; reflexivity.
Qed.

Lemma cancel_triggers_idle s :
  recIntervalRef s = None -> recordTimerRef s = None -> cancel_triggers s = s.
Proof. intros E1 E2. unfold cancel_triggers. rewrite E1. cbn. by rewrite E2. Qed.

Lemma onstop_view s :
  recIntervalRef s = None -> recordTimerRef s = None ->
  outcome_view (onstop s)
  = (false, None, timers (env s), true,
     Some (mkBlob (recordedChunksRef s) "video/webm"), [], None, None).
Proof.
  intros E1 E2. rewrite onstop_phases, release_capture_view.
  pose proof (cancel_frame_view s) as Hc.
  pose proof (publish_view (cancel_frame s)) as Hp.
  apply outcome_view_inv in Hc as (_ & _ & C3 & _ & _ & C6 & C7 & C8).
  rewrite C3, C6, C7, C8, E1, E2 in Hp.
  apply outcome_view_inv in Hp as (P1 & P2 & P3 & P4 & P5 & P6 & P7 & P8).
  rewrite cancel_triggers_idle by assumption.
  unfold outcome_view. by rewrite P1, P2, P3, P4, P5, P6, P7, P8.
Qed.

Lemma stop_event_view g sz s :
  stopping g s ->
  outcome_view (env_stop_event sz s)
  = (false, None, [], true,
     Some (mkBlob (if 0 <? sz then [mkChunk sz g] else []) "video/webm"),
     [], None, None).
Proof.
  intros (H1 & H2 & H3 & H4 & H5).
  unfold env_stop_event. rewrite H1. cbn [stopQueued rstate gathered].
  unfold ondataavailable. cbn [byteSize].
  destruct (0 <? sz); rewrite onstop_view; cbn; rewrite ?H2, ?H3, ?H4, ?H5;
    reflexivity.
Qed.

Lemma stop_event_delivers g sz s :
  stopping g s -> 0 <= g <= RECORD_LIMIT_SEC * 1000 ->
  delivered (env_stop_event sz s).
Proof.
  intros H Hg. apply (stop_event_view g sz) in H.
  apply outcome_view_inv in H as (H1 & H2 & H3 & H4 & H5 & _).
  repeat apply conj; try assumption.
  eexists. split; [exact H5|]. unfold blob_ms. destruct (0 <? sz); cbn; lia.
Qed.

Lemma startRecording_phases iso ok s :
  is_Some (audioCtxRef s) -> is_Some (masterGainRef s) -> is_Some (bgRef s) ->
  canvas2d (env s) = true ->
  startRecording iso ok s
  = arm_triggers (begin_capture iso ok s (set_canvasRef true s)).
Proof.
  intros [ctx E1] [g E2] [m E3] E4.
  cbv beta delta [startRecording]. rewrite E1, E2, E3.
  cbv beta iota zeta delta [arm_triggers begin_capture draw
    requestAnimationFrame setInterval setTimeout add_timer].
  change (canvas2d (env (set_canvasRef true s))) with (canvas2d (env s)).
  rewrite E4. cbv beta iota delta [negb].
  reflexivity.
Qed.

Lemma earliest_ticking alive n c k :
  0 <= k < RECORD_LIMIT_SEC ->
  earliest alive
    [(n, mkTimer (c + 1000 * (k + 1)) (Some 1000) cb_tick);
     (n + 1, mkTimer (c + RECORD_LIMIT_SEC * 1000) None cb_deadline)]
  = if alive cb_tick
    then Some (n, mkTimer (c + 1000 * (k + 1)) (Some 1000) cb_tick)
    else if alive cb_deadline
         then Some (n + 1, mkTimer (c + RECORD_LIMIT_SEC * 1000) None cb_deadline)
         else None.
Proof.
  unfold RECORD_LIMIT_SEC. intros Hk. cbn.
  destruct (alive cb_tick), (alive cb_deadline); try reflexivity.
  cbn [due]. destruct (Z.ltb_spec (c + 100 * 1000) (c + 1000 * (k + 1))); [lia|reflexivity].
Qed.

Lemma env_run_delivered alive sz fuel s :
  delivered s -> env_run alive sz fuel s = s.
Proof.
  intros (_ & H2 & H3 & _). destruct fuel; [reflexivity|].
  cbn. by rewrite H2, H3.
Qed.

Lemma env_run_stopping alive sz fuel g s :
  stopping g s -> 0 <= g <= RECORD_LIMIT_SEC * 1000 ->
  delivered (env_run alive sz (S fuel) s).
Proof.
  intros H Hg. pose proof H as (H1 & _). cbn. rewrite H1.
  rewrite env_run_delivered; by eapply stop_event_delivers.
Qed.

Lemma env_run_turn alive sz fuel n c k s :
  ticking n c k s -> 0 <= k < RECORD_LIMIT_SEC ->
  env_run alive sz (S fuel) s
  = if alive cb_tick
    then env_run alive sz fuel
           (env_fire n (mkTimer (c + 1000 * (k + 1)) (Some 1000) cb_tick) s)
    else if alive cb_deadline
         then env_run alive sz fuel
                (env_fire (n + 1)
                   (mkTimer (c + RECORD_LIMIT_SEC * 1000) None cb_deadline) s)
         else s.
Proof.
  intros (H1 & H2 & H3 & H4 & H5 & H6 & H7) Hk. cbn [env_run].
  rewrite H4, H2, earliest_ticking by done.
  by destruct (alive cb_tick), (alive cb_deadline).
Qed.

Lemma env_run_ticking alive sz (j : nat) : forall fuel n c k s,
  ticking n c k s -> n ≠ 0 -> n + 1 ≠ 0 -> 0 <= k ->
  k + Z.of_nat j = RECORD_LIMIT_SEC - 1 ->
  alive cb_tick || alive cb_deadline = true ->
  delivered (env_run alive sz (S (S j) + fuel) s).
Proof.
  induction j as [|j IH]; intros fuel n c k s Ht Hn Hn' H0 Hk Ha.
  - assert (k = RECORD_LIMIT_SEC - 1) as -> by lia.
    change (S (S 0) + fuel)%nat with (S (S fuel)).
    rewrite (env_run_turn _ _ _ _ _ _ _ Ht) by (unfold RECORD_LIMIT_SEC; lia).
    destruct (alive cb_tick).
    + eapply env_run_stopping.
      * replace (RECORD_LIMIT_SEC - 1 + 1) with RECORD_LIMIT_SEC by lia.
        by apply last_tick_fires.
      * unfold RECORD_LIMIT_SEC. lia.
    + cbn in Ha. rewrite Ha. eapply env_run_stopping.
      * apply (deadline_fires _ _ _ _ Ht); unfold RECORD_LIMIT_SEC; lia.
      * unfold RECORD_LIMIT_SEC. lia.
  - change (S (S (S j)) + fuel)%nat with (S (S (S j) + fuel)).
    rewrite (env_run_turn _ _ _ _ _ _ _ Ht) by (unfold RECORD_LIMIT_SEC in *; lia).
    destruct (alive cb_tick) eqn:Et.
    + apply (IH fuel n c (k + 1)); try done; try lia.
      apply tick_fires; [done| unfold RECORD_LIMIT_SEC in *; lia | lia].
    + cbn in Ha. rewrite Ha.
      change (S (S j) + fuel)%nat with (S (S j + fuel)).
      eapply env_run_stopping.
      * apply (deadline_fires _ _ _ _ Ht); unfold RECORD_LIMIT_SEC in *; lia.
      * unfold RECORD_LIMIT_SEC. lia.
Qed.

Lemma env_run_countdown alive sz (j : nat) : forall n c k s,
  alive cb_tick = true ->
  ticking n c k s -> 0 <= k -> k + Z.of_nat j < RECORD_LIMIT_SEC ->
  ticking n c (k + Z.of_nat j) (env_run alive sz j s).
Proof.
  induction j as [|j IH]; intros n c k s Ha Ht H0 Hk.
  - cbn [env_run]. replace (k + Z.of_nat 0) with k by lia. exact Ht.
  - rewrite (env_run_turn _ _ _ _ _ _ _ Ht) by lia. rewrite Ha.
    replace (k + Z.of_nat (S j)) with (k + 1 + Z.of_nat j) by lia.
    apply IH; [done| |lia|lia]. apply tick_fires; [done|lia|lia].
Qed.

(** X1.  A running session ends by itself.  Take a session whose two
    stop triggers are armed and which has counted [k] seconds, and leave it
    to the browser, with timers that fire when they are due and at least
    one of the two callbacks still being run.  After at most
    [RECORD_LIMIT_SEC + 1 - k] turns of the event loop (the ticks that are
    left, then the recorder's stop event) the component is no longer
    recording, the recorder is gone, no timer is left, the save panel is
    shown and a blob is pending.  If the ticks are not run, the deadline
    alone ends it. *)
Theorem recording_ends_by_itself
    (alive : callback -> bool) (sz n c k : Z) (fuel : nat) (s : studio) :
  ticking n c k s -> n ≠ 0 -> n + 1 ≠ 0 ->
  0 <= k < RECORD_LIMIT_SEC ->
  alive cb_tick || alive cb_deadline = true ->
  RECORD_LIMIT_SEC + 1 - k <= Z.of_nat fuel ->
  let s' := env_run alive sz fuel s in
  isRecording s' = false
  /\ recorderRef s' = None
  /\ timers (env s') = []
  /\ showSavePanel s' = true
  /\ is_Some (pendingRecordedBlob s').
Proof.
  intros Ht Hn Hn' Hk Ha Hf. cbv zeta.
  set (j := Z.to_nat (RECORD_LIMIT_SEC - 1 - k)).
  replace fuel with (S (S j) + (fuel - S (S j)))%nat by lia.
  assert (D : delivered (env_run alive sz (S (S j) + (fuel - S (S j))) s)).
  { apply (env_run_ticking alive sz j _ n c k); [done|done|done|lia|lia|done]. }
  destruct D as (D1 & D2 & D3 & D4 & b & D5 & _).
  split; [exact D1|]. split; [exact D2|]. split; [exact D3|].
  split; [exact D4|]. by exists b.
Qed.

Lemma recording_ends_by_itself_witness :
  let s' := env_run (fun cb => bool_decide (cb = cb_deadline)) 5 59
              (env_run (fun _ => true) 5 42 just_started) in
  isRecording s' = false /\ timers (env s') = []
  /\ showSavePanel s' = true /\ is_Some (pendingRecordedBlob s').
Proof.
  destruct (recording_ends_by_itself
              (fun cb => bool_decide (cb = cb_deadline)) 5 1 0 42 59
              (env_run (fun _ => true) 5 42 just_started))
    as (H1 & _ & H3 & H4 & H5);
    [ vm_compute; repeat apply conj; reflexivity | lia | lia
    | unfold RECORD_LIMIT_SEC; lia | reflexivity
    | unfold RECORD_LIMIT_SEC; lia | ].
  by repeat split.
Defined.

(** X2.  The counter counts the ticks.  From a session whose triggers are
    armed and which has counted [k], [j] turns of the event loop with the
    interval being run, short of the limit, bring [recTime] to [k + j]; the
    recorder is still recording, both triggers are still armed under their
    ids and nothing has been handed over yet. *)
Theorem recording_counts_ticks
    (alive : callback -> bool) (sz n c k : Z) (j : nat) (s : studio) :
  ticking n c k s ->
  alive cb_tick = true ->
  0 <= k -> k + Z.of_nat j < RECORD_LIMIT_SEC ->
  let s' := env_run alive sz j s in
  recTime s' = k + Z.of_nat j
  /\ (exists g, recorderRef s' = Some (mkRec rs_recording g false))
  /\ recIntervalRef s' = Some n /\ recordTimerRef s' = Some (n + 1)
  /\ timer_ids s' = [n; n + 1]
  /\ recordedChunksRef s' = [].
Proof.
  intros Ht Ha H0 Hk. cbv zeta.
  destruct (env_run_countdown alive sz j n c k s Ha Ht H0 Hk)
    as (_ & T2 & T3 & T4 & T5 & T6 & T7).
  unfold timer_ids. rewrite T2. repeat split; try assumption.
  by eexists.
Qed.

Lemma recording_counts_ticks_witness :
  recTime (env_run (fun _ => true) 5 42 just_started) = 42.
Proof.
  destruct (recording_counts_ticks (fun _ => true) 5 1 0 0 42 just_started)
    as (H1 & _);
    [ vm_compute; repeat apply conj; reflexivity | reflexivity | lia
    | unfold RECORD_LIMIT_SEC; lia | ].
  exact H1.
Defined.

Lemma stopRecording_stopping n c k s :
  ticking n c k s -> n ≠ 0 -> n + 1 ≠ 0 ->
  stopping (1000 * k) (stopRecording s).
Proof.
  intros (H1 & H2 & H3 & H4 & H5 & H6 & H7) Hn Hn'.
  pose proof (stopRecording_session n (n + 1) s _ _ H5 H6 Hn Hn' H4) as Hs.
  rewrite H2, both_cancelled, H7 in Hs.
  apply session_view_inv in Hs as (S1 & S2 & S3 & S4 & S5 & S6 & S7).
  by repeat apply conj.
Qed.

(** X3.  Stopping by hand: when the global stop button is pressed [k]
    seconds into a session, the recorder's stop event that follows
    publishes a blob with exactly the media gathered so far (or an empty
    one if the recorder hands over no data), leaves no timer behind and
    shows the save panel. *)
Theorem stop_by_hand_delivers (n c k sz : Z) (s : studio) :
  ticking n c k s -> isRecording s = true ->
  n ≠ 0 -> n + 1 ≠ 0 -> 0 <= k < RECORD_LIMIT_SEC ->
  let s' := env_stop_event sz (handleGlobalStop s) in
  delivered s'
  /\ pendingRecordedBlob s'
     = Some (mkBlob (if 0 <? sz then [mkChunk sz (1000 * k)] else [])
               "video/webm").
Proof.
  intros Ht Hr Hn Hn' Hk. cbv zeta.
  unfold handleGlobalStop. rewrite Hr.
  pose proof (stopRecording_stopping n c k s Ht Hn Hn') as Hs.
  split.
  - apply (stop_event_delivers (1000 * k)); [done|unfold RECORD_LIMIT_SEC in *; lia].
  - apply (stop_event_view (1000 * k) sz) in Hs.
    by apply outcome_view_inv in Hs as (_ & _ & _ & _ & H5 & _).
Qed.

Lemma stop_by_hand_delivers_witness :
  let s := env_run (fun _ => true) 5 42 just_started in
  let s' := env_stop_event 5 (handleGlobalStop s) in
  delivered s'
  /\ pendingRecordedBlob s' = Some (mkBlob [mkChunk 5 42000] "video/webm").
Proof.
  apply (stop_by_hand_delivers 1 0 42 5);
    [ vm_compute; repeat apply conj; reflexivity | reflexivity | lia | lia
    | unfold RECORD_LIMIT_SEC; lia ].
Defined.

(** ** Provenance codec *)

Section codec_facts.
Variable JSON_parse : string -> option json.

Lemma payload_shape_spec (obj : json) :
  payload_shape obj = true <->
  exists (m vols : gmap string json) (i c : string) (b sm ms : num),
    obj = JObj m
    /\ m !! "id" = Some (JStr i) /\ String.prefix "gw-" i = true
    /\ m !! "createdAt" = Some (JStr c)
    /\ m !! "volumes" = Some (JObj vols)
    /\ vols !! "big" = Some (JNum b)
    /\ vols !! "small" = Some (JNum sm)
    /\ vols !! "master" = Some (JNum ms).
Proof.
  split.
  - unfold payload_shape. destruct obj as [| | | | |m]; cbn; try done.
    1-3: by repeat case_match.
    destruct (m !! "id") as [[| | |i| |]|] eqn:Ei; cbn; try done.
    destruct (String.prefix "gw-" i) eqn:Ep; cbn; [|done].
    destruct (m !! "createdAt") as [[| | |c| |]|] eqn:Ec; cbn; try done.
    destruct (m !! "volumes") as [[|vb|vn|vs|va|vols]|] eqn:Ev; cbn; try done.
    1-3: by repeat case_match.
    destruct (vols !! "big") as [[| |b| | |]|] eqn:Eb; cbn; try done.
    destruct (vols !! "small") as [[| |sm| | |]|] eqn:Es; cbn; try done.
    destruct (vols !! "master") as [[| |ms| | |]|] eqn:Em; cbn; try done.
    intros _. by exists m, vols, i, c, b, sm, ms.
  - intros (m & vols & i & c & b & sm & ms & -> & Ei & Ep & Ec & Ev & Eb & Es & Em).
    unfold payload_shape. cbn. rewrite Ei, Ec, Ev. cbn. rewrite Ep, Eb, Es, Em.
    reflexivity.
Qed.

End codec_facts.

(** The first element of a list that passes a test. *)
Lemma find_first {A} (P : A -> bool) (l : list A) (x : A) :
  List.find P l = Some x <->
  exists before after,
    l = before ++ x :: after
    /\ Forall (fun c => P c = false) before /\ P x = true.
Proof.
  induction l as [|y l IH]; cbn.
  - split; [done|]. intros (before & after & E & _). by destruct before.
  - destruct (P y) eqn:Ey.
    + split.
      * intros [= ->]. by exists [], l.
      * intros (before & after & E & Hb & Hx).
        destruct before as [|z before]; [by injection E as ->|].
        injection E as -> _. apply Forall_cons in Hb as [Hz _]. congruence.
    + rewrite IH. split.
      * intros (before & after & -> & Hb & Hx).
        exists (y :: before), after.
        split; [done|]. split; [by constructor|done].
      * intros (before & after & E & Hb & Hx).
        destruct before as [|z before]; [injection E as -> _; congruence|].
        injection E as -> ->. apply Forall_cons in Hb as [_ Hb].
        by exists before, after.
Qed.

Lemma find_nothing {A} (P : A -> bool) (l : list A) :
  List.find P l = None <-> Forall (fun c => P c = false) l.
Proof.
  induction l as [|y l IH]; cbn; [by split|].
  destruct (P y) eqn:Ey.
  - split; [done|]. intros [? _]%Forall_cons. congruence.
  - rewrite IH. split; [by constructor|]. by intros [_ ?]%Forall_cons.
Qed.

Section codec_thms.
Variable JSON_parse : string -> option json.

(** X4.  [isGoodwillsQRPayload] answers with a truthy value exactly for a
    text that parses to an object (not an array) whose own [id] is a string
    starting with [gw-], whose [createdAt] is a string and whose [volumes]
    is an object with numbers under [big], [small] and [master]; a text
    that does not parse is rejected, not an error.  Nothing is asked of [v]
    or [title], and further properties are ignored. *)
Theorem isGoodwillsQRPayload_accepts_iff (txt : string) :
  isGoodwillsQRPayload JSON_parse txt = true <->
  exists (m vols : gmap string json) (i c : string) (b sm ms : num),
    JSON_parse txt = Some (JObj m)
    /\ m !! "id" = Some (JStr i) /\ String.prefix "gw-" i = true
    /\ m !! "createdAt" = Some (JStr c)
    /\ m !! "volumes" = Some (JObj vols)
    /\ vols !! "big" = Some (JNum b)
    /\ vols !! "small" = Some (JNum sm)
    /\ vols !! "master" = Some (JNum ms).
Proof.
  unfold isGoodwillsQRPayload. destruct (JSON_parse txt) as [obj|].
  - rewrite payload_shape_spec. split.
    + intros (m & vols & i & c & b & sm & ms & -> & H). by exists m, vols, i, c, b, sm, ms.
    + intros (m & vols & i & c & b & sm & ms & [= ->] & H). by exists m, vols, i, c, b, sm, ms.
  - split; [done|]. by intros (m & vols & i & c & b & sm & ms & [=] & _).
Qed.

Lemma accepted_parses code :
  accepted JSON_parse code = true ->
  exists d j, code = Some d /\ d ≠ "" /\ JSON_parse d = Some j
              /\ payload_shape j = true.
Proof.
  destruct code as [d|]; [|done]. cbn. intros [Hd Hi]%andb_true_iff.
  unfold isGoodwillsQRPayload in Hi.
  destruct (JSON_parse d) as [j|] eqn:Ej; [|done].
  exists d, j. repeat split; try done.
  intros ->. done.
Qed.

Lemma try_code_spec code otherwise :
  try_code JSON_parse code otherwise
  = if accepted JSON_parse code
    then Some (found JSON_parse (default "" code))
    else otherwise.
Proof. by destruct code. Qed.

(** The loop on a frame that has pixels, when every seek completes. *)
Lemma scan_frames_spec p ts :
  crop_empty p = false -> Forall (fun t => seeks p t = true) ts ->
  scan_frames JSON_parse p ts
  = Some match List.find (accepted JSON_parse)
                 (flat_map (fun t => [crop_code p t; full_code p t]) ts) with
         | Some code => found JSON_parse (default "" code)
         | None => Ok scan_none
         end.
Proof.
  intros Hc Hs. induction Hs as [|t ts Ht Hs IH]; [done|]. cbn.
  rewrite Ht, Hc. cbn [negb]. rewrite !try_code_spec, IH.
  by destruct (accepted JSON_parse (crop_code p t)),
              (accepted JSON_parse (full_code p t)).
Qed.

(** Whatever the loop answers with has passed the check. *)
Lemma scan_frames_found p ts text payload :
  scan_frames JSON_parse p ts = Some (Ok (scan_found text payload)) ->
  JSON_parse text = Some payload /\ payload_shape payload = true.
Proof.
  induction ts as [|t ts IH]; [done|]. cbn.
  destruct (seeks p t); cbn [negb]; [|done].
  destruct (crop_empty p); [done|].
  rewrite !try_code_spec.
  assert (F : forall code,
            accepted JSON_parse code = true ->
            Some (found JSON_parse (default "" code))
            = Some (Ok (scan_found text payload)) ->
            JSON_parse text = Some payload /\ payload_shape payload = true).
  { intros code Ha. apply accepted_parses in Ha as (d & j & -> & _ & Ej & Hj).
    change (default "" (Some d)) with d. unfold found. rewrite Ej.
    by intros [= <- <-]. }
  destruct (accepted JSON_parse (crop_code p t)) eqn:E1; [by apply F|].
  destruct (accepted JSON_parse (full_code p t)) eqn:E2; [by apply F|].
  exact IH.
Qed.

(** Frames in which nothing is accepted are passed over. *)
Lemma scan_frames_skip p seen rest :
  crop_empty p = false ->
  Forall (fun t => seeks p t = true) seen ->
  Forall (fun c => accepted JSON_parse c = false)
    (flat_map (fun t => [crop_code p t; full_code p t]) seen) ->
  scan_frames JSON_parse p (seen ++ rest) = scan_frames JSON_parse p rest.
Proof.
  intros Hc Hs. induction Hs as [|t ts Ht Hs IH]; [done|].
  cbn [flat_map app]. intros [E1 [E2 Hn]%Forall_cons]%Forall_cons.
  cbn. rewrite Ht, Hc. cbn [negb]. rewrite !try_code_spec, E1, E2.
  by apply IH.
Qed.

(** C8.  The scan accepts a decoded text exactly if it is not empty and
    parses to an object whose [id] is a string that starts with [gw-],
    whose [createdAt] is a string and whose [volumes] is an object with
    numbers under [big], [small] and [master].  On a file whose metadata
    loads, with a 2d context and a frame whose top-left crop is not empty,
    the scan, when its seeks complete, ends without an exception: it
    returns the first text it accepts, in the order crop then full frame
    at each sampled position, with its parsed value, and [ok: false] when
    it accepts none.  It stops at the frame in which it accepts a text: it
    returns then, whether or not a seek to a later position would
    complete. *)
Theorem scan_accepts_first_match (url : string) (p : probe) :
  loads p = true -> context2d p = true -> crop_empty p = false ->
  (forall code,
     accepted JSON_parse code = true <->
     exists (d : string) (m vols : gmap string json) (i c : string)
            (b sm ms : num),
       code = Some d /\ d ≠ ""
       /\ JSON_parse d = Some (JObj m)
       /\ m !! "id" = Some (JStr i) /\ String.prefix "gw-" i = true
       /\ m !! "createdAt" = Some (JStr c)
       /\ m !! "volumes" = Some (JObj vols)
       /\ vols !! "big" = Some (JNum b)
       /\ vols !! "small" = Some (JNum sm)
       /\ vols !! "master" = Some (JNum ms))
  /\ (Forall (fun t => seeks p t = true) (times (vduration p)) ->
      exists r,
        (scanGoodwillsQrFromFile JSON_parse url p).2 = Some (Ok r)
        /\ (forall d j,
              r = scan_found d j <->
              exists before after,
                candidates p = before ++ Some d :: after
                /\ Forall (fun c => accepted JSON_parse c = false) before
                /\ accepted JSON_parse (Some d) = true
                /\ JSON_parse d = Some j)
        /\ (r = scan_none <->
            Forall (fun c => accepted JSON_parse c = false) (candidates p)))
  /\ (forall seen t later d,
        times (vduration p) = seen ++ t :: later ->
        Forall (fun t => seeks p t = true) (seen ++ [t]) ->
        Forall (fun c => accepted JSON_parse c = false)
          (flat_map (fun t => [crop_code p t; full_code p t]) seen) ->
        List.find (accepted JSON_parse) [crop_code p t; full_code p t]
        = Some (Some d) ->
        exists j,
          JSON_parse d = Some j
          /\ (scanGoodwillsQrFromFile JSON_parse url p).2
             = Some (Ok (scan_found d j))).
Proof.
  intros Hl Hc Hp. split; [|split].
  - intros code. split.
    + intros Ha. pose proof Ha as (d & j & -> & Hd & Ej & Hj)%accepted_parses.
      apply payload_shape_spec in Hj
        as (m & vols & i & c & b & sm & ms & -> & H).
      by exists d, m, vols, i, c, b, sm, ms.
    + intros (d & m & vols & i & c & b & sm & ms & -> & Hd & Ej & H).
      cbn. apply andb_true_iff. split.
      * apply negb_true_iff. by apply String.eqb_neq.
      * unfold isGoodwillsQRPayload. rewrite Ej. apply payload_shape_spec.
        by exists m, vols, i, c, b, sm, ms.
  - intros Hs. unfold scanGoodwillsQrFromFile. cbv zeta. cbn [snd].
    rewrite Hl, Hc. cbn [negb]. rewrite scan_frames_spec by done.
    fold (candidates p).
    destruct (List.find (accepted JSON_parse) (candidates p)) as [code|] eqn:Ef.
    + pose proof Ef as Hfirst.
      apply find_some in Ef as [_ Ha].
      apply accepted_parses in Ha as (d & j & -> & _ & Ej & _).
      change (default "" (Some d)) with d. unfold found. rewrite Ej.
      eexists. split; [done|]. split.
      * intros d' j'. split.
        -- intros [= <- <-]. apply find_first in Hfirst
             as (before & after & E & Hb & Hx).
           by exists before, after.
        -- intros (before & after & E & Hb & Hx & Ej').
           assert (F : List.find (accepted JSON_parse) (candidates p)
                       = Some (Some d')).
           { apply find_first. by exists before, after. }
           rewrite Hfirst in F. injection F as <-. congruence.
      * split; [done|]. intros F%find_nothing. congruence.
    + exists scan_none. split; [done|]. split.
      * intros d j. split; [done|].
        intros (before & after & E & Hb & Hx & _).
        assert (F : List.find (accepted JSON_parse) (candidates p)
                    = Some (Some d)).
        { apply find_first. by exists before, after. }
        congruence.
      * split; [|done]. intros _. by apply find_nothing.
  - intros seen t later d Et [Hseen [Ht _]%Forall_cons]%Forall_app Hnone Hd.
    assert (Ha : accepted JSON_parse (Some d) = true)
      by (by apply find_some in Hd as [_ ?]).
    apply accepted_parses in Ha as (d' & j & [= <-] & _ & Ej & _).
    exists j. split; [done|].
    unfold scanGoodwillsQrFromFile. cbv zeta. cbn [snd].
    rewrite Hl, Hc, Et. cbn [negb]. rewrite scan_frames_skip by done.
    cbn. rewrite Ht, Hp. cbn [negb]. rewrite !try_code_spec.
    cbn in Hd. unfold found.
    destruct (accepted JSON_parse (crop_code p t)).
    + injection Hd as ->. cbn. by rewrite Ej.
    + destruct (accepted JSON_parse (full_code p t)); [|done].
      injection Hd as ->. cbn. by rewrite Ej.
Qed.


(** X5.  [scanGoodwillsQrFromFile] makes one object URL for itself and
    revokes it when it ends, however it ends.  It throws when the file
    does not load and, at the first sample, when the frame is a single
    pixel wide or high, because the crop it asks for is then empty;
    without a 2d context it answers [ok: false].  It ends as soon as the
    file has failed to load or the last seek it makes has completed; when
    a seek never completes it never ends, and its URL is never revoked. *)
Theorem scan_ends_and_revokes (url : string) (p : probe) :
  let scan := scanGoodwillsQrFromFile JSON_parse url p in
  scan.1 = CreateObjectURL url
           :: (if scan.2 is Some _ then [RevokeObjectURL url] else [])
  /\ (loads p = false -> scan.2 = Some (Err "Video load error"))
  /\ (loads p = true -> context2d p = false -> scan.2 = Some (Ok scan_none))
  /\ (Forall (fun t => seeks p t = true) (times (vduration p)) ->
      is_Some scan.2)
  /\ (loads p = true -> context2d p = true ->
      forall t ts, times (vduration p) = t :: ts ->
      (seeks p t = false -> scan.2 = None)
      /\ (seeks p t = true -> crop_empty p = true ->
          scan.2 = Some (Err "IndexSizeError"))).
Proof.
  unfold scanGoodwillsQrFromFile. cbv zeta. cbn [fst snd].
  split; [done|]. split; [by intros ->|]. split; [by intros -> ->|].
  split.
  - intros Hs. destruct (loads p); cbn [negb]; [|done].
    destruct (context2d p); cbn [negb]; [|done].
    induction Hs as [|t ts Ht Hs IH]; [done|]. cbn. rewrite Ht. cbn [negb].
    destruct (crop_empty p); [done|]. rewrite !try_code_spec.
    by destruct (accepted JSON_parse (crop_code p t)),
                (accepted JSON_parse (full_code p t)).
  - intros -> -> t ts ->. cbn. split.
    + by intros ->.
    + by intros -> ->.
Qed.


End codec_thms.

Lemma scan_accepts_first_match_witness :
  let j := JObj (<["id" := JStr "gw-1"]>
                 (<["createdAt" := JStr "now"]>
                  (<["volumes" :=
                       JObj (<["big" := JNum one]>
                             (<["small" := JNum one]>
                              (<["master" := JNum one]> ∅)))]> ∅))) in
  let parse := fun txt : string =>
    if String.eqb txt "ok" then Some j else None in
  let p := mkProbe true true 1280 720 (ratio 1 1)
             (fun t => ltb t (ratio 7 10))
             (fun _ => Some "noise")
             (fun t => if ltb t (ratio 1 2) then None else Some "ok") in
  (scanGoodwillsQrFromFile parse "blob:0" p).2
  = Some (Ok (scan_found "ok" j)).
Proof.
  intros j parse p.
  destruct (scan_accepts_first_match parse "blob:0" p)
    as (_ & _ & Hstops);
    [ reflexivity | reflexivity | vm_compute; reflexivity | ].
  destruct (Hstops [ratio 15 100; ratio 35 100] (ratio 6 10) [ratio 9 10] "ok")
    as (j' & Ej & Hr).
  - vm_compute. reflexivity.
  - vm_compute. repeat constructor.
  - vm_compute. repeat constructor.
  - vm_compute. reflexivity.
  - rewrite Hr. injection Ej as <-. reflexivity.
Defined.

Lemma scan_ends_and_revokes_witness :
  let p := mkProbe true true 1280 720 (ratio 1 1) (fun _ => false)
             (fun _ => None) (fun _ => None) in
  (scanGoodwillsQrFromFile (fun _ => None) "blob:0" p).1
  = [CreateObjectURL "blob:0"]
  /\ (scanGoodwillsQrFromFile (fun _ => None) "blob:0" p).2 = None.
Proof.
  intros p.
  destruct (scan_ends_and_revokes (fun _ => None) "blob:0" p)
    as (Hu & _ & _ & _ & H).
  destruct (H eq_refl eq_refl (ratio 15 100)
              [ratio 35 100; ratio 6 10; ratio 9 10]) as [Hn _];
    [vm_compute; reflexivity|].
  specialize (Hn eq_refl). split; [|exact Hn].
  rewrite Hu, Hn. reflexivity.
Defined.

(** C8, as the claim has it, fails: a file that is no video does not
    load; no frame of it is sampled, so none matches, and the scan throws
    [Video load error] where the claim has it return the not-found
    result. *)
Lemma scan_of_unloadable_file_throws :
  let p := mkProbe false true 0 0 NaN (fun _ => true)
             (fun _ => None) (fun _ => None) in
  Forall (fun c => accepted (fun _ => None) c = false) (candidates p)
  /\ (scanGoodwillsQrFromFile (fun _ => None) "blob:0" p).2
     = Some (Err "Video load error")
  /\ (scanGoodwillsQrFromFile (fun _ => None) "blob:0" p).2
     <> Some (Ok scan_none).
Proof.
  cbv zeta. split; [|split; [reflexivity|discriminate]].
  vm_compute. repeat constructor.
Qed.



Lemma prefix_gw (x : string) : String.prefix "gw-" ("gw-" +:+ x) = true.
Proof.
  change ("gw-" +:+ x) with (String "g" (String "w" (String "-" x))).
  cbn. by destruct x.
Qed.

Lemma json_of_payload_shape (p : QrPayload) :
  String.prefix "gw-" (QrPayload.id p) = true ->
  isFinite (QrPayload.big (QrPayload.vols p)) = true ->
  isFinite (QrPayload.small (QrPayload.vols p)) = true ->
  isFinite (QrPayload.master (QrPayload.vols p)) = true ->
  payload_shape (json_of_payload p) = true.
Proof.
  intros Hp Hb Hs Hm. apply payload_shape_spec.
  unfold json_of_payload, json_of_num. rewrite Hb, Hs, Hm.
  eexists _, _, _, _, _, _, _. split; [reflexivity|].
  repeat split; first [exact Hp | by simplify_map_eq].
Qed.

Lemma arm_triggers_qrPayloadRef s :
  qrPayloadRef (arm_triggers s) = qrPayloadRef s.
Proof.
  unfold arm_triggers, id_truthy, clearInterval, clearTimeout.
  destruct (recIntervalRef s) as [i|] eqn:E1; [destruct (i =? 0)|];
    cbn; destruct (recordTimerRef s) as [j|] eqn:E2; try destruct (j =? 0);
    cbn; rewrite ?E2; cbn; try destruct (j =? 0); reflexivity.
Qed.

(** X7.  The payload a recording burns into its frames is one the scan
    accepts: when [startRecording] passes its guards and the QR code can be
    drawn, it stores a payload whose JSON form has the shape
    [isGoodwillsQRPayload] asks for, provided the three fader values are
    finite numbers. *)
Theorem recorded_payload_is_accepted (iso : string) (s : studio) :
  is_Some (audioCtxRef s) -> is_Some (masterGainRef s) -> is_Some (bgRef s) ->
  canvas2d (env s) = true ->
  isFinite (bgVol s) = true -> isFinite (muVol s) = true ->
  isFinite (masterVol s) = true ->
  exists p,
    qrPayloadRef (startRecording iso true s) = Some p
    /\ payload_shape (json_of_payload p) = true.
Proof.
  intros H1 H2 H3 H4 Hb Hm Hv.
  rewrite startRecording_phases, arm_triggers_qrPayloadRef by assumption.
  destruct H1 as [ctx E1].
  unfold begin_capture, connect.
  cbn [audioCtxRef set_recordAudioDestRef set_qrCanvasRef set_qrPayloadRef
       set_canvasRef].
  rewrite E1. eexists. split; [reflexivity|].
  apply json_of_payload_shape; [apply prefix_gw|exact Hb|exact Hm|exact Hv].
Qed.

Lemma recorded_payload_is_accepted_witness :
  exists p,
    qrPayloadRef
      (startRecording "2024-01-01T00:00:00.000Z" true
         (state_of (ensureAudioContext initial))) = Some p
    /\ payload_shape (json_of_payload p) = true.
Proof.
  apply recorded_payload_is_accepted;
    first [ by eexists | reflexivity ].
Defined.

(** ** Positions on a looping track *)

Lemma trunc_bounds (q : Qc) :
  (inject_Z (trunc q) - 1 < q /\ q < inject_Z (trunc q) + 1)%Q
  /\ ((0 <= q)%Q -> (inject_Z (trunc q) <= q)%Q)
  /\ ((q < 0)%Q -> (q <= inject_Z (trunc q))%Q).
Proof.
  unfold trunc.
  pose proof (Qfloor_le q) as F1. pose proof (Qlt_floor q) as F2.
  pose proof (Qle_ceiling q) as C1. pose proof (Qceiling_lt q) as C2.
  rewrite inject_Z_plus in F2. unfold Z.sub in C2.
  rewrite inject_Z_plus, inject_Z_opp in C2.
  change (inject_Z 1) with 1%Q in *.
  destruct (Qle_bool 0 q) eqn:E.
  - apply Qle_bool_iff in E. repeat split; try lra.
  - assert (q < 0)%Q.
    { apply Qnot_le_lt. intros H. apply Qle_bool_iff in H. congruence. }
    repeat split; try lra.
Qed.

Lemma this_plus (a b : Qc) : (this (a + b)%Qc == this a + this b)%Q.
Proof. apply Qred_correct. Qed.
Lemma this_opp (a : Qc) : (this (- a)%Qc == - this a)%Q.
Proof. apply Qred_correct. Qed.
Lemma this_mult (a b : Qc) : (this (a * b)%Qc == this a * this b)%Q.
Proof. apply Qred_correct. Qed.
Lemma this_inv (a : Qc) : (this (/ a)%Qc == / this a)%Q.
Proof. apply Qred_correct. Qed.
Lemma this_Q2Qc (q : Q) : (this (Q2Qc q) == q)%Q.
Proof. apply Qred_correct. Qed.

(** [x % y] for a positive [y]: the remainder lies strictly between [-y]
    and [y], has the sign of [x], and differs from [x] by a whole multiple
    of [y]. *)
Lemma rem_bounds (x y : Qc) :
  (0 < y)%Qc ->
  let z := trunc (x / y)%Qc in
  let m := (x - y * Q2Qc (inject_Z z))%Qc in
  (- y < m)%Qc /\ (m < y)%Qc
  /\ ((0 <= x)%Qc -> (0 <= m)%Qc) /\ ((x <= 0)%Qc -> (m <= 0)%Qc).
Proof.
  intros Hy z m.
  assert (Hm : (this m == this x - this y * inject_Z z)%Q).
  { unfold m, Qcminus. rewrite this_plus, this_opp, this_mult, this_Q2Qc. ring. }
  assert (Hq : (this (x / y)%Qc * this y == this x)%Q).
  { unfold Qcdiv. rewrite this_mult, this_inv. field.
    unfold Qclt in Hy. change (this 0%Qc) with 0%Q in Hy. lra. }
  destruct (trunc_bounds (x / y)%Qc) as ((B1 & B2) & B3 & B4).
  fold z in B1, B2, B3, B4.
  unfold Qclt, Qcle in *. rewrite ?this_opp, Hm.
  change (this 0%Qc) with 0%Q in *.
  set (q := this (x / y)%Qc) in *. set (a := this x) in *. set (b := this y) in *.
  set (i := inject_Z z) in *.
  assert (E : (a - b * i == b * (q - i))%Q) by (rewrite <- Hq; ring).
  rewrite E. clear E Hm m.
  assert (P1 : forall u, (0 <= u -> 0 <= b * u)%Q).
  { intros u Hu. apply Qmult_le_0_compat; lra. }
  assert (P2 : forall u, (0 < u -> 0 < b * u)%Q).
  { intros u Hu. apply Qmult_lt_0_compat; lra. }
  assert (Hsign : (q < 0 -> a < 0)%Q).
  { intros Hn. pose proof (P2 (- q)%Q ltac:(lra)). lra. }
  assert (Hsign' : (0 < q -> 0 < a)%Q).
  { intros Hn. pose proof (P2 q Hn). lra. }
  repeat split.
  - pose proof (P2 (q - i + 1)%Q ltac:(lra)). lra.
  - pose proof (P2 (1 - (q - i))%Q ltac:(lra)). lra.
  - intros Ha. assert (0 <= q)%Q.
    { destruct (Qlt_le_dec q 0) as [Hn|]; [|done]. specialize (Hsign Hn). lra. }
    specialize (B3 H). pose proof (P1 (q - i)%Q ltac:(lra)). lra.
  - intros Ha. destruct (Qlt_le_dec q 0) as [Hn|Hp].
    + specialize (B4 Hn). pose proof (P1 (i - q)%Q ltac:(lra)). lra.
    + destruct (Qlt_le_dec 0 q) as [Hn|Hz]; [specialize (Hsign' Hn); lra|].
      assert (Hq0 : (q == 0)%Q) by lra.
      assert (Hi : (i <= 0)%Q) by (specialize (B3 Hp); lra).
      pose proof (P1 (q - i)%Q ltac:(lra)).
      assert (z = 0%Z).
      { unfold z, trunc. fold q. rewrite (proj2 (Qle_bool_iff 0 q) Hp).
        rewrite (Qfloor_comp q 0 Hq0). reflexivity. }
      unfold i. rewrite H0. change (inject_Z 0) with 0%Q. lra.
Qed.

Lemma Q2Qc_inject_pred (z : Z) :
  Q2Qc (inject_Z (z - 1)) = (Q2Qc (inject_Z z) - 1)%Qc.
Proof.
  apply Qc_is_canon. unfold Qcminus.
  rewrite this_plus, this_opp, !this_Q2Qc. unfold Z.sub.
  rewrite inject_Z_plus, inject_Z_opp. reflexivity.
Qed.

Lemma positive_duration (y : Qc) :
  (0 < y)%Qc -> (Fin y <=? zero)%js = false /\ Qc_eq_bool y 0 = false.
Proof.
  intros Hy. split.
  - unfold leb, ltb, zero, ratio. change (Q2Qc (0 # 1)) with 0%Qc.
    destruct (0 ?= y)%Qc eqn:E; [|done|].
    + apply Qceq_alt in E. subst y. by apply Qclt_not_eq in Hy.
    + apply Qcgt_alt in E. pose proof (Qclt_trans _ _ _ Hy E) as F.
      by apply Qclt_not_eq in F.
  - destruct (Qc_eq_bool y 0) eqn:E; [|done].
    apply Qc_eq_bool_correct in E. rewrite E in Hy.
    by apply Qclt_not_eq in Hy.
Qed.

Lemma wrapTime_finite (x y : Qc) :
  (0 < y)%Qc ->
  exists (r : Qc) (k : Z),
    wrapTime (Fin x) (Fin y) = Fin r
    /\ (0 <= r)%Qc /\ (r < y)%Qc
    /\ x = (r + y * Q2Qc (inject_Z k))%Qc.
Proof.
  intros Hy. destruct (positive_duration y Hy) as [H1 H2].
  destruct (rem_bounds x y Hy) as (B1 & B2 & _).
  unfold wrapTime. rewrite H1. cbn [isFinite negb orb rem]. rewrite H2.
  set (z := trunc (x / y)%Qc) in *.
  set (m := (x - y * Q2Qc (inject_Z z))%Qc) in *.
  cbn [ltb add zero ratio]. change (Q2Qc (0 # 1)) with 0%Qc.
  destruct (m ?= 0)%Qc eqn:E.
  - exists m, z. apply Qceq_alt in E. repeat split; try done.
    + rewrite E. apply Qcle_refl.
    + unfold m. ring.
  - exists (m + y)%Qc, (z - 1)%Z. apply Qclt_alt in E. repeat split.
    + unfold Qcle, Qclt in *. rewrite this_plus. rewrite this_opp in B1.
      change (this 0%Qc) with 0%Q in *. lra.
    + unfold Qcle, Qclt in *. rewrite this_plus.
      change (this 0%Qc) with 0%Q in *. lra.
    + rewrite Q2Qc_inject_pred. unfold m. ring.
  - exists m, z. apply Qcgt_alt in E. repeat split; try done.
    + apply Qclt_le_weak. exact E.
    + unfold m. ring.
Qed.

(** X8.  [wrapTime] always yields a position on the track.  With a
    duration that is not a finite positive number the result is 0 whatever
    the position, and a position that is not finite gives [NaN].  For a
    finite positive duration, a position that is not negative is reduced
    by the remainder operator alone, which is exact: the result lies in
    [0, dur) and differs from the position by a whole number of durations.
    To the remainder of a negative position the source adds the duration;
    that sum is rounded in a double and can reach the duration itself, so
    the bound stated for that case is the closed one, [0 <= r <= dur]. *)
Theorem wrapTime_range :
  (forall t d, isFinite d = false \/ (d <=? zero)%js = true ->
     wrapTime t d = zero)
  /\ (forall t y, isFinite t = false -> (0 < y)%Qc ->
        wrapTime t (Fin y) = NaN)
  /\ (forall x y : Qc, (0 < y)%Qc -> (0 <= x)%Qc ->
        exists (r : Qc) (k : Z),
          wrapTime (Fin x) (Fin y) = Fin r
          /\ (0 <= r)%Qc /\ (r < y)%Qc
          /\ x = (r + y * Q2Qc (inject_Z k))%Qc)
  /\ (forall x y : Qc, (0 < y)%Qc -> (x < 0)%Qc ->
        exists r : Qc,
          wrapTime (Fin x) (Fin y) = Fin r /\ (0 <= r)%Qc /\ (r <= y)%Qc).
Proof.
  split; [|split; [|split]].
  - intros t d [H|H]; unfold wrapTime; rewrite H; [done|].
    by rewrite orb_true_r.
  - intros t y Ht Hy. destruct (positive_duration y Hy) as [H1 H2].
    unfold wrapTime. rewrite H1. cbn [isFinite negb orb].
    by destruct t.
  - intros x y Hy _. apply wrapTime_finite, Hy.
  - intros x y Hy _.
    destruct (wrapTime_finite x y Hy) as (r & k & E & H0 & H1 & _).
    exists r. split; [exact E|]. split; [exact H0|].
    by apply Qclt_le_weak.
Qed.

(** ** Digest helper *)

Lemma append_empty_r (x : string) : x +:+ "" = x.
Proof.
  induction x as [|c x IH]; [done|].
  change (String c x +:+ "") with (String c (x +:+ "")). by rewrite IH.
Qed.

Lemma length_append (x y : string) :
  String.length (x +:+ y) = (String.length x + String.length y)%nat.
Proof.
  induction x as [|c x IH]; [done|].
  change (String c x +:+ y) with (String c (x +:+ y)). cbn. by rewrite IH.
Qed.

Lemma concat_empty_cons (x : string) (xs : list string) :
  String.concat "" (x :: xs) = x +:+ String.concat "" xs.
Proof.
  destruct xs as [|y ys]; cbn [String.concat]; [|reflexivity].
  by rewrite append_empty_r.
Qed.

Lemma hex_byte_round (b : Byte.byte) (r : string) :
  unhex (padStart (toString16 (Byte.to_N b)) 2 "0" +:+ r)
  = match unhex r with
    | Some bytes => Some (b :: bytes)
    | None => None
    end
  /\ String.length (padStart (toString16 (Byte.to_N b)) 2 "0") = 2%nat.
Proof. destruct b; split; reflexivity. Qed.

(** X9.  [hexFromBuffer] writes every byte as exactly two lowercase
    hexadecimal digits, so the text is twice as long as the buffer and
    reading it back two digits at a time gives the bytes again; in
    particular different buffers never give the same text. *)
Theorem hexFromBuffer_round_trip (buf : list Byte.byte) :
  String.length (hexFromBuffer buf) = (2 * length buf)%nat
  /\ unhex (hexFromBuffer buf) = Some buf
  /\ forall buf', hexFromBuffer buf' = hexFromBuffer buf -> buf' = buf.
Proof.
  assert (R : forall l, String.length (hexFromBuffer l) = (2 * length l)%nat
                        /\ unhex (hexFromBuffer l) = Some l).
  { induction l as [|b l [IH1 IH2]]; [done|].
    unfold hexFromBuffer in *. cbn [List.map]. rewrite concat_empty_cons.
    destruct (hex_byte_round b (String.concat ""
                (List.map (fun b => padStart (toString16 (Byte.to_N b)) 2 "0") l)))
      as [H1 H2].
    split.
    - rewrite length_append, H2, IH1. cbn [length]. lia.
    - by rewrite H1, IH2. }
  destruct (R buf) as [R1 R2]. repeat split; try done.
  intros buf' E. destruct (R buf') as [_ R3]. rewrite E, R2 in R3. congruence.
Qed.

(** ** My rituals and the mint flow *)

#[local] Set Warnings "-clear-no-such-hyp".

Lemma url_of_inj n m : url_of n = url_of m -> n = m.
Proof.
  unfold url_of. intros H. apply String.app_inj in H. by apply (inj pretty) in H.
Qed.

Lemma accounted_view a a' :
  url_view a' = url_view a -> urls_accounted a -> urls_accounted a'.
Proof.
  unfold url_view, urls_accounted, shown_urls. by intros [= -> -> -> ->].
Qed.

Lemma accounted_live a u :
  urls_accounted a -> u ∈ liveUrls a ->
  String.eqb u "" = false /\ u ≠ url_of (urlCounter a).
Proof.
  intros (_ & H & _) Hu. destruct (H u Hu) as (n & Hn & ->). split.
  - by apply String.eqb_neq.
  - intros E%url_of_inj. lia.
Qed.

Lemma shown_live a u :
  urls_accounted a ->
  selectedPackVideoUrl a = Some u \/ mintPreviewUrl a = Some u ->
  u ∈ liveUrls a.
Proof.
  intros (H1 & _) H. rewrite H1. unfold shown_urls.
  destruct H as [-> | ->]; set_solver.
Qed.

(** Dropping a preview: its URL, if any, is revoked. *)
Lemma drop_pack_url a a1 :
  urls_accounted a -> url_view a1 = url_view a ->
  urls_accounted
    (setSelectedPackVideoUrl None (revoke_if_set (selectedPackVideoUrl a) a1)).
Proof.
  intros Ha Hv. pose proof Ha as (H1 & H2 & H3).
  injection Hv as V1 V2 V3 V4. unfold shown_urls in H1.
  destruct (selectedPackVideoUrl a) as [u|] eqn:Eu.
  - pose proof (shown_live a u Ha (or_introl Eu)) as Hu.
    destruct (accounted_live a u Ha Hu) as [Hne _].
    unfold revoke_if_set, revokeObjectURL. rewrite Hne. cbn [negb].
    unfold urls_accounted, shown_urls. cbn. rewrite V2, V3, V4.
    split; [|split; [|done]].
    + rewrite H1. destruct (mintPreviewUrl a) as [w|] eqn:Ew; [|set_solver].
      assert (w ≠ u) by (intros ->; by eapply H3). set_solver.
    + intros w Hw. apply H2. set_solver.
  - unfold revoke_if_set, urls_accounted, shown_urls. cbn.
    rewrite V2, V3, V4. split; [exact H1|split; [exact H2|done]].
Qed.

Lemma drop_mint_url a a1 :
  urls_accounted a -> url_view a1 = url_view a ->
  urls_accounted
    (setMintPreviewUrl None (revoke_if_set (mintPreviewUrl a) a1)).
Proof.
  intros Ha Hv. pose proof Ha as (H1 & H2 & H3).
  injection Hv as V1 V2 V3 V4. unfold shown_urls in H1.
  destruct (mintPreviewUrl a) as [u|] eqn:Eu.
  - pose proof (shown_live a u Ha (or_intror Eu)) as Hu.
    destruct (accounted_live a u Ha Hu) as [Hne _].
    unfold revoke_if_set, revokeObjectURL. rewrite Hne. cbn [negb].
    unfold urls_accounted, shown_urls. cbn. rewrite V1, V3, V4.
    split; [|split; [|done]].
    + rewrite H1. destruct (selectedPackVideoUrl a) as [w|] eqn:Ew; [|set_solver].
      assert (w ≠ u) by (intros ->; by eapply H3). set_solver.
    + intros w Hw. apply H2. set_solver.
  - unfold revoke_if_set, urls_accounted, shown_urls. cbn.
    rewrite V1, V3, V4. split; [exact H1|split; [exact H2|done]].
Qed.

(** A fresh URL that is revoked at once leaves the books as they were. *)
Lemma temporary_url a :
  urls_accounted a ->
  urls_accounted (revokeObjectURL (url_of (urlCounter a)) (newObjectURL a).2).
Proof.
  intros Ha. pose proof Ha as (H1 & H2 & H3).
  unfold shown_urls in H1.
  unfold urls_accounted, shown_urls, revokeObjectURL, newObjectURL. cbn.
  split; [|split; [|done]].
  - rewrite <- H1.
    assert (url_of (urlCounter a) ∉ liveUrls a).
    { intros Hu. by destruct (accounted_live a _ Ha Hu). }
    set_solver.
  - intros w Hw. assert (Hw' : w ∈ liveUrls a) by set_solver.
    destruct (H2 w Hw') as (n & Hn & ->). exists n. split; [lia|done].
Qed.

(** A fresh URL that is shown in a free place is on the books. *)
Lemma new_pack_url a :
  urls_accounted a -> selectedPackVideoUrl a = None ->
  urls_accounted
    (setSelectedPackVideoUrl (Some (url_of (urlCounter a))) (newObjectURL a).2).
Proof.
  intros Ha E. pose proof Ha as (H1 & H2 & H3).
  unfold urls_accounted, shown_urls, newObjectURL in *. cbn. rewrite E in H1.
  split; [|split].
  - rewrite H1. set_solver.
  - intros w [->%elem_of_singleton|Hw]%elem_of_union.
    + exists (urlCounter a). split; [lia|done].
    + destruct (H2 w Hw) as (n & Hn & ->). exists n. split; [lia|done].
  - intros w [= <-] Hm.
    assert (Hu : url_of (urlCounter a) ∈ liveUrls a).
    { rewrite H1, Hm. set_solver. }
    destruct (H2 _ Hu) as (n & Hn & E'%url_of_inj). lia.
Qed.

Lemma new_mint_url a :
  urls_accounted a -> mintPreviewUrl a = None ->
  urls_accounted
    (setMintPreviewUrl (Some (url_of (urlCounter a))) (newObjectURL a).2).
Proof.
  intros Ha E. pose proof Ha as (H1 & H2 & H3).
  unfold urls_accounted, shown_urls, newObjectURL in *. cbn. rewrite E in H1.
  split; [|split].
  - rewrite H1. set_solver.
  - intros w [->%elem_of_singleton|Hw]%elem_of_union.
    + exists (urlCounter a). split; [lia|done].
    + destruct (H2 w Hw) as (n & Hn & ->). exists n. split; [lia|done].
  - intros w Hs [= <-].
    assert (Hu : url_of (urlCounter a) ∈ liveUrls a).
    { rewrite H1, Hs. set_solver. }
    destruct (H2 _ Hu) as (n & Hn & E'%url_of_inj). lia.
Qed.

Section books.

Implicit Types (a : library) (waiting : list suspended) (k : suspended).

Lemma kept_view a a' waiting :
  url_view a' = url_view a -> kept a waiting -> kept a' waiting.
Proof.
  unfold url_view, kept, urls_safe, harmless, shown_urls.
  by intros [= -> -> -> ->].
Qed.

Lemma safe_live a u :
  urls_safe a -> u ∈ liveUrls a ->
  String.eqb u "" = false /\ u ≠ url_of (urlCounter a).
Proof.
  intros (_ & H & _) Hu. destruct (H u Hu) as (n & Hn & ->). split.
  - by apply String.eqb_neq.
  - intros E%url_of_inj. lia.
Qed.

Lemma safe_shown a u :
  urls_safe a ->
  selectedPackVideoUrl a = Some u \/ mintPreviewUrl a = Some u ->
  u ∈ liveUrls a.
Proof.
  intros (H1 & _) H. apply H1. unfold shown_urls.
  destruct H as [-> | ->]; set_solver.
Qed.

Lemma kept_fewer a waiting i : kept a waiting -> kept a (delete i waiting).
Proof.
  intros [Hs Hh]. split; [done|]. intros k Hk. apply Hh.
  apply list_elem_of_lookup in Hk as [j Hj].
  destruct (decide (j < i)%nat).
  - rewrite list_lookup_delete_lt in Hj by done. by eapply list_elem_of_lookup_2.
  - rewrite list_lookup_delete_ge in Hj by lia. by eapply list_elem_of_lookup_2.
Qed.

(** What is live after [if (url) URL.revokeObjectURL(url)]. *)
Lemma revoke_if_set_live U a :
  liveUrls (revoke_if_set U a) ⊆ liveUrls a
  /\ (forall w, w ∈ liveUrls a -> U ≠ Some w -> w ∈ liveUrls (revoke_if_set U a))
  /\ selectedPackVideoUrl (revoke_if_set U a) = selectedPackVideoUrl a
  /\ mintPreviewUrl (revoke_if_set U a) = mintPreviewUrl a
  /\ urlCounter (revoke_if_set U a) = urlCounter a.
Proof.
  unfold revoke_if_set, revokeObjectURL.
  destruct U as [u|]; [destruct (String.eqb u "")|]; cbn; repeat split;
    try done; try set_solver.
Qed.

(** The mint preview is dropped by a handler that revokes [U], the preview
    of its render. *)
Lemma drop_mint_kept U a a1 waiting :
  kept a waiting -> url_view a1 = url_view a ->
  selectedPackVideoUrl a ≠ U \/ U = None ->
  kept (setMintPreviewUrl None (revoke_if_set U a1)) waiting.
Proof.
  intros [(S1 & S2 & S3) Hh] Hv HU.
  destruct (revoke_if_set_live U a1) as (L1 & L2 & L3 & L4 & L5).
  injection Hv as V1 V2 V3 V4. rewrite V1 in L3. rewrite V3 in L1, L2.
  rewrite V4 in L5. unfold shown_urls in S1.
  split; [split; [|split]|].
  - unfold shown_urls. cbn. rewrite L3.
    destruct (selectedPackVideoUrl a) as [w|] eqn:Ew; [|set_solver].
    assert (w ∈ liveUrls (revoke_if_set U a1)).
    { apply L2; [set_solver|]. destruct HU as [HU| ->]; congruence. }
    set_solver.
  - cbn. rewrite L5. intros u Hu. apply S2. by apply L1.
  - cbn. done.
  - intros k Hk. destruct (Hh k Hk) as [H1 H2]. split.
    + intros u Hu. cbn. rewrite L3, L5. by apply H1.
    + cbn. done.
Qed.

Lemma drop_pack_kept a a1 waiting :
  kept a waiting -> url_view a1 = url_view a ->
  kept (setSelectedPackVideoUrl None (revoke_if_set (selectedPackVideoUrl a) a1))
    waiting.
Proof.
  intros [(S1 & S2 & S3) Hh] Hv.
  destruct (revoke_if_set_live (selectedPackVideoUrl a) a1)
    as (L1 & L2 & L3 & L4 & L5).
  injection Hv as V1 V2 V3 V4. rewrite V2 in L4. rewrite V3 in L1, L2.
  rewrite V4 in L5. unfold shown_urls in S1.
  split; [split; [|split]|].
  - unfold shown_urls. cbn. rewrite L4.
    destruct (mintPreviewUrl a) as [w|] eqn:Ew; [|set_solver].
    assert (w ∈ liveUrls (revoke_if_set (selectedPackVideoUrl a) a1)).
    { apply L2; [set_solver|]. intros E. by eapply S3. }
    set_solver.
  - cbn. rewrite L5. intros u Hu. apply S2. by apply L1.
  - cbn. done.
  - intros k Hk. destruct (Hh k Hk) as [H1 H2]. split.
    + intros u Hu. cbn. rewrite L5. split; [by apply H1|done].
    + cbn. rewrite L4. done.
Qed.

(** A fresh URL: what it does to the books when it is shown nowhere, in
    the pack preview, or in the mint preview. *)
Lemma fresh_not_live a :
  urls_safe a -> url_of (urlCounter a) ∉ liveUrls a.
Proof. intros Hs Hu. by destruct (safe_live a _ Hs Hu). Qed.

Lemma counted_fresh a u :
  (exists n, (n < urlCounter a)%N /\ u = url_of n) ->
  u ≠ url_of (urlCounter a)
  /\ exists n, (n < N.succ (urlCounter a))%N /\ u = url_of n.
Proof.
  intros (n & Hn & ->). split; [intros E%url_of_inj; lia|].
  exists n. split; [lia|done].
Qed.

Lemma harmless_fresh a a' waiting :
  urls_safe a -> harmless a waiting ->
  urlCounter a' = N.succ (urlCounter a) ->
  (selectedPackVideoUrl a' = selectedPackVideoUrl a
   \/ selectedPackVideoUrl a' = Some (url_of (urlCounter a))) ->
  (mintPreviewUrl a' = mintPreviewUrl a
   \/ mintPreviewUrl a' = Some (url_of (urlCounter a))) ->
  harmless a' waiting.
Proof.
  intros Hs Hh Ec Ep Em k Hk. destruct (Hh k Hk) as [H1 H2]. split.
  - intros u Hu. destruct (H1 u Hu) as [Hn Hp].
    destruct (counted_fresh a u Hn) as [Hf Hn']. rewrite Ec. split; [done|].
    destruct Ep as [-> | ->]; congruence.
  - intros u Hu. destruct (H1 u (or_intror Hu)) as [Hn _].
    destruct (counted_fresh a u Hn) as [Hf _].
    destruct Em as [-> | ->]; [by apply H2|congruence].
Qed.

Lemma safe_counted_succ a (L : gset string) :
  urls_safe a -> L ⊆ {[url_of (urlCounter a)]} ∪ liveUrls a ->
  forall u, u ∈ L -> exists n, (n < N.succ (urlCounter a))%N /\ u = url_of n.
Proof.
  intros (_ & S2 & _) HL u Hu. apply HL in Hu.
  apply elem_of_union in Hu as [->%elem_of_singleton|Hw].
  - exists (urlCounter a). split; [lia|done].
  - destruct (S2 u Hw) as (n & Hn & ->). exists n. split; [lia|done].
Qed.

Lemma new_url_kept a waiting :
  kept a waiting -> kept (newObjectURL a).2 waiting.
Proof.
  intros [Hs Hh]. pose proof Hs as (S1 & S2 & S3). split.
  - split; [|split].
    + unfold shown_urls in *. cbn. set_solver.
    + cbn. by apply safe_counted_succ.
    + done.
  - apply (harmless_fresh a); auto.
Qed.

Lemma new_pack_kept a waiting :
  kept a waiting -> selectedPackVideoUrl a = None ->
  kept (setSelectedPackVideoUrl (Some (url_of (urlCounter a)))
          (newObjectURL a).2) waiting.
Proof.
  intros [Hs Hh] E. pose proof Hs as (S1 & S2 & S3). split.
  - split; [|split].
    + unfold shown_urls in *. cbn. rewrite E in S1. set_solver.
    + cbn. by apply safe_counted_succ.
    + cbn. intros u [= <-] Hm.
      apply (fresh_not_live a Hs). apply (safe_shown a); auto.
  - apply (harmless_fresh a); auto.
Qed.

Lemma new_mint_kept a waiting :
  kept a waiting -> mintPreviewUrl a = None ->
  kept (setMintPreviewUrl (Some (url_of (urlCounter a)))
          (newObjectURL a).2) waiting.
Proof.
  intros [Hs Hh] E. pose proof Hs as (S1 & S2 & S3). split.
  - split; [|split].
    + unfold shown_urls in *. cbn. rewrite E in S1. set_solver.
    + cbn. by apply safe_counted_succ.
    + cbn. intros u Hp [= <-].
      apply (fresh_not_live a Hs). apply (safe_shown a); auto.
  - apply (harmless_fresh a); auto.
Qed.

(** A URL that is shown nowhere is revoked. *)
Lemma revoke_kept u a waiting :
  kept a waiting ->
  selectedPackVideoUrl a ≠ Some u -> mintPreviewUrl a ≠ Some u ->
  kept (revokeObjectURL u a) waiting.
Proof.
  intros [(S1 & S2 & S3) Hh] Hp Hm. split; [split; [|split]|].
  - unfold shown_urls, revokeObjectURL in *. cbn.
    destruct (selectedPackVideoUrl a) as [x|], (mintPreviewUrl a) as [y|];
      set_solver.
  - cbn. intros w Hw. apply S2. set_solver.
  - done.
  - exact Hh.
Qed.

Lemma shown_not_fresh a u :
  urls_safe a ->
  selectedPackVideoUrl a = Some u \/ mintPreviewUrl a = Some u ->
  u ≠ url_of (urlCounter a)
  /\ exists n, (n < urlCounter a)%N /\ u = url_of n.
Proof.
  intros Hs Hu. pose proof (safe_shown a u Hs Hu) as Hl.
  destruct (safe_live a u Hs Hl) as [_ Hf]. split; [done|].
  destruct Hs as (_ & S2 & _). by apply S2.
Qed.

(** A handler that starts to wait holds nothing that could do harm. *)
Lemma harmless_add a waiting k :
  urls_safe a -> harmless a waiting ->
  mintPreviewUrl (render_of k) = mintPreviewUrl a ->
  (forall u, scan_url k = Some u ->
     (exists n, (n < urlCounter a)%N /\ u = url_of n)
     /\ selectedPackVideoUrl a ≠ Some u /\ mintPreviewUrl a ≠ Some u) ->
  harmless a (waiting ++ [k]).
Proof.
  intros Hs Hh Er Hu k' [Hk| ->%list_elem_of_singleton]%elem_of_app;
    [by apply Hh|].
  split.
  - intros u [Hp|Hq].
    + rewrite Er in Hp.
      destruct (shown_not_fresh a u Hs (or_intror Hp)) as [_ Hn].
      split; [done|]. intros E. destruct Hs as (_ & _ & S3). by eapply S3.
    + by destruct (Hu u Hq) as (? & ? & _).
  - intros u Hq. by destruct (Hu u Hq) as (_ & _ & ?).
Qed.

Lemma openPack_kept p a waiting :
  kept a waiting -> kept (openPack p a) waiting.
Proof.
  intros Ha. unfold openPack. cbv zeta.
  set (a2 := if src_truthy (selectedPackVideoUrl a) then _ else _).
  assert (H2 : kept a2 waiting /\ selectedPackVideoUrl a2 = None).
  { unfold a2, src_truthy. destruct (selectedPackVideoUrl a) as [u|] eqn:Eu.
    - destruct Ha as [Hs Hh].
      pose proof (safe_shown a u Hs (or_introl Eu)) as Hu.
      destruct (safe_live a u Hs Hu) as [-> _]. cbn [negb].
      split; [|done]. rewrite <- Eu. by apply drop_pack_kept.
    - split; [|done]. by apply (kept_view a). }
  destruct H2 as [H2 E2]. destruct (videoBlob p); [|done].
  by apply new_pack_kept.
Qed.

Lemma closeMintModal_from_kept render a waiting :
  kept a waiting ->
  selectedPackVideoUrl a ≠ mintPreviewUrl render \/ mintPreviewUrl render = None ->
  kept (closeMintModal_from render a) waiting.
Proof.
  intros Ha Hr. unfold closeMintModal_from. cbv zeta.
  eapply kept_view;
    [|apply (drop_mint_kept (mintPreviewUrl render) a
               (setMintFile None (setShowMintModal false a)));
      [done|reflexivity|done]].
  reflexivity.
Qed.

Lemma own_preview a :
  urls_safe a ->
  selectedPackVideoUrl a ≠ mintPreviewUrl a \/ mintPreviewUrl a = None.
Proof.
  intros (_ & _ & S3). destruct (mintPreviewUrl a) as [u|] eqn:E; [|by right].
  left. intros E'. by eapply S3.
Qed.

Lemma handleGlobalMint_kept s a waiting :
  kept a waiting -> kept (handleGlobalMint s a).2 waiting.
Proof.
  intros Ha. unfold handleGlobalMint. destruct (isRecording s); [done|].
  cbv zeta. cbn [snd].
  eapply kept_view;
    [|apply (drop_mint_kept (mintPreviewUrl a) a
               (setMintFile None (setMood "calm" (setIntention "" a))));
      [done|reflexivity|by apply own_preview, Ha]].
  reflexivity.
Qed.

Section waiting_facts.
Variable JSON_parse : string -> option json.
Variable JSON_stringify : json -> string.
Variable Number_toString : num -> string.


Lemma begin_handler_kept e s a waiting :
  kept a waiting ->
  let b := begin_handler JSON_parse JSON_stringify Number_toString e (s, a) in
  kept b.1.2 (waiting ++ b.2).
Proof.
  intros Ha. pose proof Ha as [Hs Hh].
  destruct e as [| |p| | |[[f p]|]|d| |now iso sha zipOk];
    cbn [begin_handler lib_step fst snd]; rewrite ?app_nil_r.
  - by apply (kept_view a).
  - by apply drop_pack_kept.
  - by apply openPack_kept.
  - by apply drop_pack_kept.
  - by apply handleGlobalMint_kept.
  - change (newObjectURL a) with (url_of (urlCounter a), (newObjectURL a).2).
    cbn [fst snd].
    destruct (new_url_kept a waiting Ha) as [Hs1 Hh1]. split; [done|].
    apply harmless_add; [done|done|done|].
    cbn [scan_url]. intros u [= <-]. split; [|split].
    + exists (urlCounter a). cbn. split; [lia|done].
    + cbn. intros E. by destruct (shown_not_fresh a _ Hs (or_introl E)).
    + cbn. intros E. by destruct (shown_not_fresh a _ Hs (or_intror E)).
  - done.
  - unfold mintLoadedMetadata. destruct (isFinite d); [|done].
    by apply (kept_view a).
  - apply (closeMintModal_from_kept a a waiting Ha). by apply own_preview.
  - destruct (mintFile a) as [f|]; cbn [fst snd]; rewrite ?app_nil_r.
    + split; [done|]. apply harmless_add; try done.
    + by apply (kept_view a).
Qed.

Lemma resume_handler_kept k s a waiting sa' :
  kept a waiting -> k ∈ waiting ->
  resume_handler JSON_parse JSON_stringify Number_toString k (s, a) = Some sa' ->
  kept sa'.2 waiting.
Proof.
  intros Ha Hk. pose proof Ha as [Hs Hh]. destruct (Hh k Hk) as [K1 K2].
  destruct k as [f p u render|now iso sha zipOk f render];
    cbn [resume_handler render_of scan_url] in *.
  - destruct (scanGoodwillsQrFromFile JSON_parse u p).2 as [r|]; [|done].
    intros [= <-].
    assert (H2 : kept (revokeObjectURL u a) waiting).
    { apply revoke_kept; [done| |by apply K2].
      by apply (K1 u (or_intror eq_refl)). }
    destruct r as [[text payload|]|msg]; cbn [snd];
      [|by apply (kept_view (revokeObjectURL u a))..].
    set (a2 := revokeObjectURL u a) in *.
    set (a3 := revoke_if_set (mintPreviewUrl render) a2).
    change (newObjectURL a3) with (url_of (urlCounter a3), (newObjectURL a3).2).
    cbv beta iota zeta. cbn [snd].
    assert (H3 : kept (setMintPreviewUrl None a3) waiting).
    { apply (drop_mint_kept _ a2); [done|reflexivity|].
      destruct (mintPreviewUrl render) as [w|] eqn:Ew; [left|by right].
      change (selectedPackVideoUrl a2) with (selectedPackVideoUrl a).
      by apply (K1 w (or_introl eq_refl)). }
    pose proof (new_mint_kept _ _ H3 eq_refl) as H4.
    eapply kept_view; [|exact H4]. reflexivity.
  - intros [= <-]. cbn [snd]. destruct zipOk; [|by apply (kept_view a)].
    change (newObjectURL a) with (url_of (urlCounter a), (newObjectURL a).2).
    cbv beta iota zeta.
    match goal with |- kept (show_alert _ (closeMintModal_from _ ?x)) _ =>
      set (a3 := x) end.
    assert (H3 : kept a3 waiting).
    { apply (kept_view
               (revokeObjectURL (url_of (urlCounter a)) (newObjectURL a).2));
        [reflexivity|].
      apply revoke_kept; [by apply new_url_kept| |]; cbn; intros E.
      - by destruct (shown_not_fresh a _ Hs (or_introl E)).
      - by destruct (shown_not_fresh a _ Hs (or_intror E)). }
    apply (kept_view (closeMintModal_from render a3)); [reflexivity|].
    apply closeMintModal_from_kept; [done|].
    destruct (mintPreviewUrl render) as [w|] eqn:Ew; [left|by right].
    change (selectedPackVideoUrl a3) with (selectedPackVideoUrl a).
    by apply (K1 w (or_introl eq_refl)).
Qed.

Lemma act_kept d x :
  kept d.1.2 d.2 ->
  let d' := act JSON_parse JSON_stringify Number_toString d x in
  kept d'.1.2 d'.2.
Proof.
  destruct d as [[s a] waiting]. cbn [fst snd]. intros Ha.
  destruct x as [e|i]; cbn [act].
  - pose proof (begin_handler_kept e s a waiting Ha) as Hb.
    cbv zeta in Hb.
    by destruct (begin_handler JSON_parse JSON_stringify Number_toString e (s, a))
      as [sa' new].
  - destruct (waiting !! i) as [k|] eqn:Ek; [|done].
    destruct (resume_handler JSON_parse JSON_stringify Number_toString k (s, a))
      as [sa'|] eqn:Er; [|done].
    cbn [fst snd]. apply kept_fewer.
    eapply resume_handler_kept; [done| |done].
    by eapply list_elem_of_lookup_2.
Qed.

End waiting_facts.

End books.

Lemma closeMyRituals_accounted a :
  urls_accounted a -> urls_accounted (closeMyRituals a).
Proof. intros Ha. by apply drop_pack_url. Qed.

Lemma backFromPack_accounted a :
  urls_accounted a -> urls_accounted (backFromPack a).
Proof. intros Ha. by apply drop_pack_url. Qed.

Lemma openPack_accounted p a :
  urls_accounted a -> urls_accounted (openPack p a).
Proof.
  intros Ha. unfold openPack. cbv zeta.
  set (a2 := if src_truthy (selectedPackVideoUrl a) then _ else _).
  assert (H2 : urls_accounted a2 /\ selectedPackVideoUrl a2 = None).
  { unfold a2, src_truthy. destruct (selectedPackVideoUrl a) as [u|] eqn:Eu.
    - pose proof (shown_live a u Ha (or_introl Eu)) as Hu.
      destruct (accounted_live a u Ha Hu) as [-> _]. cbn [negb].
      split; [|done]. rewrite <- Eu. by apply drop_pack_url.
    - split; [|done]. by apply (accounted_view a). }
  destruct H2 as [H2 E2]. destruct (videoBlob p); [|done].
  by apply new_pack_url.
Qed.

Lemma closeMintModal_accounted a :
  urls_accounted a -> urls_accounted (closeMintModal a).
Proof.
  intros Ha. unfold closeMintModal. cbv zeta.
  eapply accounted_view; [|apply (drop_mint_url a); [done|]]; reflexivity.
Qed.

Lemma handleGlobalMint_accounted s a :
  urls_accounted a -> urls_accounted (handleGlobalMint s a).2.
Proof.
  intros Ha. unfold handleGlobalMint. destruct (isRecording s); [done|].
  cbv zeta. cbn [snd].
  eapply accounted_view; [|apply (drop_mint_url a); [done|]]; reflexivity.
Qed.

Section mint_facts.
Variable JSON_parse : string -> option json.
Variable JSON_stringify : json -> string.
Variable Number_toString : num -> string.


Lemma handleMintFilePicked_accounted file s a :
  (forall f p, file = Some (f, p) -> settles JSON_parse p = true) ->
  urls_accounted a ->
  urls_accounted (handleMintFilePicked JSON_parse file s a).2.
Proof.
  intros Hp Ha. unfold handleMintFilePicked.
  destruct file as [[f p]|]; [|done].
  specialize (Hp f p eq_refl). unfold settles in Hp.
  pose proof (temporary_url a Ha) as Ht.
  change (newObjectURL a) with (url_of (urlCounter a), (newObjectURL a).2).
  cbv beta iota zeta.
  set (a2 := revokeObjectURL (url_of (urlCounter a)) (newObjectURL a).2) in *.
  change (scanGoodwillsQrFromFile JSON_parse (url_of (urlCounter a)) p).2
    with (scanGoodwillsQrFromFile JSON_parse "" p).2.
  destruct (scanGoodwillsQrFromFile JSON_parse "" p).2
    as [[[text payload|]|]|]; cbn [snd]; try done.
  change (mintPreviewUrl a) with (mintPreviewUrl a2).
  set (r := revoke_if_set (mintPreviewUrl a2) a2).
  change (newObjectURL r) with (url_of (urlCounter r), (newObjectURL r).2).
  cbv beta iota.
  pose proof (drop_mint_url a2 a2 Ht eq_refl) as Hd. fold r in Hd.
  pose proof (new_mint_url _ Hd eq_refl) as Hn.
  eapply accounted_view; [|exact Hn]. reflexivity.
Qed.

Lemma handleMintConfirm_accounted now iso sha zipOk a :
  urls_accounted a ->
  urls_accounted
    (handleMintConfirm JSON_stringify Number_toString now iso sha zipOk a).
Proof.
  intros Ha. unfold handleMintConfirm.
  destruct (mintFile a) as [f|]; [|done].
  destruct zipOk; [|done].
  change (newObjectURL a) with (url_of (urlCounter a), (newObjectURL a).2).
  cbv beta iota zeta.
  match goal with |- urls_accounted (show_alert _ (closeMintModal ?x)) =>
    set (a3 := x) end.
  assert (H3 : urls_accounted a3).
  { apply (accounted_view
             (revokeObjectURL (url_of (urlCounter a)) (newObjectURL a).2));
      [reflexivity|by apply temporary_url]. }
  apply (accounted_view (closeMintModal a3)); [reflexivity|].
  by apply closeMintModal_accounted.
Qed.

Lemma lib_step_accounted sa e :
  (forall f p, e = MintFilePicked (Some (f, p)) ->
     settles JSON_parse p = true) ->
  urls_accounted sa.2 ->
  urls_accounted (lib_step JSON_parse JSON_stringify Number_toString sa e).2.
Proof.
  destruct sa as [s a]. cbn [snd]. intros Hp Ha. destruct e; cbn [lib_step snd].
  - done.
  - by apply closeMyRituals_accounted.
  - by apply openPack_accounted.
  - by apply backFromPack_accounted.
  - by apply handleGlobalMint_accounted.
  - apply handleMintFilePicked_accounted; [|done]. intros f p ->. by eapply Hp.
  - unfold mintLoadedMetadata. by destruct (isFinite d).
  - by apply closeMintModal_accounted.
  - by apply handleMintConfirm_accounted.
Qed.

(** A handler that is left to finish before anything else happens does
    what the handler without awaits does. *)
Lemma one_at_a_time_step sa e :
  (forall f p, e = MintFilePicked (Some (f, p)) ->
     settles JSON_parse p = true) ->
  act JSON_parse JSON_stringify Number_toString
    (act JSON_parse JSON_stringify Number_toString (sa, []) (Act e))
    (Resume 0)
  = (lib_step JSON_parse JSON_stringify Number_toString sa e, []).
Proof.
  intros Hp. destruct sa as [s a].
  destruct e as [| |p| | |[[f p]|]|d| |now iso sha zipOk]; try reflexivity.
  - specialize (Hp f p eq_refl). unfold settles in Hp.
    unfold act at 2. cbn [begin_handler].
    change (newObjectURL a) with (url_of (urlCounter a), (newObjectURL a).2).
    cbv beta iota. cbn [app lib_step].
    unfold act, handleMintFilePicked.
    change (newObjectURL a) with (url_of (urlCounter a), (newObjectURL a).2).
    cbv beta iota zeta. cbn [lookup list_lookup resume_handler].
    change (scanGoodwillsQrFromFile JSON_parse (url_of (urlCounter a)) p).2
      with (scanGoodwillsQrFromFile JSON_parse "" p).2.
    destruct (scanGoodwillsQrFromFile JSON_parse "" p).2
      as [[[text payload|]|]|]; try done.
  - unfold act at 2. cbn [begin_handler lib_step]. unfold handleMintConfirm.
    destruct (mintFile a) as [f|]; [|reflexivity].
    cbn [app]. unfold act. cbn [lookup list_lookup resume_handler].
    destruct zipOk; reflexivity.
Qed.

Lemma one_at_a_time_run events : forall sa,
  scans_settle JSON_parse events ->
  foldl (act JSON_parse JSON_stringify Number_toString) (sa, [])
    (one_at_a_time events)
  = (foldl (lib_step JSON_parse JSON_stringify Number_toString) sa events, []).
Proof.
  induction events as [|e l IH]; intros sa Hs; [done|].
  change (one_at_a_time (e :: l)) with (Act e :: Resume 0 :: one_at_a_time l).
  cbn [foldl]. rewrite one_at_a_time_step.
  - apply IH. intros f p Hf. apply (Hs f p). by right.
  - intros f p ->. apply (Hs f p). by left.
Qed.

Lemma run_accounted events : forall sa,
  scans_settle JSON_parse events -> urls_accounted sa.2 ->
  urls_accounted (foldl (lib_step JSON_parse JSON_stringify Number_toString) sa events).2.
Proof.
  induction events as [|e l IH]; intros sa Hs Ha; [done|]. cbn [foldl].
  apply IH.
  - intros f p Hf. apply (Hs f p). by right.
  - apply lib_step_accounted; [|done]. intros f p ->. apply (Hs f p). by left.
Qed.

(** X10.  The object URLs of the two dialogs.  Whatever the user does in
    My rituals and in the mint flow, and in whatever order the handlers
    that wait ([handleMintFilePicked], [handleMintConfirm]) go on, no
    dialog ever shows an object URL that has been revoked, every live URL
    is one the browser handed out, and the two dialogs never show the same
    one.  When every handler is left to finish before the next event
    comes, and every scan ends, nothing leaks either: the URLs that are
    alive are exactly the pack preview and the mint preview that are
    shown, and no handler is left waiting. *)
Theorem object_urls_accounted (s : studio) :
  (forall actions,
     urls_safe
       (foldl (act JSON_parse JSON_stringify Number_toString)
          ((s, empty_library), []) actions).1.2)
  /\ (forall events,
        scans_settle JSON_parse events ->
        let d := foldl (act JSON_parse JSON_stringify Number_toString)
                   ((s, empty_library), []) (one_at_a_time events) in
        d.2 = [] /\ liveUrls d.1.2 = shown_urls d.1.2).
Proof.
  split.
  - intros actions.
    assert (H : forall d, kept d.1.2 d.2 ->
              let d' := foldl (act JSON_parse JSON_stringify Number_toString) d
                          actions in
              kept d'.1.2 d'.2).
    { induction actions as [|x l IH]; intros d Hd; [done|].
      cbn [foldl]. apply IH. by apply act_kept. }
    apply (H ((s, empty_library), [])). split.
    + split; [done|]. split; [|done]. intros u Hu. cbn in Hu. set_solver.
    + intros k Hk. by apply elem_of_nil in Hk.
  - intros events Hs. cbv zeta. rewrite one_at_a_time_run by done.
    split; [done|]. cbn [fst snd].
    apply (run_accounted events (s, empty_library) Hs).
    split; [done|]. split; [|done]. intros u Hu. cbn in Hu. set_solver.
Qed.

End mint_facts.

Lemma object_urls_accounted_witness :
  let parse := fun txt : string =>
    if String.eqb txt "ok"
    then Some (JObj (<["id" := JStr "gw-1"]>
                     (<["createdAt" := JStr "now"]>
                      (<["volumes" :=
                           JObj (<["big" := JNum one]>
                                 (<["small" := JNum one]>
                                  (<["master" := JNum one]> ∅)))]> ∅))))
    else None in
  let p := mkProbe true true 1280 720 (ratio 1 1) (fun _ => true)
             (fun _ => Some "noise")
             (fun t => if ltb t (ratio 1 2) then None else Some "ok") in
  let f := mkWebm "ritual.webm" 3 "abc" in
  let events :=
    [MintFilePicked (Some (f, p)); OpenMyRituals;
     MintConfirm 17 "now" "" true] in
  let d := foldl (act parse (fun _ => "{}") (fun _ => "0"))
             ((initial, empty_library), []) (one_at_a_time events) in
  d.2 = [] /\ liveUrls d.1.2 = shown_urls d.1.2.
Proof.
  intros parse p f events.
  apply (proj2 (object_urls_accounted parse (fun _ => "{}") (fun _ => "0")
                  initial) events).
  intros f0 p0 H. unfold events in H.
  apply elem_of_cons in H as [H|H]; [by injection H as -> ->|].
  apply elem_of_cons in H as [H|H]; [discriminate H|].
  apply elem_of_cons in H as [H|H]; [discriminate H|].
  by apply elem_of_nil in H.
Defined.

Lemma url_view_inv a p m l c :
  url_view a = (p, m, l, c) ->
  selectedPackVideoUrl a = p /\ mintPreviewUrl a = m
  /\ liveUrls a = l /\ urlCounter a = c.
Proof. by intros [= -> -> -> ->]. Qed.

Section leak.
Variable JSON_parse : string -> option json.
Variable JSON_stringify : json -> string.
Variable Number_toString : num -> string.

Lemma act_resume sa sa' waiting i k :
  waiting !! i = Some k ->
  resume_handler JSON_parse JSON_stringify Number_toString k sa = Some sa' ->
  act JSON_parse JSON_stringify Number_toString (sa, waiting) (Resume i)
  = (sa', delete i waiting).
Proof. intros E1 E2. cbn [act]. by rewrite E1, E2. Qed.

Lemma resume_pick_found s a f p u render text payload :
  (scanGoodwillsQrFromFile JSON_parse "" p).2
  = Some (Ok (scan_found text payload)) ->
  mintPreviewUrl render = None ->
  exists s' a',
    resume_handler JSON_parse JSON_stringify Number_toString
      (PickWaits f p u render) (s, a) = Some (s', a')
    /\ mintFile a' = Some f
    /\ url_view a'
       = (selectedPackVideoUrl a, Some (url_of (urlCounter a)),
          {[url_of (urlCounter a)]} ∪ (liveUrls a ∖ {[u]}),
          N.succ (urlCounter a)).
Proof.
  intros E Er. cbn [resume_handler].
  change (scanGoodwillsQrFromFile JSON_parse u p).2
    with (scanGoodwillsQrFromFile JSON_parse "" p).2.
  rewrite E, Er. do 2 eexists. split; [reflexivity|]. by split.
Qed.

Lemma resume_confirm_built s a now iso sha f render u :
  mintPreviewUrl render = Some u -> String.eqb u "" = false ->
  exists a',
    resume_handler JSON_parse JSON_stringify Number_toString
      (ConfirmWaits now iso sha true f render) (s, a) = Some (s, a')
    /\ url_view a'
       = (selectedPackVideoUrl a, None,
          (({[url_of (urlCounter a)]} ∪ liveUrls a)
             ∖ {[url_of (urlCounter a)]}) ∖ {[u]},
          N.succ (urlCounter a)).
Proof.
  intros Er Eu. cbn [resume_handler]. eexists. split; [reflexivity|].
  unfold closeMintModal_from, revoke_if_set. rewrite Er, Eu. reflexivity.
Qed.

Lemma closed_view a :
  mintPreviewUrl a = Some (url_of 1) ->
  url_view (closeMintModal a)
  = (selectedPackVideoUrl a, None, liveUrls a ∖ {[url_of 1]}, urlCounter a).
Proof.
  intros E. unfold closeMintModal, revoke_if_set. rewrite E.
  change (String.eqb (url_of 1) "") with false. reflexivity.
Qed.

Lemma handleGlobalMint_idle s a :
  mintPreviewUrl a = None ->
  url_view (handleGlobalMint s a).2 = url_view a.
Proof.
  intros E. unfold handleGlobalMint, revoke_if_set, url_view.
  destruct (isRecording s); [done|]. cbn. by rewrite E.
Qed.

(** X20.  Handlers that overlap can leak an object URL.  A file is picked
    and its dialog opens; Mint is confirmed and, while the digest and the
    archive are still awaited, the dialog is closed and another file is
    picked with the mint button, whose dialog opens with a preview of its
    own.  When the handler of the confirmation goes on, it closes the
    dialog as it knew it: it revokes the preview URL of its own render,
    which is gone already, and clears the preview that is shown now
    without revoking its URL.  No handler is waiting any more, no dialog
    shows a URL, and the URL of the second preview is still alive. *)
Theorem overlapping_handlers_leak
    (s : studio) (f1 f2 : WebmFile) (p1 p2 : probe)
    (t1 t2 : string) (j1 j2 : json) (now : Z) (iso sha : string) :
  (scanGoodwillsQrFromFile JSON_parse "" p1).2
  = Some (Ok (scan_found t1 j1)) ->
  (scanGoodwillsQrFromFile JSON_parse "" p2).2
  = Some (Ok (scan_found t2 j2)) ->
  let actions :=
    [Act (MintFilePicked (Some (f1, p1))); Resume 0;
     Act (MintConfirm now iso sha true); Act CloseMintModal; Act GlobalMint;
     Act (MintFilePicked (Some (f2, p2))); Resume 1; Resume 0] in
  let d := foldl (act JSON_parse JSON_stringify Number_toString)
             ((s, empty_library), []) actions in
  d.2 = []
  /\ shown_urls d.1.2 = ∅
  /\ url_of 3 ∈ liveUrls d.1.2.
Proof.
  intros E1 E2. cbv zeta. cbn [foldl].
  (* the first file is picked *)
  change (act _ _ _ (s, empty_library, []) (Act (MintFilePicked (Some (f1, p1)))))
    with (s, (newObjectURL empty_library).2,
          [PickWaits f1 p1 (url_of 0) empty_library]).
  destruct (resume_pick_found s (newObjectURL empty_library).2 f1 p1
              (url_of 0) empty_library t1 j1 E1 eq_refl)
    as (s2 & a2 & R2 & F2 & V2).
  erewrite act_resume; [|reflexivity|exact R2]. cbn [delete list_delete].
  apply url_view_inv in V2 as (P2 & M2 & L2 & C2). cbn in P2, M2, L2, C2.
  clear R2.
  (* Mint is confirmed, the dialog is closed, the mint button is pressed *)
  assert (S3 : act JSON_parse JSON_stringify Number_toString (s2, a2, [])
                 (Act (MintConfirm now iso sha true))
               = (s2, a2, [ConfirmWaits now iso sha true f1 a2])).
  { cbn [act begin_handler]. by rewrite F2. }
  rewrite S3. clear S3.
  change (act _ _ _ (s2, a2, ?w) (Act CloseMintModal))
    with (s2, closeMintModal a2, w ++ []).
  pose proof (closed_view a2 M2) as V3.
  apply url_view_inv in V3 as (P3 & M3 & L3 & C3).
  revert P3 M3 L3 C3. generalize (closeMintModal a2). intros a3 P3 M3 L3 C3.
  change (act _ _ _ (s2, a3, ?w) (Act GlobalMint))
    with (handleGlobalMint s2 a3, w ++ []).
  pose proof (handleGlobalMint_idle s2 a3 M3) as V4.
  apply url_view_inv in V4 as (P4 & M4 & L4 & C4).
  destruct (handleGlobalMint s2 a3) as [s4 a4]. cbn [snd] in P4, M4, L4, C4.
  rewrite M3 in M4. cbn [app].
  (* the second file is picked and its dialog opens *)
  change (act _ _ _ (s4, a4, ?w) (Act (MintFilePicked (Some (f2, p2)))))
    with (s4, (newObjectURL a4).2,
          w ++ [PickWaits f2 p2 (url_of (urlCounter a4)) a4]).
  cbn [app].
  destruct (resume_pick_found s4 (newObjectURL a4).2 f2 p2
              (url_of (urlCounter a4)) a4 t2 j2 E2 M4)
    as (s6 & a6 & R6 & F6 & V6).
  erewrite act_resume; [|reflexivity|exact R6]. cbn [delete list_delete].
  apply url_view_inv in V6 as (P6 & M6 & L6 & C6). cbn in P6, M6, L6, C6.
  clear R6.
  (* the handler of the confirmation goes on *)
  destruct (resume_confirm_built s6 a6 now iso sha f1 a2 (url_of 1) M2 eq_refl)
    as (a7 & R7 & V7).
  erewrite act_resume; [|reflexivity|exact R7]. cbn [delete list_delete fst snd].
  apply url_view_inv in V7 as (P7 & M7 & L7 & C7).
  split; [done|]. split.
  - unfold shown_urls. rewrite P7, M7, P6, P4, P3, P2. set_solver.
  - rewrite L7, L6, C6, C4, C3, C2.
    assert (url_of 3 ≠ url_of 4) by (intros ?%url_of_inj; done).
    assert (url_of 3 ≠ url_of 1) by (intros ?%url_of_inj; done).
    set_solver.
Qed.

End leak.

Lemma overlapping_handlers_leak_witness :
  let parse := fun txt : string =>
    if String.eqb txt "ok"
    then Some (JObj (<["id" := JStr "gw-1"]>
                     (<["createdAt" := JStr "now"]>
                      (<["volumes" :=
                           JObj (<["big" := JNum one]>
                                 (<["small" := JNum one]>
                                  (<["master" := JNum one]> ∅)))]> ∅))))
    else None in
  let p := mkProbe true true 1280 720 (ratio 1 1) (fun _ => true)
             (fun _ => Some "noise")
             (fun t => if ltb t (ratio 1 2) then None else Some "ok") in
  let f := mkWebm "ritual.webm" 3 "abc" in
  let actions :=
    [Act (MintFilePicked (Some (f, p))); Resume 0;
     Act (MintConfirm 17 "now" "" true); Act CloseMintModal; Act GlobalMint;
     Act (MintFilePicked (Some (f, p))); Resume 1; Resume 0] in
  let d := foldl (act parse (fun _ => "{}") (fun _ => "0"))
             ((initial, empty_library), []) actions in
  d.2 = [] /\ shown_urls d.1.2 = ∅ /\ url_of 3 ∈ liveUrls d.1.2.
Proof.
  intros parse p f.
  eapply (overlapping_handlers_leak parse (fun _ => "{}") (fun _ => "0")
            initial f f p p "ok" "ok" _ _ 17 "now" "");
    vm_compute; reflexivity.
Defined.

Section mint_round_trip.
Variable JSON_parse : string -> option json.
Variable JSON_stringify : json -> string.
Variable Number_toString : num -> string.

(** X11.  A pack made by the mint dialog can be opened in My rituals.  When
    a file is selected and the archive can be built, [handleMintConfirm]
    downloads one file, named after the source id with the extension
    [.mint], and closes the dialog; [readMintPackFile] on that archive
    finds the video that was minted and the metadata [JSON.parse] makes of
    the text [JSON.stringify] wrote, failing only if [JSON.parse] rejects
    that text. *)
Theorem minted_pack_reopens
    (now : Z) (iso sha : string) (a : library) (f : WebmFile) :
  mintFile a = Some f ->
  let a' := handleMintConfirm JSON_stringify Number_toString now iso sha true a in
  let text := JSON_stringify (mintObj now iso sha f a) in
  exists d,
    downloads a' = d :: downloads a
    /\ downloadName d = ToString Number_toString (sourceId now a) +:+ ".mint"
    /\ showMintModal a' = false /\ mintFile a' = None
    /\ forall name,
         readMintPackFile JSON_parse (mkPackFile name (Some (downloadEntries d)))
         = match JSON_parse text with
           | Some j => Ok (mkMintPack name j (Some (webmContent f)))
           | None => Err "SyntaxError"
           end.
Proof.
  intros Hf. cbv zeta. unfold handleMintConfirm. rewrite Hf.
  change (newObjectURL a) with (url_of (urlCounter a), (newObjectURL a).2).
  cbv beta iota zeta. unfold closeMintModal, revoke_if_set. cbn.
  eexists (mkDownload _ _).
  destruct (mintPreviewUrl a) as [u|]; [destruct (String.eqb u "")|]; cbn;
    (split; [reflexivity|]); (split; [reflexivity|]);
    (split; [reflexivity|]); (split; [reflexivity|]);
  intros name; unfold readMintPackFile; cbn [entries downloadEntries packName].
  all: simplify_map_eq; destruct (JSON_parse _); by simplify_map_eq.
Qed.

End mint_round_trip.

Lemma minted_pack_reopens_witness :
  let parse := fun t : string => if String.eqb t "{}" then Some (JObj ∅) else None in
  let a := setMintFile (Some (mkWebm "ritual.webm" 3 "abc")) empty_library in
  let a' := handleMintConfirm (fun _ => "{}") (fun _ => "0") 17 "now" "" true a in
  exists d,
    downloads a' = [d]
    /\ readMintPackFile parse (mkPackFile "gw-17.mint" (Some (downloadEntries d)))
       = Ok (mkMintPack "gw-17.mint" (JObj ∅) (Some "abc")).
Proof.
  intros parse a a'.
  destruct (minted_pack_reopens parse (fun _ => "{}") (fun _ => "0")
              17 "now" "" a (mkWebm "ritual.webm" 3 "abc") eq_refl)
    as (d & H1 & _ & _ & _ & H5).
  exists d. split; [exact H1|]. exact (H5 "gw-17.mint").
Defined.

(** *** waitForVideoReady *)

Lemma finished_stays w e :
  finished w = true -> listening w = false ->
  let w' := wait_step w e in
  finished w' = true /\ listening w' = false /\ settled w' = settled w.
Proof.
  intros Hf Hl. cbv zeta. destruct e as [vw vh|]; cbn.
  - by rewrite Hl.
  - destruct (timeoutPending w); [|done]. unfold finish. cbn. by rewrite Hf.
Qed.

(** X12.  The promise of [waitForVideoReady] settles once, with the verdict
    of whatever comes first: [true] at once if the element already has a
    frame; otherwise the first media event decides ([true] exactly if the
    element has a frame by then) unless the timeout comes first, which
    gives [false].  Nothing that happens later changes the value, and once
    it has settled the listeners are off the element. *)
Theorem wait_first_event_decides
    (videoWidth videoHeight : N) (events : list wait_event) :
  let w := foldl wait_step (waitForVideoReady videoWidth videoHeight) events in
  settled w
  = (if has_frame videoWidth videoHeight then Some true
     else match events with
          | [] => None
          | MediaEvent vw vh :: _ => Some (has_frame vw vh)
          | TimeoutFires :: _ => Some false
          end)
  /\ (is_Some (settled w) -> listening w = false).
Proof.
  cbv zeta.
  assert (Stay : forall l w, finished w = true -> listening w = false ->
            settled (foldl wait_step w l) = settled w
            /\ listening (foldl wait_step w l) = false).
  { induction l as [|e l IH]; intros w Hf Hl; [done|]. cbn [foldl].
    destruct (finished_stays w e Hf Hl) as (F1 & F2 & F3).
    destruct (IH _ F1 F2) as [I1 I2]. by rewrite I1, F3. }
  assert (Quiet : forall l w, listening w = false -> timeoutPending w = false ->
            foldl wait_step w l = w).
  { induction l as [|e l IH]; intros w Hl Ht; [done|]. cbn [foldl].
    replace (wait_step w e) with w; [by apply IH|].
    destruct e; cbn; by rewrite ?Hl, ?Ht. }
  unfold waitForVideoReady. destruct (has_frame videoWidth videoHeight).
  - cbn. rewrite Quiet by done. done.
  - cbn. destruct events as [|e l]; [by split; [|intros []]|]. cbn [foldl].
    destruct e as [vw vh|]; cbn;
      match goal with |- context [foldl wait_step ?w l] =>
        destruct (Stay l w eq_refl eq_refl) as [-> ->] end; done.
Qed.

Open Scope js_scope.

(** ** Scrubbing under Glue *)

Lemma truthy_pos (y : Qc) : (0 < y)%Qc -> truthy (Fin y) = true.
Proof.
  intros Hy. cbn. destruct (Qc_eq_bool y 0) eqn:E; [|done].
  apply Qc_eq_bool_correct in E. rewrite E in Hy. by apply Qclt_not_eq in Hy.
Qed.

Lemma circular_distance_same (r y : Qc) :
  (0 < y)%Qc -> circular_distance (Fin r) (Fin r) (Fin y) = zero.
Proof.
  intros Hy. unfold circular_distance, ltb, sub, neg, add.
  assert (E : (r ?= r)%Qc = Eq) by (by apply Qceq_alt).
  rewrite E. replace (r + - r)%Qc with 0%Qc by ring.
  replace (y + - 0)%Qc with y by ring.
  destruct (y ?= 0)%Qc eqn:F; try done.
  apply Qclt_alt in F. pose proof (Qclt_trans _ _ _ Hy F) as G.
  by apply Qclt_not_eq in G.
Qed.

Lemma handleBgTimelineChange_glued s bg mu value :
  isGlued s = true -> bgRef s = Some bg -> muRef s = Some mu ->
  truthy (duration bg) = true -> truthy (duration mu) = true ->
  isFinite (value * duration bg) = true ->
  isFinite (wrapTime (value * duration bg + glueOffsetSecRef s)
              (duration mu)) = true ->
  let s' := handleBgTimelineChange value s in
  bgRef s' = Some (set_currentTime (value * duration bg) bg)
  /\ muRef s'
     = Some (set_currentTime
               (wrapTime (value * duration bg + glueOffsetSecRef s)
                  (duration mu)) mu)
  /\ isGlued s' = isGlued s /\ isPlaying s' = isPlaying s
  /\ isRecording s' = isRecording s
  /\ glueSyncGuardRef s' = glueSyncGuardRef s
  /\ prevBgTimeRef s' = prevBgTimeRef s
  /\ glueOffsetSecRef s' = glueOffsetSecRef s.
Proof.
  intros G Hbg Hmu Db Dm F1 F2. cbv zeta. unfold handleBgTimelineChange.
  rewrite Hbg, Db, G. unfold assign_currentTime. rewrite F1. cbn.
  rewrite Hmu, Dm. cbn. rewrite F2. cbn. repeat split; congruence.
Qed.

(** X13.  Scrubbing BIG while Glue is on puts SMALL exactly where the
    captured offset says: with both elements mounted, finite numbers and a
    positive SMALL duration, after [handleBgTimelineChange] BIG stands at
    [value * duration], and SMALL at [wrapTime(BIG + offset, SMALL.duration)],
    so that the glue error is 0; the captured offset is not changed. *)
Theorem scrub_big_restores_offset
    (s : studio) (bg mu : media) (v b o y : Qc) :
  isGlued s = true ->
  bgRef s = Some bg -> muRef s = Some mu ->
  duration bg = Fin b -> truthy (Fin b) = true ->
  duration mu = Fin y -> (0 < y)%Qc ->
  glueOffsetSecRef s = Fin o ->
  let s' := handleBgTimelineChange (Fin v) s in
  currentTime <$> bgRef s' = Some (Fin (v * b))
  /\ currentTime <$> muRef s'
     = Some (wrapTime (Fin (v * b) + Fin o) (Fin y))
  /\ glueOffsetSecRef s' = Fin o
  /\ glue_error s' = Some zero.
Proof.
  intros Hg Eb Em Db Tb Dm Hy Eo. cbv zeta.
  destruct (wrapTime_finite (v * b + o)%Qc y Hy) as (r & k & Er & _).
  assert (Tm : truthy (duration mu) = true) by (rewrite Dm; by apply truthy_pos).
  destruct (handleBgTimelineChange_glued s bg mu (Fin v) Hg Eb Em)
    as (S1 & S2 & _ & _ & _ & _ & _ & S8);
    [ by rewrite Db | done | by rewrite Db
    | by rewrite Db, Dm, Eo; apply wrapTime_isFinite | ].
  revert S1 S2 S8. generalize (handleBgTimelineChange (Fin v) s). intros s1.
  rewrite Db, Dm, Eo. change (Fin v * Fin b) with (Fin (v * b)).
  intros S1 S2 S8. unfold glue_error. rewrite S1, S2, S8.
  cbn [fmap option_fmap option_map currentTime set_currentTime duration].
  rewrite Dm. repeat split.
  change (Fin (v * b) + Fin o) with (Fin (v * b + o)). rewrite Er.
  by rewrite circular_distance_same.
Qed.

Lemma scrub_big_restores_offset_witness :
  let s := set_glueOffsetSecRef (3 # 1)
             (setIsGlued true (both_playing (10 # 1) (7 # 1))) in
  let s' := handleBgTimelineChange (1 # 2) s in
  currentTime <$> bgRef s' = Some (5 # 1)
  /\ currentTime <$> muRef s' = Some (1 # 1)
  /\ glue_error s' = Some zero.
Proof.
  intros s s'.
  destruct (scrub_big_restores_offset s
              (mkMedia zero (10 # 1) one false)
              (mkMedia zero (7 # 1) one false)
              (Q2Qc (1 # 2)) (Q2Qc (10 # 1)) (Q2Qc (3 # 1)) (Q2Qc (7 # 1)))
    as (H1 & H2 & H3 & H4); try reflexivity.
  split; [|split].
  - etransitivity; [exact H1|by_evaluation].
  - etransitivity; [exact H2|by_evaluation].
  - exact H4.
Defined.

Lemma handleBgTimeUpdate_own s bg :
  bgRef s = Some bg -> truthy (duration bg) = true ->
  bgRef (handleBgTimeUpdate s) = Some bg
  /\ prevBgTimeRef (handleBgTimeUpdate s) = Some (currentTime bg).
Proof.
  intros Hbg Db. unfold handleBgTimeUpdate. rewrite Hbg, Db.
  split; repeat case_match; cbn in *; congruence.
Qed.

(** X14.  A backward scrub is read as a loop.  [handleBgTimelineChange]
    moves BIG but leaves [prevBgTimeRef] at the last reported position, so
    when Glue is on and the tracks play, the time-update that follows a
    scrub back by more than [wrapThreshold] takes the jump for a wraparound
    and moves SMALL, which the scrub had just put at
    [wrapTime(BIG + offset)], on by [(duration - prev) + BIG]. *)
Theorem scrub_back_is_read_as_wrap
    (s : studio) (bg mu : media) (v b o y p : Qc) :
  isGlued s = true -> isPlaying s = true -> isRecording s = false ->
  glueSyncGuardRef s = false ->
  bgRef s = Some bg -> muRef s = Some mu ->
  duration bg = Fin b -> (0 < b)%Qc ->
  duration mu = Fin y -> (0 < y)%Qc ->
  glueOffsetSecRef s = Fin o ->
  prevBgTimeRef s = Some (Fin p) ->
  (Fin v * Fin b <? Fin p - wrapThreshold) = true ->
  let s' := handleBgTimeUpdate (handleBgTimelineChange (Fin v) s) in
  let scrubbed := wrapTime (Fin v * Fin b + Fin o) (Fin y) in
  currentTime <$> bgRef s' = Some (Fin v * Fin b)
  /\ currentTime <$> muRef s'
     = Some (wrapTime (or0 scrubbed + ((Fin b - Fin p) + Fin v * Fin b))
               (Fin y))
  /\ prevBgTimeRef s' = Some (Fin v * Fin b).
Proof.
  intros Hg Hp Hr Hq Eb Em Db Hb Dm Hy Eo Ep Hj. cbv zeta.
  assert (Tb : truthy (duration bg) = true) by (rewrite Db; by apply truthy_pos).
  assert (Tm : truthy (duration mu) = true) by (rewrite Dm; by apply truthy_pos).
  assert (Fs : isFinite (wrapTime (Fin v * Fin b + Fin o) (Fin y)) = true)
    by by apply wrapTime_isFinite.
  destruct (handleBgTimelineChange_glued s bg mu (Fin v) Hg Eb Em Tb Tm)
    as (S1 & S2 & S3 & S4 & S5 & S6 & S7 & S8);
    [by rewrite Db|by rewrite Db, Dm, Eo|].
  revert S1 S2 S3 S4 S5 S6 S7 S8.
  generalize (handleBgTimelineChange (Fin v) s). intros s1.
  rewrite Db, Dm, Eo, Hg, Hp, Hr, Hq, Ep. intros S1 S2 S3 S4 S5 S6 S7 S8.
  destruct (handleBgTimeUpdate_own s1 _ S1 Tb) as [O1 O2].
  rewrite (handleBgTimeUpdate_wrap s1 _ _ (Fin p) S1 S2 Tb Tm S3 S4 S5 S6 S7);
    [|exact Hj|].
  - rewrite O1, O2.
    cbn [fmap option_fmap option_map currentTime set_currentTime duration].
    by rewrite Db, Dm.
  - cbn [currentTime set_currentTime duration]. rewrite Db, Dm.
    apply wrapTime_isFinite.
    destruct (wrapTime (Fin v * Fin b + Fin o) (Fin y)) as [q| | |] eqn:E;
      try done.
    unfold or0. by destruct (truthy (Fin q)).
Qed.

Lemma scrub_back_is_read_as_wrap_witness :
  let s := set_prevBgTimeRef (Some (8 # 1))
             (set_bgRef (Some (mkMedia (8 # 1) (10 # 1) one false))
                (set_muRef (Some (mkMedia (1 # 1) (7 # 1) one false))
                   (set_glueOffsetSecRef zero
                      (setIsGlued true (both_playing (10 # 1) (7 # 1)))))) in
  let s' := handleBgTimeUpdate (handleBgTimelineChange (1 # 5) s) in
  currentTime <$> bgRef s' = Some (2 # 1)
  /\ currentTime <$> muRef s' = Some (6 # 1)
  /\ glue_error s' = Some (3 # 1).
Proof.
  intros s s'.
  destruct (scrub_back_is_read_as_wrap s
              (mkMedia (8 # 1) (10 # 1) one false)
              (mkMedia (1 # 1) (7 # 1) one false)
              (Q2Qc (1 # 5)) (Q2Qc (10 # 1)) (Q2Qc 0) (Q2Qc (7 # 1))
              (Q2Qc (8 # 1)))
    as (H1 & H2 & H3); try reflexivity.
  split; [|split].
  - etransitivity; [exact H1|by_evaluation].
  - etransitivity; [exact H2|by_evaluation].
  - by_evaluation.
Defined.

(** ** The buttons of the players *)

Lemma ensureAudioContext_transport s :
  transport (bgRef (state_of (ensureAudioContext s))) = transport (bgRef s)
  /\ transport (muRef (state_of (ensureAudioContext s))) = transport (muRef s)
  /\ isRecording (state_of (ensureAudioContext s)) = isRecording s.
Proof.
  unfold ensureAudioContext, connect, transport.
  destruct (audioCtxRef s) eqn:E; [done|].
  destruct (bgRef s) eqn:Hb, (muRef s) eqn:Hm; cbn; rewrite ?Hb, ?Hm; cbn; done.
Qed.

Lemma ensureMiniConnected_transport s :
  transport (bgRef (state_of (ensureMiniConnected s))) = transport (bgRef s)
  /\ transport (muRef (state_of (ensureMiniConnected s))) = transport (muRef s)
  /\ isRecording (state_of (ensureMiniConnected s)) = isRecording s.
Proof.
  unfold ensureMiniConnected, connect, transport.
  destruct (audioCtxRef s) eqn:E; [|done].
  destruct (muRef s) eqn:Hm; [|cbn [state_of]; by rewrite Hm].
  destruct (muSourceRef s) eqn:Hs; [cbn [state_of]; by rewrite Hm|].
  cbn. rewrite E. cbn.
  destruct (masterGainRef s) eqn:Hg; cbn; rewrite ?E, ?Hm; cbn; done.
Qed.

Lemma connect_fields a b s :
  masterGainRef (connect a b s) = masterGainRef s
  /\ (constructed s = true -> constructed (connect a b s) = true).
Proof. unfold connect, constructed. by destruct (audioCtxRef s). Qed.

Lemma ensureAudioContext_returns s :
  is_Some (bgRef s) ->
  (constructed s = true -> is_Some (masterGainRef s)) ->
  exists s1,
    ensureAudioContext s = Returned s1
    /\ constructed s1 = true /\ is_Some (masterGainRef s1).
Proof.
  intros [v Hb] Hm. unfold ensureAudioContext.
  destruct (audioCtxRef s) eqn:E.
  - exists s. unfold constructed in *. rewrite E in *. by auto.
  - cbv zeta.
    change (bgRef (set_muRef _ (set_bgRef ?x _))) with x.
    cbn [bgRef set_audioCtxRef]. rewrite Hb. cbn [on_media].
    eexists. split; [reflexivity|].
    split.
    + repeat apply connect_fields. reflexivity.
    + rewrite !(proj1 (connect_fields _ _ _)). by eexists.
Qed.

Lemma ensureMiniConnected_returns s :
  constructed s = true -> is_Some (masterGainRef s) ->
  exists s2, ensureMiniConnected s = Returned s2 /\ constructed s2 = true.
Proof.
  unfold constructed. intros Hc [g Hg].
  destruct (audioCtxRef s) eqn:E; [|done].
  unfold ensureMiniConnected, connect. rewrite E.
  destruct (muRef s); [|exists s; by rewrite E].
  destruct (muSourceRef s); [exists s; by rewrite E|]. cbn. rewrite E. cbn.
  rewrite Hg. cbn. eexists. by split.
Qed.

(** Both constructors return when BIG is mounted and a graph that exists
    has its master gain. *)
Lemma ensure_both_return s :
  is_Some (bgRef s) ->
  (constructed s = true -> is_Some (masterGainRef s)) ->
  exists s1 s2,
    ensureAudioContext s = Returned s1 /\ ensureMiniConnected s1 = Returned s2
    /\ constructed s2 = true.
Proof.
  intros Hb Hm.
  destruct (ensureAudioContext_returns s Hb Hm) as (s1 & E1 & C1 & M1).
  destruct (ensureMiniConnected_returns s1 C1 M1) as (s2 & E2 & C2).
  by exists s1, s2.
Qed.

Lemma transport_inv o (x : num * num * bool) :
  transport o = Some x ->
  exists m, o = Some m /\ x = (currentTime m, duration m, paused m).
Proof. destruct o as [m|]; [|done]. intros [= <-]. by exists m. Qed.

Lemma toggle_big s v :
  routed s -> bgRef s = Some v ->
  let s' := if paused v then setIsPlaying true (playBg s)
            else setIsPlaying false (pauseBg s) in
  routed s'
  /\ transport (bgRef s') = Some (currentTime v, duration v, negb (paused v))
  /\ transport (muRef s') = transport (muRef s)
  /\ isPlaying s' = paused v.
Proof.
  intros Hr Hb. cbv zeta. destruct (paused v) eqn:Hp.
  - split.
    + apply (routed_view s); [|done].
      change (audio_view (playBg s) = audio_view s). view_of playBg.
    + unfold playBg. cbn. by rewrite Hb.
  - split.
    + apply (routed_view s); [|done].
      change (audio_view (pauseBg s) = audio_view s). view_of pauseBg.
    + unfold pauseBg. rewrite Hb. done.
Qed.

Lemma toggle_mini s v :
  routed s -> muRef s = Some v ->
  let s' := if paused v then setIsPlaying true (playMu s)
            else setIsPlaying false (pauseMu s) in
  routed s'
  /\ transport (muRef s') = Some (currentTime v, duration v, negb (paused v))
  /\ transport (bgRef s') = transport (bgRef s)
  /\ isPlaying s' = paused v.
Proof.
  intros Hr Hb. cbv zeta. destruct (paused v) eqn:Hp.
  - split.
    + apply (routed_view s); [|done].
      change (audio_view (playMu s) = audio_view s). view_of playMu.
    + unfold playMu. cbn. by rewrite Hb.
  - split.
    + apply (routed_view s); [|done].
      change (audio_view (pauseMu s) = audio_view s). view_of pauseMu.
    + unfold pauseMu. rewrite Hb. done.
Qed.

(** X15.  The play/pause button of a single player, pressed while nothing
    is recorded, with BIG mounted: the handler returns, the audio graph
    exists afterwards and the gain mechanism is intact, the track of the
    button flips between playing and paused without moving, the other
    track is left as it is, and [isPlaying] says whether the button's own
    track now plays. *)
Theorem track_play_pause_toggles (s : studio) (v : media) :
  audio_ok s -> isRecording s = false -> bgRef s = Some v ->
  (constructed s = true -> is_Some (masterGainRef s)) ->
  (exists s',
     handleBgPlayPause s = Returned s'
     /\ audio_ok s' /\ constructed s' = true
     /\ transport (bgRef s') = Some (currentTime v, duration v, negb (paused v))
     /\ transport (muRef s') = transport (muRef s)
     /\ isPlaying s' = paused v)
  /\ (forall m, muRef s = Some m ->
      exists s',
        handleMuPlayPause s = Returned s'
        /\ audio_ok s' /\ constructed s' = true
        /\ transport (muRef s') = Some (currentTime m, duration m, negb (paused m))
        /\ transport (bgRef s') = transport (bgRef s)
        /\ isPlaying s' = paused m).
Proof.
  intros Hok Hr Hb Hm.
  destruct (ensure_both_return s ltac:(by eexists) Hm) as (s1 & s2 & E1 & E2 & C2).
  destruct (ensure_both_audio_ok s Hok) as [_ R2].
  specialize (R2 s1 E1). rewrite E2 in R2. cbn in R2.
  destruct (ensureAudioContext_transport s) as (A1 & A2 & _).
  destruct (ensureMiniConnected_transport s1) as (B1 & B2 & _).
  rewrite E1 in A1, A2. rewrite E2 in B1, B2. cbn [state_of] in *.
  rewrite A1 in B1. rewrite A2 in B2.
  unfold handleBgPlayPause, handleMuPlayPause. rewrite Hr, E1. cbn [andThen].
  rewrite E2. cbn [andThen]. clear E1 E2 A1 A2.
  split.
  - rewrite Hb in B1. apply transport_inv in B1 as (v2 & Hb2 & [= Ec Ed Ep]).
    rewrite Hb2.
    destruct (toggle_big s2 v2 R2 Hb2) as (T1 & T2 & T3 & T4).
    rewrite <- Ep in *. rewrite <- Ec, <- Ed in T2.
    destruct (paused v); (eexists; split; [reflexivity|]);
      repeat split; try done; try (by apply audio_ok_routed); try apply T1;
      by rewrite T3.
  - intros m Hmu. rewrite Hmu in B2.
    apply transport_inv in B2 as (m2 & Hm2 & [= Ec Ed Ep]).
    rewrite Hm2.
    destruct (toggle_mini s2 m2 R2 Hm2) as (T1 & T2 & T3 & T4).
    rewrite <- Ep in *. rewrite <- Ec, <- Ed in T2.
    destruct (paused m); (eexists; split; [reflexivity|]);
      repeat split; try done; try (by apply audio_ok_routed); try apply T1;
      by rewrite T3.
Qed.

Lemma track_play_pause_toggles_witness :
  exists s',
    handleBgPlayPause initial = Returned s'
    /\ transport (bgRef s') = Some (zero, NaN, false)
    /\ isPlaying s' = true.
Proof.
  edestruct (track_play_pause_toggles initial)
    as [(s' & H1 & _ & _ & H4 & _ & H6) _];
    [ apply initial_audio_ok | reflexivity | reflexivity
    | intros H; discriminate H | ].
  exists s'. split; [exact H1|]. split; [exact H4|exact H6].
Defined.

Lemma handleGlobalStop_rewinds s bg mu :
  isRecording s = false -> bgRef s = Some bg -> muRef s = Some mu ->
  let s' := handleGlobalStop s in
  bgRef s' = Some (set_currentTime zero (set_paused true bg))
  /\ muRef s' = Some (set_currentTime zero (set_paused true mu))
  /\ isPlaying s' = false /\ bgProgress s' = zero /\ muProgress s' = zero
  /\ muSrc s' = muSrc s /\ isGlued s' = isGlued s.
Proof.
  intros Hr Hb Hm. cbv zeta. unfold handleGlobalStop, pauseBg, pauseMu.
  rewrite Hr, Hb. cbn. rewrite Hm. cbn. rewrite ?Hm. done.
Qed.

Lemma wrapTime_zero d : wrapTime zero d = zero.
Proof.
  unfold wrapTime. destruct (negb (isFinite d) || (d <=? zero)) eqn:E; [done|].
  destruct d as [y| | |]; try done.
  unfold zero, ratio, rem. change (Q2Qc (0 # 1)) with 0%Qc.
  destruct (Qc_eq_bool y 0) eqn:Ey.
  - apply Qc_eq_bool_correct in Ey. subst y. done.
  - replace (0 / y)%Qc with 0%Qc by (unfold Qcdiv; ring).
    change (trunc 0%Qc) with 0%Z. change (Q2Qc (inject_Z 0)) with 0%Qc.
    replace (0 - y * 0)%Qc with 0%Qc by ring. done.
Qed.

(** X16.  Stop, then Glue: after the global stop button (nothing being
    recorded, both players mounted, SMALL has a source) both tracks stand
    paused at 0, so enabling Glue next captures the offset 0 and the tracks
    are glued start to start, with no glue error. *)
Theorem stop_then_glue_aligns (s : studio) (bg mu : media) :
  isRecording s = false -> isGlued s = false ->
  bgRef s = Some bg -> muRef s = Some mu -> src_truthy (muSrc s) = true ->
  (duration mu <? zero) = false ->
  let s' := toggleGlue (handleGlobalStop s) in
  isGlued s' = true
  /\ glueOffsetSecRef s' = zero
  /\ transport (bgRef s') = Some (zero, duration bg, true)
  /\ transport (muRef s') = Some (zero, duration mu, true)
  /\ glue_error s' = Some zero.
Proof.
  intros Hr Hg Hb Hm Hs Hd. cbv zeta.
  destruct (handleGlobalStop_rewinds s bg mu Hr Hb Hm)
    as (S1 & S2 & S3 & S4 & S5 & S6 & S7).
  revert S1 S2 S3 S4 S5 S6 S7. generalize (handleGlobalStop s). intros s1.
  rewrite Hg. intros S1 S2 S3 S4 S5 S6 S7. rewrite <- S6 in Hs.
  unfold toggleGlue. rewrite Hs, S7, S1, S2. cbn [negb].
  unfold glue_error, transport. cbn. rewrite S1, S2. cbn.
  change (or0 zero - or0 zero) with zero. change (zero + zero) with zero.
  rewrite wrapTime_zero. repeat split.
  unfold circular_distance. f_equal.
  destruct (duration mu) as [y| | |]; try done.
  change (zero <? zero) with false. cbv iota. change (zero - zero) with zero.
  replace (Fin y - zero) with (Fin y); [by rewrite Hd|].
  unfold sub, neg, add, zero, ratio. f_equal. change (Q2Qc (0 # 1)) with 0%Qc. ring.
Qed.

Lemma stop_then_glue_aligns_witness :
  let s := setMuSrc (Some "blob:1")
             (set_muRef (Some (mkMedia (3 # 1) (7 # 1) one false))
                (set_bgRef (Some (mkMedia (5 # 1) (10 # 1) one false))
                   initial)) in
  let s' := toggleGlue (handleGlobalStop s) in
  isGlued s' = true /\ glueOffsetSecRef s' = zero
  /\ glue_error s' = Some zero.
Proof.
  intros s s'.
  destruct (stop_then_glue_aligns s
              (mkMedia (5 # 1) (10 # 1) one false)
              (mkMedia (3 # 1) (7 # 1) one false))
    as (H1 & H2 & _ & _ & H5); try reflexivity.
  split; [exact H1|]. split; [exact H2|exact H5].
Defined.

(** X17.  The audio graph is built at most once.  Once [ensureAudioContext]
    has run, whether it returned or threw, every later call returns at once
    and changes nothing; once [ensureMiniConnected] has returned, calling it
    again changes nothing either.  So no media element is ever handed to
    [createMediaElementSource] twice. *)
Theorem graph_built_once (s : studio) :
  (let s1 := state_of (ensureAudioContext s) in
   ensureAudioContext s1 = Returned s1)
  /\ (forall s2, ensureMiniConnected s = Returned s2 ->
        ensureMiniConnected s2 = Returned s2).
Proof.
  split.
  - cbv zeta. apply ensureAudioContext_constructed.
    unfold constructed, ensureAudioContext, connect.
    destruct (audioCtxRef s) eqn:E; cbn; [by rewrite E|].
    destruct (bgRef s) eqn:Hb; cbn; rewrite ?Hb; cbn; done.
  - intros s2. unfold ensureMiniConnected, connect.
    destruct (audioCtxRef s) eqn:E; [|intros [= <-]; by rewrite E].
    destruct (muRef s) eqn:Hm; [|intros [= <-]; by rewrite E, Hm].
    destruct (muSourceRef s) eqn:Hs; [intros [= <-]; by rewrite E, Hm, Hs|].
    cbn. rewrite E. cbn.
    destruct (masterGainRef s) eqn:Hg; cbn; [|done].
    intros [= <-]. cbn. rewrite ?E. cbn. by rewrite Hm.
Qed.

Close Scope js_scope.
Open Scope Z_scope.

(** ** The QR code on the frame *)

Lemma qr_cut_off_checked :
  forallb qr_cut_off (List.map Z.of_nat (seq 1 120)) = true.
Proof. vm_compute. reflexivity. Qed.

(** X18.  The crop the scan decodes first does not hold the QR code of a
    recording.  On every 16:9 frame from 16 x 9 up to 1920 x 1080 pixels
    (1280 x 720, the default canvas, among them) the square [draw] paints
    the code into reaches below the top-left crop of 32 % by 32 % that
    [scanGoodwillsQrFromFile] hands to the decoder first, so the square
    does not lie within that crop. *)
Theorem qr_code_exceeds_first_crop (k : Z) :
  1 <= k <= 120 ->
  let '(w, h) := widescreen k in
  ltb (add (ry (first_crop w h)) (rh (first_crop w h)))
      (add (ry (qr_square w)) (rh (qr_square w))) = true
  /\ within (qr_square w) (first_crop w h) = false.
Proof.
  intros Hk.
  assert (Hin : In k (List.map Z.of_nat (seq 1 120))).
  { apply in_map_iff. exists (Z.to_nat k). split; [lia|].
    apply in_seq. lia. }
  pose proof (proj1 (forallb_forall _ _) qr_cut_off_checked k Hin) as H.
  unfold qr_cut_off in H. destruct (widescreen k) as [w h].
  apply andb_true_iff in H as [H1 H2]. split; [exact H1|].
  by apply negb_true_iff.
Qed.

Lemma qr_code_exceeds_first_crop_witness :
  let w := Fin (Q2Qc (inject_Z 1280)) in
  let h := Fin (Q2Qc (inject_Z 720)) in
  ltb (add (ry (first_crop w h)) (rh (first_crop w h)))
      (add (ry (qr_square w)) (rh (qr_square w))) = true
  /\ within (qr_square w) (first_crop w h) = false.
Proof.
  apply (qr_code_exceeds_first_crop 80). lia.
Defined.

(** ** What the mint dialog accepts *)

Section mint_provenance.
Variable JSON_parse : string -> option json.
Variable JSON_stringify : json -> string.
Variable Number_toString : num -> string.

Lemma scan_found_accepted url p text payload :
  (scanGoodwillsQrFromFile JSON_parse url p).2
  = Some (Ok (scan_found text payload)) ->
  JSON_parse text = Some payload /\ payload_shape payload = true.
Proof.
  unfold scanGoodwillsQrFromFile. cbv zeta. cbn [snd].
  destruct (loads p); cbn [negb]; [|done].
  destruct (context2d p); cbn [negb]; [|done].
  apply scan_frames_found.
Qed.

Lemma verified_view a a' :
  mint_view a' = mint_view a -> verified JSON_parse a -> verified JSON_parse a'.
Proof. unfold mint_view, verified. by intros [= -> -> ->]. Qed.

Lemma verified_cleared a :
  mintFile a = None -> mintQrPayload a = None -> verified JSON_parse a.
Proof.
  intros E1 E2. unfold verified. rewrite E1, E2. split; [done|].
  by intros [? [=]].
Qed.

Lemma revoke_if_set_mint_view u a :
  mint_view (revoke_if_set u a) = mint_view a.
Proof.
  unfold revoke_if_set. destruct u as [w|]; [|done].
  by destruct (negb (String.eqb w "")).
Qed.

Lemma lib_step_verified sa e :
  verified JSON_parse sa.2 ->
  verified JSON_parse
    (lib_step JSON_parse JSON_stringify Number_toString sa e).2.
Proof.
  destruct sa as [s a]. cbn [snd]. intros Hv.
  destruct e; cbn [lib_step snd].
  - by apply (verified_view a).
  - unfold closeMyRituals. cbv zeta.
    apply (verified_view a); [|done].
    change (mint_view (revoke_if_set (selectedPackVideoUrl a)
              (setSelectedPack None (setShowMyRituals false a)))
            = mint_view a).
    by rewrite revoke_if_set_mint_view.
  - unfold openPack. cbv zeta. apply (verified_view a); [|done].
    destruct (src_truthy (selectedPackVideoUrl a)), (videoBlob p);
      unfold newObjectURL; cbn;
      try (change (mint_view (revoke_if_set (selectedPackVideoUrl a)
                     (setSelectedPack (Some p) a)) = mint_view a);
           by rewrite revoke_if_set_mint_view);
      try done.
    all: unfold mint_view; cbn;
      pose proof (revoke_if_set_mint_view (selectedPackVideoUrl a)
                    (setSelectedPack (Some p) a)) as H;
      unfold mint_view in H; by injection H as -> -> ->.
  - unfold backFromPack. cbv zeta. apply (verified_view a); [|done].
    change (mint_view (revoke_if_set (selectedPackVideoUrl a)
              (setSelectedPack None a)) = mint_view a).
    by rewrite revoke_if_set_mint_view.
  - unfold handleGlobalMint. destruct (isRecording s); [done|].
    cbv zeta. cbn [snd]. apply verified_cleared; [|done]. cbn.
    pose proof (revoke_if_set_mint_view (mintPreviewUrl a)
                  (setMintFile None (setMood "calm" (setIntention "" a)))) as H.
    unfold mint_view in H. by injection H as -> _ _.
  - unfold handleMintFilePicked. destruct file as [[f p]|]; [|done].
    change (newObjectURL a) with (url_of (urlCounter a), (newObjectURL a).2).
    cbv beta iota zeta.
    destruct (scanGoodwillsQrFromFile JSON_parse (url_of (urlCounter a)) p).2
      as [[[text payload|]|]|] eqn:Es; cbn [snd];
      try by apply (verified_view a).
    apply scan_found_accepted in Es as [Ep Hs].
    match goal with |- context [newObjectURL ?r] =>
      change (newObjectURL r) with (url_of (urlCounter r), (newObjectURL r).2) end.
    cbv beta iota. split; cbn.
    + intros j [= <-]. split; [done|]. by exists text.
    + by eauto.
  - unfold mintLoadedMetadata. destruct (isFinite d); by apply (verified_view a).
  - unfold closeMintModal. cbv zeta. apply verified_cleared; [|done]. cbn.
    pose proof (revoke_if_set_mint_view (mintPreviewUrl a)
                  (setMintFile None (setShowMintModal false a))) as H.
    unfold mint_view in H. by injection H as -> _ _.
  - unfold handleMintConfirm. destruct (mintFile a) as [f|] eqn:Ef;
      [|by apply (verified_view a)].
    destruct zipOk; [|by apply (verified_view a)].
    change (newObjectURL a) with (url_of (urlCounter a), (newObjectURL a).2).
    cbv beta iota zeta. unfold closeMintModal. cbv zeta.
    apply verified_cleared; [|done]. cbn.
    match goal with |- context [revoke_if_set ?u ?x] =>
      pose proof (revoke_if_set_mint_view u x) as H end.
    unfold mint_view in H. by injection H as -> _ _.
Qed.

(** X19.  A pack is minted only from a recording whose QR code was read.
    Whatever has happened in the two dialogs, if a file is selected in the
    mint dialog then the text kept with it parses to a payload that passes
    the check of [isGoodwillsQRPayload]; and confirming writes a pack that
    bears the id of that payload, never one made up from the clock: the
    download is named after it, and [mint.json] carries it as [id] and the
    text of the code as [qr]. *)
Theorem mint_bears_scanned_id
    (s : studio) (events : list lib_event) (f : WebmFile)
    (now : Z) (iso sha : string) :
  let a := (foldl (lib_step JSON_parse JSON_stringify Number_toString)
              (s, empty_library) events).2 in
  mintFile a = Some f ->
  exists (t i : string) (j : json) (m : gmap string json),
    mintQrText a = Some t /\ JSON_parse t = Some j
    /\ payload_shape j = true
    /\ get j k_id = Value (JStr i) /\ String.prefix "gw-" i = true
    /\ mintObj now iso sha f a = JObj m
    /\ m !! "id" = Some (JStr i) /\ m !! "qr" = Some (JStr t)
    /\ downloads
         (handleMintConfirm JSON_stringify Number_toString now iso sha true a)
       = mkDownload (i +:+ ".mint")
           (<["video.webm" := webmContent f]>
              (<["mint.json" := JSON_stringify (JObj m)]> ∅))
         :: downloads a.
Proof.
  cbv zeta.
  assert (H : forall sa, verified JSON_parse sa.2 ->
            verified JSON_parse
              (foldl (lib_step JSON_parse JSON_stringify Number_toString)
                 sa events).2).
  { induction events as [|e l IH]; intros sa Ha; [done|].
    cbn [foldl]. apply IH. by apply lib_step_verified. }
  assert (H0 : verified JSON_parse empty_library) by by apply verified_cleared.
  specialize (H (s, empty_library) H0). cbn [snd] in H.
  revert H.
  generalize (foldl (lib_step JSON_parse JSON_stringify Number_toString)
                (s, empty_library) events).2.
  intros a [Hv Hs] Hf.
  destruct Hs as [j Ej]; [by rewrite Hf; eauto|].
  destruct (Hv j Ej) as (Hp & t & Et & Ept).
  pose proof Hp as Hp'.
  apply payload_shape_spec in Hp'
    as (mj & vols & i & c & b & sm & ms & -> & Ei & Epre & _).
  assert (Eid : sourceId now a = JStr i).
  { unfold sourceId. rewrite Ej. cbn. change (mj !! "id") with (mj !! "id").
    by rewrite Ei. }
  exists t, i, (JObj mj). eexists.
  split; [done|]. split; [done|]. split; [done|].
  split; [by cbn; rewrite Ei|]. split; [done|].
  split; [unfold mintObj; reflexivity|].
  split; [by rewrite Eid; simplify_map_eq|].
  split; [by rewrite Et; simplify_map_eq|].
  unfold handleMintConfirm, mintObj. rewrite Hf.
  change (newObjectURL a) with (url_of (urlCounter a), (newObjectURL a).2).
  cbv beta iota zeta. rewrite Eid.
  unfold closeMintModal, revoke_if_set. cbn.
  destruct (mintPreviewUrl a) as [u|]; [destruct (String.eqb u "")|]; cbn;
    reflexivity.
Qed.

End mint_provenance.

Lemma mint_bears_scanned_id_witness :
  let parse := fun txt : string =>
    if String.eqb txt "ok"
    then Some (JObj (<["id" := JStr "gw-1"]>
                     (<["createdAt" := JStr "now"]>
                      (<["volumes" :=
                           JObj (<["big" := JNum one]>
                                 (<["small" := JNum one]>
                                  (<["master" := JNum one]> ∅)))]> ∅))))
    else None in
  let p := mkProbe true true 1280 720 (ratio 1 1) (fun _ => true)
             (fun _ => Some "noise")
             (fun t => if ltb t (ratio 1 2) then None else Some "ok") in
  let f := mkWebm "ritual.webm" 3 "abc" in
  let a := (foldl (lib_step parse (fun _ => "{}") (fun _ => "0"))
              (initial, empty_library) [MintFilePicked (Some (f, p))]).2 in
  mintFile a = Some f
  /\ exists (t i : string) (j : json) (m : gmap string json),
       mintQrText a = Some t /\ parse t = Some j
       /\ payload_shape j = true
       /\ get j k_id = Value (JStr i) /\ String.prefix "gw-" i = true
       /\ mintObj 17 "now" "" f a = JObj m
       /\ m !! "id" = Some (JStr i) /\ m !! "qr" = Some (JStr t)
       /\ downloads
            (handleMintConfirm (fun _ => "{}") (fun _ => "0") 17 "now" "" true a)
          = mkDownload (i +:+ ".mint")
              (<["video.webm" := webmContent f]>
                 (<["mint.json" := "{}"]> ∅))
            :: downloads a.
Proof.
  intros parse p f a.
  assert (Hf : mintFile a = Some f) by (vm_compute; reflexivity).
  split; [exact Hf|].
  exact (mint_bears_scanned_id parse (fun _ => "{}") (fun _ => "0")
           initial [MintFilePicked (Some (f, p))] f 17 "now" "" Hf).
Defined.
